(** * GoSwift: router, middleware chain, request context and SSE broadcaster

    A shallow embedding of the dispatch core of the [goswift] package
    (router.go, middleware.go, context.go, goswift.go, errors.go, sse.go)
    and the properties its specification states about it, followed by
    the session, metrics, plugin and configuration stores of the package,
    the mounting of static files, and the routing table that main.go
    registers.

    Conventions.
    - Go [string]s are byte strings: [string] of the Standard Library,
      [String.length] is Go's [len].
    - Go [int] is modelled by [Z]; the only arithmetic on it in the modelled
      code is [rw.size += size], whose two's-complement wrap-around is
      written out ([wrap_int]).
    - Go maps are [gmap]s.  A [range] over a map visits the entries in an
      order the language leaves unspecified and that may change from one
      loop to the next; every such loop takes the order as an explicit
      argument (a [range_order]), and statements quantify over all of them.
    - A [*Context] is threaded through handlers as explicit state. *)

From Stdlib Require Import ZArith Ascii String List Lia Bool Permutation.
From stdpp Require Import base option gmap strings list fin_maps.

Set Default Proof Using "Type".

(* ===================================================================== *)
(** * Go string primitives used by the router *)
(* ===================================================================== *)

Module GoStrings.

(** [strings.HasPrefix(s, prefix)] *)
Definition HasPrefix (s prefix : string) : bool := String.prefix prefix s.

(** [s[i:]] for [i <= len(s)] *)
Definition slice_from (s : string) (i : nat) : string :=
  String.substring i (String.length s - i) s.

(** [s[:i]] for [i <= len(s)] *)
Definition slice_to (s : string) (i : nat) : string :=
  String.substring 0 i s.

(** [strings.Index(s, sep)] for a one-byte [sep]; [None] is Go's [-1]. *)
Fixpoint Index (s : string) (sep : ascii) : option nat :=
  match s with
  | EmptyString => None
  | String c rest =>
      if Ascii.eqb c sep then Some 0 else S <$> Index rest sep
  end.

(** [strings.Split(s, sep)] for a one-byte [sep].  As in Go, a string
    without separator yields the one-element list [[s]], also when [s]
    is empty. *)
Fixpoint Split (s : string) (sep : ascii) : list string :=
  match s with
  | EmptyString => [EmptyString]
  | String c rest =>
      if Ascii.eqb c sep then EmptyString :: Split rest sep
      else match Split rest sep with
           | hd :: tl => String c hd :: tl
           | [] => [String c EmptyString]
           end
  end.

End GoStrings.

(* ===================================================================== *)
(** * The fragment of Go's [regexp] package the router relies on *)
(* ===================================================================== *)

(** [RouteBuilder.Handler] assembles a regular expression as text, compiles
    it with [regexp.Compile] and matches request paths with
    [FindStringSubmatch].  The package is the Go standard library's; it is
    modelled here for the syntax the router itself generates (literal bytes,
    the escapes produced by [QuoteMeta], the two text anchors, an optional
    trailing slash, the default parameter group "one or more bytes other
    than a slash" and the wildcard group "any bytes") and for the usual
    shapes of a parameter constraint (capturing groups, bracket classes
    with ranges, the Perl classes d, w and s, the dot, the three greedy
    repetition operators, alternation).
    Matching is leftmost-first with greedy repetition, which is the
    submatch semantics of Go's non-POSIX [regexp].  Text outside that
    fragment (non-greedy and counted repetition, groups opening with a
    question mark, named classes, other backslash escapes) is not given a
    meaning: [Compile] returns [None] for it, as it does for malformed
    text.  The model works on bytes, which agrees with Go's rune-based
    matcher on ASCII input. *)
Module regexp.

Inductive Regexp : Type :=
| Eps                                         (* empty expression *)
| Lit (c : ascii)                             (* one literal byte *)
| AnyNotNL                                    (* the dot, without the s flag *)
| Class (neg : bool) (rs : list (ascii * ascii))  (* bracket class, maybe negated *)
| Cat (r1 r2 : Regexp)
| Alt (r1 r2 : Regexp)
| Star (r : Regexp)
| Plus (r : Regexp)
| Quest (r : Regexp)
| Group (idx : nat) (r : Regexp)              (* capturing group no. idx *)
| BeginText                                   (* caret, without the m flag *)
| EndText.                                    (* dollar, without the m flag *)

(** ** QuoteMeta *)

(** The bytes [regexp.QuoteMeta] escapes, as listed in the package. *)
Definition special (b : ascii) : bool :=
  existsb (Ascii.eqb b)
    (list_ascii_of_string "\.+*?()|[]{}^$").

Fixpoint QuoteMeta (s : string) : string :=
  match s with
  | EmptyString => EmptyString
  | String c rest =>
      if special c then String "\" (String c (QuoteMeta rest))
      else String c (QuoteMeta rest)
  end.

(** ** Compile: a recursive-descent parser *)

Definition byte_le (a b : ascii) : bool := (nat_of_ascii a <=? nat_of_ascii b)%nat.

Definition in_range (c : ascii) (r : ascii * ascii) : bool :=
  byte_le (fst r) c && byte_le c (snd r).

Definition digit_ranges : list (ascii * ascii) := [("0", "9")]%char.
Definition word_ranges : list (ascii * ascii) :=
  [("0", "9"); ("A", "Z"); ("a", "z"); ("_", "_")]%char.
Definition space_ranges : list (ascii * ascii) :=
  [("009", "010"); ("012", "013"); (" ", " ")]%char.

Definition is_punct (c : ascii) : bool :=
  let n := nat_of_ascii c in
  ((33 <=? n) && (n <=? 47) || (58 <=? n) && (n <=? 64) ||
   (91 <=? n) && (n <=? 96) || (123 <=? n) && (n <=? 126))%nat.

(** A backslash escape outside a bracket class. *)
Definition parse_escape (c : ascii) : option Regexp :=
  if Ascii.eqb c "d" then Some (Class false digit_ranges)
  else if Ascii.eqb c "D" then Some (Class true digit_ranges)
  else if Ascii.eqb c "w" then Some (Class false word_ranges)
  else if Ascii.eqb c "W" then Some (Class true word_ranges)
  else if Ascii.eqb c "s" then Some (Class false space_ranges)
  else if Ascii.eqb c "S" then Some (Class true space_ranges)
  else if is_punct c then Some (Lit c)
  else None.

(** One byte of a bracket class, possibly escaped: the byte, or the
    ranges of a Perl class. *)
Definition class_atom (s : list ascii)
  : option ((ascii + list (ascii * ascii)) * list ascii) :=
  match s with
  | "\"%char :: c :: s' =>
      if Ascii.eqb c "d" then Some (inr digit_ranges, s')
      else if Ascii.eqb c "w" then Some (inr word_ranges, s')
      else if Ascii.eqb c "s" then Some (inr space_ranges, s')
      else if is_punct c then Some (inl c, s')
      else None
  | "["%char :: _ => None                     (* named classes *)
  | c :: s' => Some (inl c, s')
  | [] => None
  end.

(** The items of a bracket class up to the closing bracket.  [first]
    tells that no item was read yet: a closing bracket there is a
    literal, as in Go. *)
Fixpoint parse_class_items (fuel : nat) (first : bool) (s : list ascii)
  : option (list (ascii * ascii) * list ascii) :=
  match fuel with
  | O => None
  | S fuel =>
      match s with
      | [] => None
      | "]"%char :: s' =>
          if first then
            '(rs, s'') ← parse_class_items fuel false s';
            Some (("]", "]")%char :: rs, s'')
          else Some ([], s')
      | _ =>
          '(a, s1) ← class_atom s;
          match a, s1 with
          | inl lo, "-"%char :: "]"%char :: s2 =>
              Some ([(lo, lo); ("-", "-")%char], s2)
          | inl lo, "-"%char :: s2 =>
              '(b, s3) ← class_atom s2;
              match b with
              | inl hi =>
                  if byte_le lo hi then
                    '(rs, s4) ← parse_class_items fuel false s3;
                    Some ((lo, hi) :: rs, s4)
                  else None
              | inr _ => None
              end
          | inl lo, _ =>
              '(rs, s2) ← parse_class_items fuel false s1;
              Some ((lo, lo) :: rs, s2)
          | inr rs0, _ =>
              '(rs, s2) ← parse_class_items fuel false s1;
              Some (rs0 ++ rs, s2)
          end
      end
  end.

Definition parse_class (s : list ascii) : option (Regexp * list ascii) :=
  match s with
  | "^"%char :: s' =>
      '(rs, s'') ← parse_class_items (S (length s')) true s';
      Some (Class true rs, s'')
  | _ =>
      '(rs, s'') ← parse_class_items (S (length s)) true s;
      Some (Class false rs, s'')
  end.

Definition is_repeat_op (c : ascii) : bool :=
  Ascii.eqb c "*" || Ascii.eqb c "+" || Ascii.eqb c "?".

Section Levels.
(** The parser of an alternation one level of nesting down; [n] is the
    number of capturing groups opened so far. *)
Variable parse_nested : nat -> list ascii -> option (Regexp * nat * list ascii).

Definition parse_atom (n : nat) (s : list ascii)
  : option (Regexp * nat * list ascii) :=
  match s with
  | [] => None
  | "("%char :: "?"%char :: _ => None
  | "("%char :: s1 =>
      match parse_nested (S n) s1 with
      | Some (r, n', ")"%char :: s2) => Some (Group (S n) r, n', s2)
      | _ => None
      end
  | "["%char :: s1 =>
      '(r, s2) ← parse_class s1; Some (r, n, s2)
  | "\"%char :: c :: s1 =>
      r ← parse_escape c; Some (r, n, s1)
  | "\"%char :: [] => None
  | "."%char :: s1 => Some (AnyNotNL, n, s1)
  | "^"%char :: s1 => Some (BeginText, n, s1)
  | "$"%char :: s1 => Some (EndText, n, s1)
  | c :: s1 =>
      if is_repeat_op c || Ascii.eqb c "{" || Ascii.eqb c "}"
         || Ascii.eqb c ")" || Ascii.eqb c "|" || Ascii.eqb c "]"
      then None
      else Some (Lit c, n, s1)
  end.

(** An atom with at most one repetition operator. *)
Definition parse_repeat (n : nat) (s : list ascii)
  : option (Regexp * nat * list ascii) :=
  '(r, n', s1) ← parse_atom n s;
  match s1 with
  | c :: s2 =>
      if is_repeat_op c then
        match s2 with
        | c' :: _ =>
            if is_repeat_op c' || Ascii.eqb c' "{" then None
            else Some ((if Ascii.eqb c "*" then Star r
                        else if Ascii.eqb c "+" then Plus r
                        else Quest r), n', s2)
        | [] =>
            Some ((if Ascii.eqb c "*" then Star r
                   else if Ascii.eqb c "+" then Plus r
                   else Quest r), n', s2)
        end
      else if Ascii.eqb c "{" then None
      else Some (r, n', s1)
  | [] => Some (r, n', s1)
  end.

Fixpoint parse_concat (fuel : nat) (n : nat) (s : list ascii)
  : option (Regexp * nat * list ascii) :=
  match fuel with
  | O => None
  | S fuel =>
      match s with
      | [] => Some (Eps, n, s)
      | c :: _ =>
          if Ascii.eqb c ")" || Ascii.eqb c "|" then Some (Eps, n, s)
          else
            '(r1, n1, s1) ← parse_repeat n s;
            '(r2, n2, s2) ← parse_concat fuel n1 s1;
            Some (match r2 with Eps => r1 | _ => Cat r1 r2 end, n2, s2)
      end
  end.

Fixpoint parse_alternation (fuel : nat) (n : nat) (s : list ascii)
  : option (Regexp * nat * list ascii) :=
  match fuel with
  | O => None
  | S fuel =>
      '(r1, n1, s1) ← parse_concat (S (length s)) n s;
      match s1 with
      | "|"%char :: s2 =>
          '(r2, n2, s3) ← parse_alternation fuel n1 s2;
          Some (Alt r1 r2, n2, s3)
      | _ => Some (r1, n1, s1)
      end
  end.
End Levels.

Fixpoint parse (depth : nat) (n : nat) (s : list ascii)
  : option (Regexp * nat * list ascii) :=
  match depth with
  | O => None
  | S depth => parse_alternation (parse depth) (S (length s)) n s
  end.

(** [regexp.Compile]: the expression and its number of capturing groups
    ([NumSubexp]). *)
Record compiled : Type := { expr : Regexp; NumSubexp : nat }.

Definition Compile (text : string) : option compiled :=
  let s := list_ascii_of_string text in
  match parse (S (length s)) 0 s with
  | Some (r, n, []) => Some {| expr := r; NumSubexp := n |}
  | _ => None
  end.

(** ** FindStringSubmatch: a backtracking matcher *)

(** Capture positions, most recent first: group index, start and end
    offset in the text. *)
Definition captures : Type := list (nat * (nat * nat)).

(** A continuation receives the offset reached, the rest of the text and
    the captures so far. *)
Definition cont : Type := nat -> list ascii -> captures -> option captures.

(** Greedy iteration of [body]; an iteration that consumes nothing is
    not taken, [fuel] bounds the number of iterations by the length of
    the rest of the text. *)
Fixpoint iterate (body : nat -> list ascii -> captures -> cont -> option captures)
    (fuel : nat) (pos : nat) (s : list ascii) (caps : captures) (k : cont)
  : option captures :=
  match fuel with
  | O => k pos s caps
  | S fuel =>
      match body pos s caps
              (fun pos' s' caps' =>
                 if (pos <? pos')%nat then iterate body fuel pos' s' caps' k
                 else None) with
      | Some c => Some c
      | None => k pos s caps
      end
  end.

Fixpoint run (r : Regexp) (pos : nat) (s : list ascii) (caps : captures)
    (k : cont) {struct r} : option captures :=
  match r with
  | Eps => k pos s caps
  | Lit c =>
      match s with
      | c' :: s' => if Ascii.eqb c c' then k (S pos) s' caps else None
      | [] => None
      end
  | AnyNotNL =>
      match s with
      | c' :: s' => if Ascii.eqb c' "010" then None else k (S pos) s' caps
      | [] => None
      end
  | Class neg rs =>
      match s with
      | c' :: s' =>
          if xorb neg (existsb (in_range c') rs) then k (S pos) s' caps
          else None
      | [] => None
      end
  | Cat r1 r2 =>
      run r1 pos s caps (fun pos' s' caps' => run r2 pos' s' caps' k)
  | Alt r1 r2 =>
      match run r1 pos s caps k with
      | Some c => Some c
      | None => run r2 pos s caps k
      end
  | Star r1 => iterate (run r1) (S (length s)) pos s caps k
  | Plus r1 =>
      run r1 pos s caps
        (fun pos' s' caps' => iterate (run r1) (S (length s')) pos' s' caps' k)
  | Quest r1 =>
      match run r1 pos s caps k with
      | Some c => Some c
      | None => k pos s caps
      end
  | Group idx r1 =>
      run r1 pos s caps
        (fun pos' s' caps' => k pos' s' ((idx, (pos, pos')) :: caps'))
  | BeginText => if (pos =? 0)%nat then k pos s caps else None
  | EndText =>
      match s with
      | [] => k pos s caps
      | _ :: _ => None
      end
  end.

(** The leftmost match: start offsets are tried from left to right. *)
Fixpoint search (r : Regexp) (pos : nat) (s : list ascii) : option captures :=
  match run r pos s [] (fun pos' _ caps => Some ((0, (pos, pos')) :: caps)) with
  | Some c => Some c
  | None =>
      match s with
      | [] => None
      | _ :: s' => search r (S pos) s'
      end
  end.

Fixpoint capture_of (idx : nat) (caps : captures) : option (nat * nat) :=
  match caps with
  | [] => None
  | (i, span) :: caps' =>
      if (i =? idx)%nat then Some span else capture_of idx caps'
  end.

(** The text of group [idx]; a group that took no part in the match
    yields the empty string. *)
Definition submatch (text : string) (caps : captures) (idx : nat) : string :=
  match capture_of idx caps with
  | Some (a, b) => String.substring a (b - a) text
  | None => EmptyString
  end.

(** [re.FindStringSubmatch(text)]: [None] is Go's [nil]; otherwise the
    whole match followed by the text of each capturing group. *)
Definition FindStringSubmatch (re : compiled) (text : string)
  : option (list string) :=
  caps ← search (expr re) 0 (list_ascii_of_string text);
  Some (submatch text caps <$> seq 0 (S (NumSubexp re))).

End regexp.

(* ===================================================================== *)
(** * Integers, errors and the HTTP boundary *)
(* ===================================================================== *)

(** Go's [int] on a 64-bit platform: the value [z] reduced to the signed
    64-bit range. *)
Definition wrap_int (z : Z) : Z := ((z + 2 ^ 63) mod 2 ^ 64 - 2 ^ 63)%Z.

(** errors.go: the [error] values the package produces.  [HTTPError] is the
    package's own type; [errorString] stands for any other error. *)
#[warnings="-register-all"] Inductive error : Type :=
| HTTPError (StatusCode : Z) (Message : string) (Err : option error)
| errorString (msg : string).

(** [NewHTTPError(statusCode, message, errs...)] *)
Definition NewHTTPError (statusCode : Z) (message : string) (errs : list error)
  : error :=
  let originalErr := match errs with e :: _ => Some e | [] => None end in
  HTTPError statusCode message originalErr.

Module http.

Definition StatusOK : Z := 200.
Definition StatusNotFound : Z := 404.
Definition MethodGet : string := "GET".
Definition MethodPost : string := "POST".

(** The part of [*http.Request] the dispatch core reads. *)
Record Request : Type := { Method : string; URL_Path : string }.

(** The interface [http.ResponseWriter], as far as the package's own
    writer forwards to it: [WriteHeader] and [Write], the latter
    returning the number of bytes it took and an error. *)
Class ResponseWriter (W : Type) : Type := {
  WriteHeader : Z -> W -> W;
  Write : list Byte.byte -> W -> W * (Z * option error)
}.

(** A writer that behaves as the standard library documents for a
    server response: the first [WriteHeader] fixes the status line,
    later ones are ignored; a [Write] before any [WriteHeader] sends
    status 200; every byte is accepted. *)
Record wire : Type := { sent_status : option Z; sent_body : list Byte.byte }.

Definition wire_WriteHeader (code : Z) (w : wire) : wire :=
  match sent_status w with
  | Some _ => w
  | None => {| sent_status := Some code; sent_body := sent_body w |}
  end.

Definition wire_Write (b : list Byte.byte) (w : wire)
  : wire * (Z * option error) :=
  let w := wire_WriteHeader StatusOK w in
  ({| sent_status := sent_status w; sent_body := sent_body w ++ b |},
   (Z.of_nat (length b), None)).

#[global] Instance wire_ResponseWriter : ResponseWriter wire :=
  {| WriteHeader := wire_WriteHeader; Write := wire_Write |}.

Definition new_wire : wire := {| sent_status := None; sent_body := [] |}.

End http.

(** logger.go *)
Inductive LogLevel : Type := INFO | WARNING | ERROR.

(** What a [*Logger] has printed so far, oldest line first. *)
Definition Logger : Type := list (LogLevel * string).

Definition Logger_log (level : LogLevel) (line : string) (l : Logger) : Logger :=
  l ++ [(level, line)].

(* ===================================================================== *)
(** * context.go *)
(* ===================================================================== *)

Section Context.
Context {W : Type} `{!http.ResponseWriter W}.

(** [responseWriter] wraps the underlying writer and keeps a status and
    a byte count. *)
Record responseWriter : Type := {
  ResponseWriter : W;
  status : Z;
  size : Z
}.

(** A request-scoped value ([interface{}] in the source). *)
Inductive Value : Type :=
| VString (s : string)
| VInt (z : Z)
| VBool (b : bool).

(** [Context].  The [engine] pointer is represented by the one piece of
    the engine a handler changes through it, the logger's output; a
    [nil] parameter map is [None]. *)
Record Context : Type := {
  Writer : responseWriter;
  Request : http.Request;
  pathParams : option (gmap string string);
  data : gmap string Value;
  engine_Logger : Logger
}.

Definition newContext (w : W) (r : http.Request) (log : Logger) : Context :=
  {| Writer := {| ResponseWriter := w; status := 0; size := 0 |};
     Request := r;
     pathParams := Some ∅;
     data := ∅;
     engine_Logger := log |}.

(** [func (rw *responseWriter) WriteHeader(statusCode int)] *)
Definition WriteHeader (statusCode : Z) (rw : responseWriter) : responseWriter :=
  {| ResponseWriter := http.WriteHeader statusCode (ResponseWriter rw);
     status := statusCode;
     size := size rw |}.

(** [func (rw *responseWriter) Write(b []byte) (int, error)] *)
Definition Write (b : list Byte.byte) (rw : responseWriter)
  : responseWriter * (Z * option error) :=
  let '(w', (n, err)) := http.Write b (ResponseWriter rw) in
  ({| ResponseWriter := w'; status := status rw;
      size := wrap_int (size rw + n) |},
   (n, err)).

(** [func (c *Context) Status() int] *)
Definition Status (c : Context) : Z :=
  if (status (Writer c) =? 0)%Z then http.StatusOK else status (Writer c).

Definition with_Writer (rw : responseWriter) (c : Context) : Context :=
  {| Writer := rw; Request := Request c; pathParams := pathParams c;
     data := data c; engine_Logger := engine_Logger c |}.

(** [func (c *Context) SetPathParams(params map[string]string)] *)
Definition SetPathParams (params : option (gmap string string)) (c : Context)
  : Context :=
  {| Writer := Writer c; Request := Request c; pathParams := params;
     data := data c; engine_Logger := engine_Logger c |}.

(** [func (c *Context) Param(key string) string]: reading a missing key,
    or a [nil] map, gives the empty string. *)
Definition Param (key : string) (c : Context) : string :=
  default EmptyString (pathParams c ≫= (.!! key)).

(** [func (c *Context) Set(key string, value interface{})] *)
Definition Set_ (key : string) (value : Value) (c : Context) : Context :=
  {| Writer := Writer c; Request := Request c; pathParams := pathParams c;
     data := <[key := value]> (data c); engine_Logger := engine_Logger c |}.

(** [func (c *Context) Get(key string) (interface{}, bool)] *)
Definition Get (key : string) (c : Context) : option Value := data c !! key.

(** [c.engine.Logger.Info/Warning/Error] with the line already formatted. *)
Definition log_line (level : LogLevel) (line : string) (c : Context) : Context :=
  {| Writer := Writer c; Request := Request c; pathParams := pathParams c;
     data := data c; engine_Logger := Logger_log level line (engine_Logger c) |}.

(** The calls a handler makes on its context that change it, and a
    sequence of them run in order. *)
Inductive call : Type :=
| CallWriteHeader (statusCode : Z)
| CallWrite (b : list Byte.byte)
| CallSet (key : string) (value : Value)
| CallSetPathParams (params : option (gmap string string))
| CallLog (level : LogLevel) (line : string).

Definition do_call (c : Context) (a : call) : Context :=
  match a with
  | CallWriteHeader statusCode => with_Writer (WriteHeader statusCode (Writer c)) c
  | CallWrite b => with_Writer (fst (Write b (Writer c))) c
  | CallSet key value => Set_ key value c
  | CallSetPathParams params => SetPathParams params c
  | CallLog level line => log_line level line c
  end.

Definition do_calls (calls : list call) (c : Context) : Context :=
  fold_left do_call calls c.

Definition is_WriteHeader (a : call) : bool :=
  match a with
  | CallWriteHeader _ => true
  | _ => false
  end.

(** The sum of the byte counts the underlying writer returns to the
    [Write] calls of a sequence. *)
Fixpoint reported_bytes (calls : list call) (c : Context) : Z :=
  match calls with
  | [] => 0
  | a :: rest =>
      (match a with
       | CallWrite b => fst (snd (Write b (Writer c)))
       | _ => 0
       end + reported_bytes rest (do_call c a))%Z
  end.

(* =================================================================== *)
(** * middleware.go: handlers and their composition *)
(* =================================================================== *)

(** [type HandlerFunc func(c *Context) error]: the returned error
    ([None] is [nil]) and the context as the call leaves it. *)
Definition HandlerFunc : Type := Context -> option error * Context.

(** [type MiddlewareFunc func(next HandlerFunc) HandlerFunc] *)
Definition MiddlewareFunc : Type := HandlerFunc -> HandlerFunc.

(** [applyMiddleware]: the loop runs from the last unit to the first,
    each wrapping what was built so far, so the first unit ends up
    outermost. *)
Fixpoint applyMiddleware (handler : HandlerFunc) (middleware : list MiddlewareFunc)
  : HandlerFunc :=
  match middleware with
  | [] => handler
  | mw :: rest => mw (applyMiddleware handler rest)
  end.

End Context.

Arguments responseWriter W : clear implicits.
Arguments Context W : clear implicits.
Arguments HandlerFunc W : clear implicits.
Arguments MiddlewareFunc W : clear implicits.

(* ===================================================================== *)
(** * Iteration over a Go map *)
(* ===================================================================== *)

(** The order in which one [range] loop visits the entries of a map: a
    rearrangement of the entries, chosen by the runtime. *)
Definition range_order : Type := forall V : Type, list (string * V) -> list (string * V).

(** A [range] visits every entry exactly once. *)
Definition visits_each_once (o : range_order) : Prop :=
  forall (V : Type) (l : list (string * V)), o V l ≡ₚ l.

(** The entries of [m] as a loop running under [o] meets them. *)
Definition range {V : Type} (o : range_order) (m : gmap string V) : list (string * V) :=
  o V (map_to_list m).

(** Two orders a runtime may pick. *)
Definition in_stored_order : range_order := fun V l => l.
Definition in_reverse_order : range_order := fun V l => rev l.

(* ===================================================================== *)
(** * router.go *)
(* ===================================================================== *)

Section Router.
Context {W : Type} `{!http.ResponseWriter W}.

(** [route]: the handler, the original pattern, the route's own middleware,
    the compiled expression and the parameter names in order. *)
Record route : Type := {
  handler : HandlerFunc W;
  pattern : string;
  before : list (MiddlewareFunc W);
  after : list (MiddlewareFunc W);
  regex : regexp.compiled;
  paramNames : list string
}.

(** [Router]: method, then pattern, to route. *)
Record Router : Type := { routes : gmap string (gmap string route) }.

Definition newRouter : Router := {| routes := ∅ |}.

(** [RouteBuilder]; the [router] pointer is the router passed to
    [Handler]. *)
Record RouteBuilder : Type := {
  rb_method : string;
  rb_path : string;
  rb_handler : HandlerFunc W;
  beforeMW : list (MiddlewareFunc W);
  afterMW : list (MiddlewareFunc W)
}.

Definition AddRoute (method path : string) (h : HandlerFunc W) : RouteBuilder :=
  {| rb_method := method; rb_path := path; rb_handler := h;
     beforeMW := []; afterMW := [] |}.

Definition Before (mw : list (MiddlewareFunc W)) (rb : RouteBuilder) : RouteBuilder :=
  {| rb_method := rb_method rb; rb_path := rb_path rb; rb_handler := rb_handler rb;
     beforeMW := beforeMW rb ++ mw; afterMW := afterMW rb |}.

Definition After (mw : list (MiddlewareFunc W)) (rb : RouteBuilder) : RouteBuilder :=
  {| rb_method := rb_method rb; rb_path := rb_path rb; rb_handler := rb_handler rb;
     beforeMW := beforeMW rb; afterMW := afterMW rb ++ mw |}.

(** One turn of the loop over the parts of a pattern in [Handler]: the
    expression text and the parameter names so far, extended by [part]. *)
Definition compile_part (acc : string * list string) (part : string)
  : string * list string :=
  let '(rePattern, paramNames) := acc in
  if GoStrings.HasPrefix part ":" then
    let paramName := GoStrings.slice_from part 1 in
    let '(paramName, constraint) :=
      match GoStrings.Index paramName "(" with
      | Some idx => (GoStrings.slice_to paramName idx, GoStrings.slice_from paramName idx)
      | None => (paramName, "([^/]+)")
      end in
    (rePattern +:+ "/" +:+ constraint, paramNames ++ [paramName])
  else if String.eqb part "*" then
    (rePattern +:+ "/(.*)", paramNames ++ ["wildcard"])
  else if negb (String.eqb part EmptyString) then
    (rePattern +:+ "/" +:+ regexp.QuoteMeta part, paramNames)
  else (rePattern, paramNames).

(** The expression text and parameter names [Handler] derives from a
    pattern. *)
Definition compile_pattern (pattern : string) : string * list string :=
  let parts := GoStrings.Split pattern "/" in
  let '(rePattern, paramNames) := fold_left compile_part parts ("^", []) in
  (rePattern +:+ "/?$", paramNames).

(** [func (rb *RouteBuilder) Handler()]: the router with the route stored
    under its method and pattern (replacing a route already there), or
    [None] where the source panics because the expression does not
    compile. *)
Definition Handler (rb : RouteBuilder) (r : Router) : option Router :=
  let '(rePattern, paramNames) := compile_pattern (rb_path rb) in
  compiledRegex ← regexp.Compile rePattern;
  let methodRoutes := default ∅ (routes r !! rb_method rb) in
  let rt := {| handler := rb_handler rb; pattern := rb_path rb;
               before := beforeMW rb; after := afterMW rb;
               regex := compiledRegex; paramNames := paramNames |} in
  Some {| routes := <[rb_method rb := <[rb_path rb := rt]> methodRoutes]> (routes r) |}.

(** The parameter map of a match: name number [i] is bound to capture
    [i+1] when the match has one. *)
Fixpoint bind_params (i : nat) (names : list string) (matches : list string)
    (params : gmap string string) : gmap string string :=
  match names with
  | [] => params
  | name :: names' =>
      bind_params (S i) names' matches
        (match matches !! (i + 1)%nat with
         | Some v => <[name := v]> params
         | None => params
         end)
  end.

(** The handler of a route inside its own middleware:
    [applyMiddleware(applyMiddleware(rt.handler, rt.after...), rt.before...)]. *)
Definition chainedHandler (rt : route) : HandlerFunc W :=
  applyMiddleware (applyMiddleware (handler rt) (after rt)) (before rt).

(** The three variables the loop of [MatchRoute] updates. *)
Record best_match : Type := {
  bestMatchHandler : option (HandlerFunc W);
  bestMatchParams : option (gmap string string);
  longestMatchLen : Z
}.

Definition no_match : best_match :=
  {| bestMatchHandler := None; bestMatchParams := None; longestMatchLen := -1 |}.

(** One turn of the loop of [MatchRoute], for the entry [(pattern, rt)]. *)
Definition match_step (requestPath : string) (best : best_match)
    (entry : string * route) : best_match :=
  let '(pattern, rt) := entry in
  match regexp.FindStringSubmatch (regex rt) requestPath with
  | Some matches =>
      let params := bind_params 0 (paramNames rt) matches ∅ in
      if (Z.of_nat (String.length pattern) >? longestMatchLen best)%Z then
        {| bestMatchHandler := Some (chainedHandler rt);
           bestMatchParams := Some params;
           longestMatchLen := Z.of_nat (String.length pattern) |}
      else best
  | None => best
  end.

(** [func (r *Router) MatchRoute(method, requestPath string)], its loop
    running in the order [o]. *)
Definition MatchRoute (r : Router) (o : range_order) (method requestPath : string)
  : option (HandlerFunc W) * option (gmap string string) :=
  match routes r !! method with
  | None => (None, None)
  | Some methodRoutes =>
      let best := fold_left (match_step requestPath) (range o methodRoutes) no_match in
      (bestMatchHandler best, bestMatchParams best)
  end.

(* ===================================================================== *)
(** * goswift.go: the engine *)
(* ===================================================================== *)

Record Engine : Type := {
  router : Router;
  middleware : list (MiddlewareFunc W);
  errorHandler : error -> Context W -> Context W
}.

(** [func (e *Engine) Use(mw MiddlewareFunc)] *)
Definition Use (mw : MiddlewareFunc W) (e : Engine) : Engine :=
  {| router := router e; middleware := middleware e ++ [mw];
     errorHandler := errorHandler e |}.

(** [func (e *Engine) GET(path string, handler HandlerFunc) *RouteBuilder] *)
Definition GET (path : string) (h : HandlerFunc W) : RouteBuilder :=
  AddRoute http.MethodGet path h.

(** [RouterGroup] and its [GET]: the group's middleware becomes the
    route's first before-middleware. *)
Record RouterGroup : Type := {
  prefix : string;
  group_middleware : list (MiddlewareFunc W)
}.

Definition Group_GET (rg : RouterGroup) (path : string) (h : HandlerFunc W)
  : RouteBuilder :=
  let fullPath := prefix rg +:+ path in
  Before (group_middleware rg) (AddRoute http.MethodGet fullPath h).

(** The engine after a finished registration. *)
Definition register (rb : RouteBuilder) (e : Engine) : option Engine :=
  r ← Handler rb (router e);
  Some {| router := r; middleware := middleware e; errorHandler := errorHandler e |}.

(** [func (e *Engine) ServeHTTP(w http.ResponseWriter, r *http.Request)]:
    the context as the call leaves it.  [log] is the engine's logger
    output when the request arrives. *)
Definition ServeHTTP (e : Engine) (o : range_order) (w : W) (r : http.Request)
    (log : Logger) : Context W :=
  let c := newContext w r log in
  let '(h, params) := MatchRoute (router e) o (http.Method r) (http.URL_Path r) in
  let c := SetPathParams params c in
  match h with
  | None => errorHandler e (NewHTTPError http.StatusNotFound "Not Found" []) c
  | Some h =>
      let finalHandler := applyMiddleware h (middleware e) in
      match finalHandler c with
      | (Some err, c') => errorHandler e err c'
      | (None, c') => c'
      end
  end.

End Router.

Arguments route W : clear implicits.
Arguments Router W : clear implicits.
Arguments RouteBuilder W : clear implicits.
Arguments Engine W : clear implicits.
Arguments best_match W : clear implicits.

(* ===================================================================== *)
(** * sse.go: the broadcaster *)
(* ===================================================================== *)

Module sse.

(** A buffered [chan string]: its capacity and the messages queued in it,
    oldest first. *)
Record chan : Type := { cap : nat; buf : list string }.

(** [make(chan string, n)] *)
Definition make_chan (n : nat) : chan := {| cap := n; buf := [] |}.

(** [select { case ch <- message: ... default: ... }]: the channel with the
    message queued, or [None] when the buffer is full and the [default]
    branch runs. *)
Definition try_send (message : string) (ch : chan) : option chan :=
  if (length (buf ch) <? cap ch)%nat
  then Some {| cap := cap ch; buf := buf ch ++ [message] |}
  else None.

(** [msg := <-ch] when a message is queued. *)
Definition receive (ch : chan) : option (string * chan) :=
  match buf ch with
  | msg :: rest => Some (msg, {| cap := cap ch; buf := rest |})
  | [] => None
  end.

Record SSEClient : Type := { ID : string; Chan : chan }.

(** [SSEManager]: document, then client, to connection; and the logger's
    output.  A client's channel is created by [AddClient] for that entry
    alone and is reachable from the registry through it only, so the
    entry holds the channel's state. *)
Record SSEManager : Type := {
  clients : gmap string (gmap string SSEClient);
  sm_Logger : Logger
}.

Definition NewSSEManager (logger : Logger) : SSEManager :=
  {| clients := ∅; sm_Logger := logger |}.

(** [AddClient].  The context [c] of the source is represented by what the
    manager's state depends on: whether its writer is an [http.Flusher].
    The client is stored under its document with a fresh channel of
    capacity 5 and the connection is logged; a writer that cannot stream
    is logged as an error and the function returns, leaving the client
    registered.  Otherwise the source sets the response headers on [c]
    and starts the serving goroutine, whose steps on the manager are
    [deliver] and [disconnect] below. *)
Definition AddClient (docID clientID : string) (flusher : bool) (sm : SSEManager)
  : SSEManager :=
  let docClients := default ∅ (clients sm !! docID) in
  let clientChan := make_chan 5 in
  let log :=
    Logger_log INFO
      ("SSE: Client " +:+ clientID +:+ " connected for document " +:+ docID)
      (sm_Logger sm) in
  {| clients :=
       <[docID := <[clientID := {| ID := clientID; Chan := clientChan |}]> docClients]>
         (clients sm);
     sm_Logger :=
       if flusher then log
       else Logger_log ERROR "SSE: Streaming not supported by client writer." log |}.

(** [RemoveClient]: closing the channel leaves the registry as it is; the
    client is deleted, and its document with it when no client is left. *)
Definition RemoveClient (docID clientID : string) (sm : SSEManager) : SSEManager :=
  match clients sm !! docID with
  | Some docClients =>
      match docClients !! clientID with
      | Some client =>
          let docClients := delete clientID docClients in
          if bool_decide (stdpp.base.size docClients = 0)
          then {| clients := delete docID (clients sm); sm_Logger := sm_Logger sm |}
          else {| clients := <[docID := docClients]> (clients sm);
                  sm_Logger := sm_Logger sm |}
      | None => sm
      end
  | None => sm
  end.

(** One turn of the loop of [Broadcast], for the entry [(key, client)]. *)
Definition send_step (docID message : string)
    (st : gmap string SSEClient * Logger) (entry : string * SSEClient)
  : gmap string SSEClient * Logger :=
  let '(docClients, log) := st in
  let '(key, client) := entry in
  match try_send message (Chan client) with
  | Some ch => (<[key := {| ID := ID client; Chan := ch |}]> docClients, log)
  | None =>
      (docClients,
       Logger_log WARNING
         ("SSE: Failed to send message to client " +:+ ID client +:+
          " for document " +:+ docID +:+ " (channel full)") log)
  end.

(** [Broadcast], its loop running in the order [o]. *)
Definition Broadcast (docID message : string) (o : range_order) (sm : SSEManager)
  : SSEManager :=
  match clients sm !! docID with
  | Some docClients =>
      let '(docClients', log) :=
        fold_left (send_step docID message) (range o docClients)
                  (docClients, sm_Logger sm) in
      {| clients := <[docID := docClients']> (clients sm); sm_Logger := log |}
  | None => sm
  end.

(** The serving goroutine's first [select] case: the oldest queued message
    leaves the channel; the result is the frame written to the connection
    and the manager after it. *)
Definition deliver (docID clientID : string) (sm : SSEManager)
  : option (string * SSEManager) :=
  docClients ← clients sm !! docID;
  client ← docClients !! clientID;
  '(msg, ch) ← receive (Chan client);
  Some ("data: " +:+ msg +:+ String "010" (String "010" EmptyString),
        {| clients :=
             <[docID := <[clientID := {| ID := ID client; Chan := ch |}]> docClients]>
               (clients sm);
           sm_Logger := sm_Logger sm |}).

(** The serving goroutine's third [select] case, taken when the request's
    context is cancelled. *)
Definition disconnect (docID clientID : string) (sm : SSEManager) : SSEManager :=
  let sm := RemoveClient docID clientID sm in
  {| clients := clients sm;
     sm_Logger :=
       Logger_log INFO
         ("SSE: Client " +:+ clientID +:+ " disconnected from document " +:+ docID)
         (sm_Logger sm) |}.

(** The operations on a manager, and a run of them.  Delivery and
    disconnection are steps of a client's serving goroutine; a run may
    take them for any client, which covers every run of the source. *)
Inductive op : Type :=
| OpAddClient (docID clientID : string) (flusher : bool)
| OpRemoveClient (docID clientID : string)
| OpBroadcast (docID message : string) (o : range_order)
| OpDeliver (docID clientID : string)
| OpDisconnect (docID clientID : string).

Definition step (sm : SSEManager) (a : op) : SSEManager :=
  match a with
  | OpAddClient docID clientID flusher => AddClient docID clientID flusher sm
  | OpRemoveClient docID clientID => RemoveClient docID clientID sm
  | OpBroadcast docID message o => Broadcast docID message o sm
  | OpDeliver docID clientID =>
      match deliver docID clientID sm with
      | Some (_, sm') => sm'
      | None => sm
      end
  | OpDisconnect docID clientID => disconnect docID clientID sm
  end.

Definition run (ops : list op) (sm : SSEManager) : SSEManager :=
  fold_left step ops sm.

(** The queue of a client, if it is registered. *)
Definition queue_of (docID clientID : string) (sm : SSEManager) : option (list string) :=
  docClients ← clients sm !! docID;
  client ← docClients !! clientID;
  Some (buf (Chan client)).

(** The registry's invariant: a document that is present has a client. *)
Definition no_empty_topic (sm : SSEManager) : Prop :=
  forall docID docClients, clients sm !! docID = Some docClients -> docClients ≠ ∅.

End sse.

(* ===================================================================== *)
(** * Vocabulary of the statements *)
(* ===================================================================== *)

Section Vocabulary.
Context {W : Type} `{!http.ResponseWriter W}.

(** The route's expression matches the path. *)
Definition matches_path (rt : route W) (requestPath : string) : Prop :=
  is_Some (regexp.FindStringSubmatch (regex rt) requestPath).

(** The parameter bindings a route extracts from a path it matches. *)
Definition route_params (rt : route W) (requestPath : string)
  : option (gmap string string) :=
  matches ← regexp.FindStringSubmatch (regex rt) requestPath;
  Some (bind_params 0 (paramNames rt) matches ∅).

(** What [MatchRoute] returns when it settles on the route [rt]. *)
Definition selects (rt : route W) (requestPath : string)
  : option (HandlerFunc W) * option (gmap string string) :=
  (Some (chainedHandler rt), route_params rt requestPath).

(** The entry under [p] matches the path and no matching entry of the
    table has a longer pattern. *)
Definition longest_match (methodRoutes : gmap string (route W))
    (requestPath : string) (p : string) : Prop :=
  exists rt, methodRoutes !! p = Some rt /\ matches_path rt requestPath /\
    forall p' rt', methodRoutes !! p' = Some rt' -> matches_path rt' requestPath ->
      (String.length p' <= String.length p)%nat.

(** Every route is stored under its own pattern. *)
Definition keyed_by_pattern (r : Router W) : Prop :=
  forall method methodRoutes p rt,
    routes r !! method = Some methodRoutes -> methodRoutes !! p = Some rt ->
    pattern rt = p.

(** A middleware unit that runs [pre], calls [next], and runs [post] on
    the outcome before returning it. *)
Definition around (pre : Context W -> Context W)
    (post : option error -> Context W -> Context W) : MiddlewareFunc W :=
  fun next c =>
    let '(err, c') := next (pre c) in
    (err, post err c').

(** A middleware unit that calls [next] first and acts on the outcome. *)
Definition after_unit (post : option error -> Context W -> Context W)
  : MiddlewareFunc W :=
  around (fun c => c) post.

(** What [ServeHTTP] does with the outcome of the composed handler. *)
Definition report (e : Engine W) (outcome : option error * Context W) : Context W :=
  match outcome with
  | (Some err, c) => errorHandler e err c
  | (None, c) => c
  end.

(** A handler that logs one line and succeeds. *)
Definition say (line : string) : HandlerFunc W :=
  fun c => (None, log_line INFO line c).

End Vocabulary.

(** A GET request, and an error handler that leaves the context as it is,
    for the examples. *)
Definition get (path : string) : http.Request :=
  {| http.Method := http.MethodGet; http.URL_Path := path |}.

Definition quiet_errorHandler : error -> Context http.wire -> Context http.wire :=
  fun _ c => c.

(** ** Routers and engines of the examples *)

(** The compiled expression of a pattern that compiles. *)
Definition compiled_for (pat : string) : regexp.compiled :=
  default {| regexp.expr := regexp.Eps; regexp.NumSubexp := 0 |}
    (regexp.Compile (fst (compile_pattern pat))).

(** The route [Handler] stores for a pattern registered without
    middleware. *)
Definition plain_route (pat : string) (h : HandlerFunc http.wire) : route http.wire :=
  {| handler := h; pattern := pat; before := []; after := [];
     regex := compiled_for pat; paramNames := snd (compile_pattern pat) |}.

(** Two routes of equal pattern length that both match [/docs/new]. *)
Definition docs_literal : route http.wire := plain_route "/docs/new" (say "literal").
Definition docs_param : route http.wire := plain_route "/docs/:id" (say "parameterized").

Definition docs_router_1 : Router http.wire :=
  {| routes := {[http.MethodGet := {["/docs/new" := docs_literal]}]} |}.

Definition docs_router : Router http.wire :=
  {| routes := {[http.MethodGet :=
                   <["/docs/:id" := docs_param]> {["/docs/new" := docs_literal]}]} |}.

(** A wildcard route and a longer parameterized route. *)
Definition files_wildcard : route http.wire := plain_route "/files/*" (say "wildcard").
Definition files_named : route http.wire := plain_route "/files/:name" (say "named").

Definition files_table : gmap string (route http.wire) :=
  <["/files/:name" := files_named]> {["/files/*" := files_wildcard]}.

Definition files_router : Router http.wire :=
  {| routes := {[http.MethodGet := files_table]} |}.

(** A single route with a constraint, on an engine with a global unit. *)
Definition users_route : route http.wire :=
  plain_route "/users/:id([0-9]+)" (say "user").

Definition users_router : Router http.wire :=
  {| routes := {[http.MethodGet := {["/users/:id([0-9]+)" := users_route]}]} |}.

(** Units that log when they run, and a route wrapped in them. *)
Definition G_unit : MiddlewareFunc http.wire :=
  around (log_line INFO "G-before") (fun _ => log_line INFO "G-after").
Definition B_unit : MiddlewareFunc http.wire :=
  around (log_line INFO "B-before") (fun _ => log_line INFO "B-after").
Definition A_unit : MiddlewareFunc http.wire :=
  after_unit (fun _ => log_line INFO "A").

Definition users_engine : Engine http.wire :=
  {| router := users_router; middleware := [G_unit];
     errorHandler := quiet_errorHandler |}.

Definition nested_router : Router http.wire :=
  {| routes :=
       {[http.MethodGet :=
           {["/docs/:id" :=
               {| handler := say "H"; pattern := "/docs/:id";
                  before := [B_unit]; after := [A_unit];
                  regex := compiled_for "/docs/:id"; paramNames := ["id"] |}]}]} |}.

Definition nested_engine : Engine http.wire :=
  {| router := nested_router; middleware := [G_unit];
     errorHandler := quiet_errorHandler |}.

(** ** The broadcaster *)

(** A client after one non-blocking send to it: the message is queued
    when the channel has room, and the client is as before otherwise. *)
Definition enqueue_or_drop (message : string) (client : sse.SSEClient) : sse.SSEClient :=
  match sse.try_send message (sse.Chan client) with
  | Some ch => {| sse.ID := sse.ID client; sse.Chan := ch |}
  | None => client
  end.

(** A run of [Broadcast] calls on one document, each with its message and
    the order its loop runs in. *)
Definition Broadcast_all (docID : string) (posts : list (string * range_order))
    (sm : sse.SSEManager) : sse.SSEManager :=
  fold_left (fun sm post => sse.Broadcast docID (fst post) (snd post) sm) posts sm.

(** The registered client, if any. *)
Definition client_of (docID clientID : string) (sm : sse.SSEManager)
  : option sse.SSEClient :=
  sse.clients sm !! docID ≫= (.!! clientID).

(** Every registered client's channel has capacity 5 and holds at most
    five messages. *)
Definition bounded_queues (sm : sse.SSEManager) : Prop :=
  forall docID docClients clientID client,
    sse.clients sm !! docID = Some docClients ->
    docClients !! clientID = Some client ->
    sse.cap (sse.Chan client) = 5 /\ length (sse.buf (sse.Chan client)) <= 5.

(** The loop of an operation, if it has one, visits every entry once. *)
Definition op_ok (a : sse.op) : Prop :=
  match a with
  | sse.OpBroadcast _ _ o => visits_each_once o
  | _ => True
  end.

(** Seven messages for one document, and a manager with two documents. *)
Definition seven_posts : list (string * range_order) :=
  [("m1", in_stored_order); ("m2", in_reverse_order); ("m3", in_stored_order);
   ("m4", in_stored_order); ("m5", in_reverse_order); ("m6", in_stored_order);
   ("m7", in_stored_order)].

Definition two_docs : sse.SSEManager :=
  sse.run [sse.OpAddClient "doc1" "alice" true; sse.OpAddClient "doc1" "bob" true;
           sse.OpAddClient "doc2" "carol" true;
           sse.OpBroadcast "doc1" "hello" in_stored_order]
    (sse.NewSSEManager []).

(* ===================================================================== *)
(** * Further vocabulary: the broadcaster's stream *)
(* ===================================================================== *)

(** The event block the serving goroutine writes for a message. *)
Definition event_frame (msg : string) : string :=
  "data: " +:+ msg +:+ String "010" (String "010" EmptyString).

(** Up to [n] consecutive deliveries to one client: the frames written,
    oldest first, and the manager afterwards.  A delivery with nothing
    queued ends the run (the goroutine waits). *)
Fixpoint drain (n : nat) (docID clientID : string) (sm : sse.SSEManager)
  : list string * sse.SSEManager :=
  match n with
  | O => ([], sm)
  | S n =>
      match sse.deliver docID clientID sm with
      | Some (frame, sm') =>
          let '(frames, sm'') := drain n docID clientID sm' in
          (frame :: frames, sm'')
      | None => ([], sm)
      end
  end.

(** The client's queue is at its capacity. *)
Definition queue_full (client : sse.SSEClient) : bool :=
  negb (length (sse.buf (sse.Chan client)) <? sse.cap (sse.Chan client))%nat.


(* ===================================================================== *)
(** * auth.go: the session manager *)
(* ===================================================================== *)

(** Instants ([time.Time]) and durations ([time.Duration]) are counts of
    nanoseconds.  The reading of the clock ([time.Now()]) and the
    identifier drawn by [GenerateSessionID] are inputs of the operations
    that use them. *)
Module auth.

(** [sessionExpiry = 24 * time.Hour] *)
Definition sessionExpiry : Z := 24 * 3600 * 1000000000.

Record Session : Type := { UserID : string; ExpiresAt : Z }.

Record SessionManager : Type := { sessions : gmap string Session }.

Definition NewSessionManager : SessionManager := {| sessions := ∅ |}.

(** [CreateSession(userID)]: [generated] is the result of
    [GenerateSessionID], [None] when the random source failed, in which
    case the error is returned and nothing is stored. *)
Definition CreateSession (userID : string) (generated : option string) (now : Z)
    (sm : SessionManager) : option string * SessionManager :=
  match generated with
  | None => (None, sm)
  | Some sessionID =>
      (Some sessionID,
       {| sessions :=
            <[sessionID := {| UserID := userID; ExpiresAt := now + sessionExpiry |}]>
              (sessions sm) |})
  end.

(** [GetSession(sessionID)]: [nil] when the session is not stored or its
    expiry is before the clock's reading. *)
Definition GetSession (sessionID : string) (now : Z) (sm : SessionManager)
  : option Session :=
  match sessions sm !! sessionID with
  | Some session => if (ExpiresAt session <? now)%Z then None else Some session
  | None => None
  end.

Definition DeleteSession (sessionID : string) (sm : SessionManager) : SessionManager :=
  {| sessions := delete sessionID (sessions sm) |}.

(** One pass of the loop of [cleanupExpiredSessions] over the entries,
    the clock being read anew for each entry: [clock i] is the reading at
    the [i]-th entry visited. *)
Fixpoint cleanup_loop (entries : list (string * Session)) (clock : nat -> Z) (i : nat)
    (m : gmap string Session) : gmap string Session :=
  match entries with
  | [] => m
  | (sessionID, session) :: rest =>
      cleanup_loop rest clock (S i)
        (if (ExpiresAt session <? clock i)%Z then delete sessionID m else m)
  end.

(** One tick of [cleanupExpiredSessions]. *)
Definition cleanup_tick (clock : nat -> Z) (o : range_order) (sm : SessionManager)
  : SessionManager :=
  {| sessions := cleanup_loop (range o (sessions sm)) clock 0 (sessions sm) |}.

End auth.

(* ===================================================================== *)
(** * metrics.go *)
(* ===================================================================== *)

Module metrics.

(** [RouteMetrics]: [RequestCount] is an [int], the two latencies are
    [time.Duration]s (64-bit counts of nanoseconds). *)
Record RouteMetrics : Type := {
  RequestCount : Z;
  TotalLatency : Z;
  AvgLatency : Z
}.

Record MetricsManager : Type := { metrics : gmap string RouteMetrics }.

Definition NewMetricsManager : MetricsManager := {| metrics := ∅ |}.

(** [RecordRequest]: the count and the total are updated in place, then
    the average is their quotient, rounded toward zero.  The flag is
    [false] when that division is by zero and the call panics, leaving the
    average as it was. *)
Definition RecordRequest (routePath : string) (duration : Z) (mm : MetricsManager)
  : MetricsManager * bool :=
  let m := default {| RequestCount := 0; TotalLatency := 0; AvgLatency := 0 |}
             (metrics mm !! routePath) in
  let count := wrap_int (RequestCount m + 1) in
  let total := wrap_int (TotalLatency m + duration) in
  if (count =? 0)%Z then
    ({| metrics := <[routePath := {| RequestCount := count; TotalLatency := total;
                                     AvgLatency := AvgLatency m |}]> (metrics mm) |},
     false)
  else
    ({| metrics := <[routePath := {| RequestCount := count; TotalLatency := total;
                                     AvgLatency := wrap_int (Z.quot total count) |}]>
                     (metrics mm) |},
     true).

(** [GetMetrics]: a copy of the map, by value. *)
Definition GetMetrics (mm : MetricsManager) : gmap string RouteMetrics := metrics mm.

(** A run of [RecordRequest] calls; it ends at a call that panics. *)
Fixpoint record_all (reqs : list (string * Z)) (mm : MetricsManager)
  : MetricsManager * bool :=
  match reqs with
  | [] => (mm, true)
  | (routePath, duration) :: rest =>
      match RecordRequest routePath duration mm with
      | (mm', true) => record_all rest mm'
      | (mm', false) => (mm', false)
      end
  end.

End metrics.

(** The durations recorded for a path in a run of requests. *)
Definition durations_of (routePath : string) (reqs : list (string * Z)) : list Z :=
  snd <$> filter (fun req => req.1 = routePath) reqs.

Definition sum_Z (l : list Z) : Z := fold_right Z.add 0%Z l.

(* ===================================================================== *)
(** * plugin.go *)
(* ===================================================================== *)

Module plugin.

Record PluginRegistry : Type := { plugins : gmap string Value }.

Definition NewPluginRegistry : PluginRegistry := {| plugins := ∅ |}.

(** [RegisterPlugin]: an error, and the registry unchanged, when the name
    is taken. *)
Definition RegisterPlugin (name : string) (p : Value) (pr : PluginRegistry)
  : option error * PluginRegistry :=
  match plugins pr !! name with
  | Some _ =>
      (Some (errorString ("plugin with name '" +:+ name +:+ "' already registered")),
       pr)
  | None => (None, {| plugins := <[name := p]> (plugins pr) |})
  end.

(** [GetPlugin]: the plugin and [true], or [nil] and [false]. *)
Definition GetPlugin (name : string) (pr : PluginRegistry) : option Value :=
  plugins pr !! name.

(** A run of registrations, errors ignored. *)
Definition register_all (regs : list (string * Value)) (pr : PluginRegistry)
  : PluginRegistry :=
  fold_left (fun pr reg => (RegisterPlugin reg.1 reg.2 pr).2) regs pr.

End plugin.

(** The metrics a path should show after requests of the durations [ds]:
    none when there were none, else their number, sum and mean. *)
Definition expected_metrics (ds : list Z) : option metrics.RouteMetrics :=
  match ds with
  | [] => None
  | _ =>
      Some {| metrics.RequestCount := Z.of_nat (length ds);
              metrics.TotalLatency := sum_Z ds;
              metrics.AvgLatency := Z.quot (sum_Z ds) (Z.of_nat (length ds)) |}
  end.

(* ===================================================================== *)
(** * Further vocabulary: dispatch and the request context *)
(* ===================================================================== *)

Section DispatchVocabulary.
Context {W : Type} `{!http.ResponseWriter W}.

(** A middleware unit that answers by itself and never calls [next]. *)
Definition block (answer : HandlerFunc W) : MiddlewareFunc W := fun _ => answer.

(** [func (c *Context) TraceID() string]: the value stored under
    [traceID] when it is a string, the empty string otherwise. *)
Definition TraceID (c : Context W) : string :=
  match Get "traceID" c with
  | Some (VString traceIDStr) => traceIDStr
  | _ => EmptyString
  end.

End DispatchVocabulary.

(** The value of the last [Set] of a key in a sequence of calls. *)
Fixpoint last_set (key : string) (calls : list call) : option Value :=
  match calls with
  | [] => None
  | a :: rest =>
      match last_set key rest with
      | Some v => Some v
      | None =>
          match a with
          | CallSet k v => if String.eqb k key then Some v else None
          | _ => None
          end
      end
  end.


(* ===================================================================== *)
(** * config.go *)
(* ===================================================================== *)

(** The process environment is a map from names to values; [os.Getenv]
    returns the empty string for a name that is not set. *)
Module config.

Record ConfigManager : Type := { values : gmap string string }.

Definition NewConfigManager : ConfigManager := {| values := ∅ |}.

Definition Getenv (env : gmap string string) (key : string) : string :=
  default EmptyString (env !! key).

(** [func (cm *ConfigManager) Get(key string) string] *)
Definition Get (env : gmap string string) (key : string) (cm : ConfigManager)
  : string :=
  let val := Getenv env key in
  if negb (String.eqb val EmptyString) then val
  else default EmptyString (values cm !! key).

(** [func (cm *ConfigManager) Set(key, value string)] *)
Definition Set_ (key value : string) (cm : ConfigManager) : ConfigManager :=
  {| values := <[key := value]> (values cm) |}.

End config.

(* ===================================================================== *)
(** * Vocabulary: patterns of fixed segments and plain parameters *)
(* ===================================================================== *)

(** A segment of a route pattern: fixed text, or a parameter without a
    constraint of its own. *)
Inductive segment : Type :=
| Static (text : string)
| Named (name : string).

(** A segment as it is written in a pattern. *)
Definition segment_text (sg : segment) : string :=
  match sg with
  | Static text => text
  | Named name => ":" +:+ name
  end.

(** The parts of a path, each behind a slash. *)
Fixpoint join_path (parts : list string) : string :=
  match parts with
  | [] => EmptyString
  | part :: rest => "/" +:+ part +:+ join_path rest
  end.

Definition pattern_of (segs : list segment) : string :=
  join_path (segment_text <$> segs).

Definition has_byte (b : ascii) (s : string) : bool :=
  existsb (Ascii.eqb b) (list_ascii_of_string s).

(** The segments [Handler] reads as what they are here: a fixed segment
    is not empty, is not the wildcard, does not open with a colon and
    holds no slash; the name of a parameter holds no slash and no opening
    parenthesis. *)
Definition segment_ok (sg : segment) : bool :=
  match sg with
  | Static text =>
      negb (String.eqb text EmptyString) && negb (String.eqb text "*")
      && negb (GoStrings.HasPrefix text ":") && negb (has_byte "/" text)
  | Named name => negb (has_byte "/" name) && negb (has_byte "(" name)
  end.

(** Every byte of the text is below 128.  [regexp.Compile] refuses an
    expression that is not valid UTF-8, and [Handler] writes the bytes of
    a fixed segment into the expression, so that registering such a
    segment panics; a parameter's name stays out of the expression.  The
    expression of a pattern whose fixed segments are ASCII is ASCII
    ([expression_ascii]), so that Go compiles it as the parser here
    does. *)
Definition is_ascii (s : string) : bool :=
  forallb (fun c => (nat_of_ascii c <? 128)%nat) (list_ascii_of_string s).

Definition segment_ascii (sg : segment) : bool :=
  match sg with
  | Static text => is_ascii text
  | Named _ => true
  end.

(** A part of a request path fits a segment: it is the fixed text, or,
    for a parameter, any text that is not empty and holds no slash. *)
Definition fits (sg : segment) (part : string) : bool :=
  match sg with
  | Static text => String.eqb part text
  | Named _ => negb (String.eqb part EmptyString) && negb (has_byte "/" part)
  end.

(** As many parts as segments, each fitting its segment. *)
Fixpoint fits_all (segs : list segment) (parts : list string) : bool :=
  match segs, parts with
  | [], [] => true
  | sg :: segs', part :: parts' => fits sg part && fits_all segs' parts'
  | _, _ => false
  end.

(** The names of the parameters of a pattern, in order. *)
Fixpoint param_names (segs : list segment) : list string :=
  match segs with
  | [] => []
  | Static _ :: segs' => param_names segs'
  | Named name :: segs' => name :: param_names segs'
  end.

(** The parts of a path that stand at the parameters of the pattern. *)
Fixpoint param_values (segs : list segment) (parts : list string) : list string :=
  match segs, parts with
  | Static _ :: segs', _ :: parts' => param_values segs' parts'
  | Named _ :: segs', part :: parts' => part :: param_values segs' parts'
  | _, _ => []
  end.

(** The path is the parts joined, with or without one closing slash. *)
Definition spells (path : string) (parts : list string) : Prop :=
  path = join_path parts \/ path = join_path parts +:+ "/".

(** ** The expression of such a pattern *)

(** How a pattern ends: after its last segment, or with one more segment
    that is the wildcard. *)
Inductive ending : Type := PlainEnd | WildcardEnd.

(** The pattern of the segments with the given ending. *)
Definition pattern_with (segs : list segment) (e : ending) : string :=
  match e with
  | PlainEnd => pattern_of segs
  | WildcardEnd => pattern_of segs +:+ "/*"
  end.

(** The text [Handler] assembles for a segment, and for the segments up
    to the end of the expression, [tail] being the text after them. *)
Definition seg_re (sg : segment) : string :=
  match sg with
  | Static text => "/" +:+ regexp.QuoteMeta text
  | Named _ => "/([^/]+)"
  end.

Fixpoint segs_re (segs : list segment) (tail : string) : string :=
  match segs with
  | [] => tail
  | sg :: segs' => seg_re sg +:+ segs_re segs' tail
  end.

Definition end_re (e : ending) : string :=
  match e with
  | PlainEnd => "/?$"
  | WildcardEnd => "/(.*)/?$"
  end.

(** The bytes of [t] one after the other, then [k]. *)
Fixpoint lits (t : list ascii) (k : regexp.Regexp) : regexp.Regexp :=
  match t with
  | [] => k
  | c :: t' => regexp.Cat (regexp.Lit c) (lits t' k)
  end.

Definition no_slash : regexp.Regexp := regexp.Class true [("/", "/")%char].

Definition optional_slash_end : regexp.Regexp :=
  regexp.Cat (regexp.Quest (regexp.Lit "/")) regexp.EndText.

(** The end of the expression when [n] capturing groups stand before
    it. *)
Definition end_expr (e : ending) (n : nat) : regexp.Regexp :=
  match e with
  | PlainEnd => optional_slash_end
  | WildcardEnd =>
      regexp.Cat (regexp.Lit "/")
        (regexp.Cat (regexp.Group (S n) (regexp.Star regexp.AnyNotNL))
           optional_slash_end)
  end.

(** The segments one after the other, then the end; [n] capturing groups
    stand before them. *)
Fixpoint segs_expr (n : nat) (segs : list segment) (e : ending) : regexp.Regexp :=
  match segs with
  | [] => end_expr e n
  | Static text :: segs' =>
      regexp.Cat (regexp.Lit "/") (lits (list_ascii_of_string text) (segs_expr n segs' e))
  | Named _ :: segs' =>
      regexp.Cat (regexp.Lit "/")
        (regexp.Cat (regexp.Group (S n) (regexp.Plus no_slash))
           (segs_expr (S n) segs' e))
  end.

Definition segments_regexp (segs : list segment) : regexp.compiled :=
  {| regexp.expr := regexp.Cat regexp.BeginText (segs_expr 0 segs PlainEnd);
     regexp.NumSubexp := length (param_names segs) |}.

Definition wildcard_regexp (segs : list segment) : regexp.compiled :=
  {| regexp.expr := regexp.Cat regexp.BeginText (segs_expr 0 segs WildcardEnd);
     regexp.NumSubexp := S (length (param_names segs)) |}.

(** The spans the groups of the segments capture in the text that spells
    [parts] from offset [pos] on, pushed on [caps]. *)
Fixpoint segs_caps (n pos : nat) (segs : list segment) (parts : list string)
    (caps : regexp.captures) : regexp.captures :=
  match segs, parts with
  | Static _ :: segs', part :: parts' =>
      segs_caps n (S pos + String.length part) segs' parts' caps
  | Named _ :: segs', part :: parts' =>
      segs_caps (S n) (S pos + String.length part) segs' parts'
        ((S n, (S pos, S pos + String.length part)) :: caps)
  | _, _ => caps
  end.

(** A remaining text at which a segment may end. *)
Definition at_boundary (s : list ascii) : Prop :=
  match s with
  | [] => True
  | c :: _ => c = "/"%char
  end.

(** A remaining expression text that does not open with a repetition
    operator or a brace. *)
Definition no_operator_ahead (s : list ascii) : Prop :=
  match s with
  | [] => True
  | c :: _ => regexp.is_repeat_op c || Ascii.eqb c "{" = false
  end.

(** The byte that ends a line, which the dot does not match. *)
Definition newline : ascii := "010"%char.

(** The capturing groups of an ending. *)
Definition end_groups (e : ending) : nat :=
  match e with
  | PlainEnd => 0
  | WildcardEnd => 1
  end.

(* ===================================================================== *)
(** * goswift.go: serving static files *)
(* ===================================================================== *)

(** [strings.HasSuffix(s, suffix)] *)
Definition HasSuffix (s suffix : string) : bool :=
  (String.length suffix <=? String.length s)%nat &&
  String.eqb (GoStrings.slice_from s (String.length s - String.length suffix)) suffix.

(** [strings.TrimPrefix(s, prefix)] *)
Definition TrimPrefix (s prefix : string) : string :=
  if GoStrings.HasPrefix s prefix then GoStrings.slice_from s (String.length prefix)
  else s.

Section StaticFiles.
Context {W : Type} `{!http.ResponseWriter W}.

(** [c.Request.URL.Path = path] *)
Definition set_URL_Path (path : string) (c : Context W) : Context W :=
  {| Writer := Writer c;
     Request := {| http.Method := http.Method (Request c); http.URL_Path := path |};
     pathParams := pathParams c; data := data c; engine_Logger := engine_Logger c |}.

(** The prefix as [Static] and [StaticFS] use it: with a closing slash. *)
Definition static_prefix (urlPrefix : string) : string :=
  if HasSuffix urlPrefix "/" then urlPrefix else urlPrefix +:+ "/".

(** The handler [Static] and [StaticFS] register: it strips the prefix
    from the request's path and hands the request to the file server,
    [fileServer] being what [fileServer.ServeHTTP(c.Writer, c.Request)]
    does to the context. *)
Definition static_handler (urlPrefix : string) (fileServer : Context W -> Context W)
  : HandlerFunc W :=
  fun c =>
    (None,
     fileServer (set_URL_Path (TrimPrefix (http.URL_Path (Request c)) urlPrefix) c)).

(** [func (e *Engine) StaticFS(urlPrefix string, fsys fs.FS)], and
    [Static], which differs in the file server only: the route they
    register with [Handler]. *)
Definition StaticFS (urlPrefix : string) (fileServer : Context W -> Context W)
  : RouteBuilder W :=
  let urlPrefix := static_prefix urlPrefix in
  GET (urlPrefix +:+ "*") (static_handler urlPrefix fileServer).

End StaticFiles.

(** All segments are fixed text. *)
Definition static_only (segs : list segment) : bool :=
  forallb (fun sg => match sg with Static _ => true | Named _ => false end) segs.

(** A part of a path as a request has it between two slashes: not empty
    and without a slash. *)
Definition plain_part (part : string) : bool :=
  negb (String.eqb part EmptyString) && negb (has_byte "/" part).

(* ===================================================================== *)
(** * main.go: the routes of the application *)
(* ===================================================================== *)

Section Application.
Context {W : Type} `{!http.ResponseWriter W}.

(** [func (e *Engine) Group(prefix string) *RouterGroup] *)
Definition Group (prefix : string) : RouterGroup (W := W) :=
  {| prefix := prefix; group_middleware := [] |}.

(** [func (rg *RouterGroup) Use(mw MiddlewareFunc)] *)
Definition Group_Use (mw : MiddlewareFunc W) (rg : RouterGroup) : RouterGroup :=
  {| prefix := prefix rg; group_middleware := group_middleware rg ++ [mw] |}.

(** [func (e *Engine) POST(path string, handler HandlerFunc) *RouteBuilder] *)
Definition POST (path : string) (h : HandlerFunc W) : RouteBuilder W :=
  AddRoute http.MethodPost path h.

(** [RouterGroup.POST], [PUT] and [DELETE]; [http.MethodPut] is [PUT] and
    [http.MethodDelete] is [DELETE]. *)
Definition Group_POST (rg : RouterGroup) (path : string) (h : HandlerFunc W)
  : RouteBuilder W :=
  let fullPath := prefix rg +:+ path in
  Before (group_middleware rg) (AddRoute http.MethodPost fullPath h).

Definition Group_PUT (rg : RouterGroup) (path : string) (h : HandlerFunc W)
  : RouteBuilder W :=
  let fullPath := prefix rg +:+ path in
  Before (group_middleware rg) (AddRoute "PUT" fullPath h).

Definition Group_DELETE (rg : RouterGroup) (path : string) (h : HandlerFunc W)
  : RouteBuilder W :=
  let fullPath := prefix rg +:+ path in
  Before (group_middleware rg) (AddRoute "DELETE" fullPath h).

(** The closures [main] registers, the file server of the embedded
    files and the unit [JWTAuthMiddleware()] returns: what they do is of
    no concern to the routing. *)
Record handlers : Type := {
  embedded : Context W -> Context W;
  signup : HandlerFunc W;
  login : HandlerFunc W;
  list_docs : HandlerFunc W;
  create_doc : HandlerFunc W;
  get_doc : HandlerFunc W;
  update_doc : HandlerFunc W;
  delete_doc : HandlerFunc W;
  doc_history : HandlerFunc W;
  doc_subscribe : HandlerFunc W;
  share_doc : HandlerFunc W;
  shared_doc : HandlerFunc W;
  JWTAuth : MiddlewareFunc W
}.

(** [apiGroup := app.Group("/api"); apiGroup.Use(JWTAuthMiddleware())] *)
Definition apiGroup (hs : handlers) : RouterGroup :=
  Group_Use (JWTAuth hs) (Group "/api").

(** The registrations of [main], in its order. *)
Definition app_registrations (hs : handlers) : list (RouteBuilder W) :=
  [StaticFS "/" (embedded hs);
   POST "/api/signup" (signup hs);
   POST "/api/login" (login hs);
   Group_GET (apiGroup hs) "/docs" (list_docs hs);
   Group_POST (apiGroup hs) "/docs" (create_doc hs);
   Group_GET (apiGroup hs) "/docs/:id" (get_doc hs);
   Group_PUT (apiGroup hs) "/docs/:id" (update_doc hs);
   Group_DELETE (apiGroup hs) "/docs/:id" (delete_doc hs);
   Group_GET (apiGroup hs) "/docs/:id/history" (doc_history hs);
   Group_GET (apiGroup hs) "/docs/:id/subscribe" (doc_subscribe hs);
   Group_POST (apiGroup hs) "/docs/:id/share" (share_doc hs);
   GET "/share/:shareID" (shared_doc hs)].

(** [Handler()] called on each builder in turn. *)
Fixpoint register_each (rbs : list (RouteBuilder W)) (r : Router W)
  : option (Router W) :=
  match rbs with
  | [] => Some r
  | rb :: rest => r' ← Handler rb r; register_each rest r'
  end.

(** The route [Handler] stores for a pattern of segments. *)
Definition segments_route (segs : list segment) (h : HandlerFunc W)
    (bs : list (MiddlewareFunc W)) : route W :=
  {| handler := h; pattern := pattern_of segs; before := bs; after := [];
     regex := segments_regexp segs; paramNames := param_names segs |}.

(** The patterns of the application's GET routes under [/api] and
    [/share], as segments. *)
Definition docs_segs : list segment := [Static "api"; Static "docs"].
Definition doc_segs : list segment := [Static "api"; Static "docs"; Named "id"].
Definition history_segs : list segment :=
  [Static "api"; Static "docs"; Named "id"; Static "history"].
Definition subscribe_segs : list segment :=
  [Static "api"; Static "docs"; Named "id"; Static "subscribe"].
Definition shared_segs : list segment := [Static "share"; Named "shareID"].

Definition api_patterns : list (list segment) :=
  [docs_segs; doc_segs; history_segs; subscribe_segs; shared_segs].

(** The GET routes of the application. *)
Definition app_GET_table (hs : handlers) : gmap string (route W) :=
  <["/share/:shareID" := segments_route shared_segs (shared_doc hs) []]>
  (<["/api/docs/:id/subscribe" :=
       segments_route subscribe_segs (doc_subscribe hs) [JWTAuth hs]]>
   (<["/api/docs/:id/history" :=
        segments_route history_segs (doc_history hs) [JWTAuth hs]]>
    (<["/api/docs/:id" := segments_route doc_segs (get_doc hs) [JWTAuth hs]]>
     (<["/api/docs" := segments_route docs_segs (list_docs hs) [JWTAuth hs]]>
      {["/*" := {| handler := static_handler "/" (embedded hs); pattern := "/*";
                   before := []; after := [];
                   regex := wildcard_regexp []; paramNames := ["wildcard"] |}]})))).

(** The patterns of the POST routes, and the routes of the methods that
    write. *)
Definition signup_segs : list segment := [Static "api"; Static "signup"].
Definition login_segs : list segment := [Static "api"; Static "login"].
Definition share_segs : list segment :=
  [Static "api"; Static "docs"; Named "id"; Static "share"].

Definition post_patterns : list (list segment) :=
  [signup_segs; login_segs; docs_segs; share_segs].

Definition app_POST_table (hs : handlers) : gmap string (route W) :=
  <["/api/docs/:id/share" := segments_route share_segs (share_doc hs) [JWTAuth hs]]>
  (<["/api/docs" := segments_route docs_segs (create_doc hs) [JWTAuth hs]]>
   (<["/api/login" := segments_route login_segs (login hs) []]>
    {["/api/signup" := segments_route signup_segs (signup hs) []]})).

Definition app_PUT_table (hs : handlers) : gmap string (route W) :=
  {["/api/docs/:id" := segments_route doc_segs (update_doc hs) [JWTAuth hs]]}.

Definition app_DELETE_table (hs : handlers) : gmap string (route W) :=
  {["/api/docs/:id" := segments_route doc_segs (delete_doc hs) [JWTAuth hs]]}.

(** The router of the application. *)
Definition app_router (hs : handlers) : Router W :=
  {| routes :=
       <[http.MethodGet := app_GET_table hs]>
       (<[http.MethodPost := app_POST_table hs]>
        (<["PUT" := app_PUT_table hs]>
         {["DELETE" := app_DELETE_table hs]})) |}.

(** The path matches none of the patterns. *)
Definition off_patterns (patterns : list (list segment)) (path : string) : Prop :=
  forall segs parts, In segs patterns -> fits_all segs parts = true ->
    ~ spells path parts.

End Application.

(* ===================================================================== *)
(** * Further examples *)
(* ===================================================================== *)

(** Alice as the manager of the two documents holds her. *)
Definition alice : sse.SSEClient :=
  {| sse.ID := "alice"; sse.Chan := {| sse.cap := 5; sse.buf := ["hello"] |} |}.

(** A session that is over at instant 50 and one that lasts to 500. *)
Definition two_sessions : auth.SessionManager :=
  {| auth.sessions :=
       <["old" := {| auth.UserID := "ann"; auth.ExpiresAt := 50 |}]>
         {["new" := {| auth.UserID := "ben"; auth.ExpiresAt := 500 |}]} |}.

(** Three requests on two paths, durations in nanoseconds. *)
Definition sample_requests : list (string * Z) :=
  [("/a", 10%Z); ("/b", 4%Z); ("/a", 21%Z)].

(** The route of the nested engine. *)
Definition nested_route : route http.wire :=
  {| handler := say "H"; pattern := "/docs/:id";
     before := [B_unit]; after := [A_unit];
     regex := compiled_for "/docs/:id"; paramNames := ["id"] |}.

(** A group under [/api] with one unit, and the router its route for
    [/docs/:id] is stored in. *)
Definition api_group : RouterGroup (W := http.wire) :=
  {| prefix := "/api"; group_middleware := [G_unit] |}.

Definition api_router : Router http.wire :=
  {| routes :=
       {[http.MethodGet :=
           {["/api/docs/:id" :=
               {| handler := say "H"; pattern := "/api/docs/:id";
                  before := [G_unit; B_unit]; after := [A_unit];
                  regex := compiled_for "/api/docs/:id"; paramNames := ["id"] |}]}]} |}.

(** A route whose second before-unit answers by itself. *)
Definition blocked_route : route http.wire :=
  {| handler := say "H"; pattern := "/docs/:id";
     before := [B_unit; block (say "blocked"); A_unit]; after := [];
     regex := compiled_for "/docs/:id"; paramNames := ["id"] |}.

Definition blocked_engine : Engine http.wire :=
  {| router := {| routes := {[http.MethodGet := {["/docs/:id" := blocked_route]}]} |};
     middleware := [G_unit];
     errorHandler := quiet_errorHandler |}.

(** The segments of [/users/:id]. *)
Definition users_segments : list segment := [Static "users"; Named "id"].

(** The registration of [/docs/:id], the router it makes of the empty
    one, and a second registration of the same pattern. *)
Definition docs_param_builder : RouteBuilder http.wire :=
  AddRoute http.MethodGet "/docs/:id" (say "parameterized").

Definition docs_param_router : Router http.wire :=
  {| routes := {[http.MethodGet := {["/docs/:id" := docs_param]}]} |}.

Definition docs_again_builder : RouteBuilder http.wire :=
  AddRoute http.MethodGet "/docs/:id" (say "again").

(** A file server that leaves the context as it is, and closures for the
    routes of the application that answer with their own name. *)
Definition plain_file_server : Context http.wire -> Context http.wire := fun c => c.

Definition named_handlers : handlers (W := http.wire) :=
  {| embedded := plain_file_server;
     signup := say "signup"; login := say "login";
     list_docs := say "list"; create_doc := say "create";
     get_doc := say "get"; update_doc := say "update"; delete_doc := say "delete";
     doc_history := say "history"; doc_subscribe := say "subscribe";
     share_doc := say "share"; shared_doc := say "shared";
     JWTAuth := G_unit |}.

(* ===================================================================== *)
(** * Properties of the request context *)
(* ===================================================================== *)

Lemma wrap_int_add_l (a b : Z) : wrap_int (wrap_int a + b) = wrap_int (a + b).
Proof.
  unfold wrap_int.
  replace ((a + 2 ^ 63) mod 2 ^ 64 - 2 ^ 63 + b + 2 ^ 63)%Z
    with ((a + 2 ^ 63) mod 2 ^ 64 + b)%Z by lia.
  rewrite Zplus_mod_idemp_l. f_equal. f_equal. lia.
Qed.

Lemma wrap_int_small (a : Z) :
  (- 2 ^ 63 <= a < 2 ^ 63)%Z -> wrap_int a = a.
Proof.
  intros Ha. unfold wrap_int. rewrite Z.mod_small; lia.
Qed.

Lemma wrap_int_range (a : Z) : (- 2 ^ 63 <= wrap_int a < 2 ^ 63)%Z.
Proof.
  unfold wrap_int.
  pose proof (Z.mod_pos_bound (a + 2 ^ 63) (2 ^ 64)). lia.
Qed.

Section ContextProperties.
Context {W : Type} `{!http.ResponseWriter W}.

Lemma do_calls_app (l1 l2 : list call) (c : Context W) :
  do_calls (l1 ++ l2) c = do_calls l2 (do_calls l1 c).
Proof. unfold do_calls. apply fold_left_app. Qed.

(** A call other than [WriteHeader] leaves the recorded status alone. *)
Lemma do_call_status (c : Context W) (a : call) :
  is_WriteHeader a = false ->
  status (Writer (do_call c a)) = status (Writer c).
Proof.
  destruct a; simpl; try discriminate; intros _; try reflexivity.
  unfold Write. destruct (http.Write b (ResponseWriter (Writer c))) as [w' [n err]].
  reflexivity.
Qed.

Lemma do_calls_status (calls : list call) (c : Context W) :
  forallb (fun a => negb (is_WriteHeader a)) calls = true ->
  status (Writer (do_calls calls c)) = status (Writer c).
Proof.
  revert c. induction calls as [|a calls IH]; intros c Hno; [reflexivity|].
  simpl in Hno. apply andb_prop in Hno as [Ha Hrest].
  change (do_calls (a :: calls) c) with (do_calls calls (do_call c a)).
  rewrite (IH _ Hrest). apply do_call_status.
  destruct (is_WriteHeader a); [discriminate|reflexivity].
Qed.

Lemma forallb_map_CallWrite (bs : list (list Byte.byte)) :
  forallb (fun a : call => negb (is_WriteHeader a)) (map CallWrite bs) = true.
Proof. induction bs; simpl; auto. Qed.

(** The recorded size moves by what the underlying writer reports. *)
Lemma do_calls_size (calls : list call) (c : Context W) :
  (- 2 ^ 63 <= size (Writer c) < 2 ^ 63)%Z ->
  size (Writer (do_calls calls c))
  = wrap_int (size (Writer c) + reported_bytes calls c).
Proof.
  revert c. induction calls as [|a calls IH]; intros c Hc.
  - simpl. rewrite Z.add_0_r. symmetry. by apply wrap_int_small.
  - change (do_calls (a :: calls) c) with (do_calls calls (do_call c a)).
    assert (Hstep : size (Writer (do_call c a))
                    = match a with
                      | CallWrite b =>
                          wrap_int (size (Writer c) + fst (snd (Write b (Writer c))))
                      | _ => size (Writer c)
                      end).
    { destruct a; simpl; try reflexivity.
      unfold Write. destruct (http.Write b (ResponseWriter (Writer c))) as [w' [n err]].
      reflexivity. }
    rewrite IH.
    + rewrite Hstep. simpl reported_bytes.
      destruct a; try (f_equal; lia).
      rewrite wrap_int_add_l. f_equal. lia.
    + rewrite Hstep. destruct a; try exact Hc. apply wrap_int_range.
Qed.

(** What the writer holds.  [WriteHeader] assigns [rw.status] on every
    call: after [WriteHeader(s1)] and then [WriteHeader(s2)], with any
    calls before and any writes after, [Status()] is [s2] (and 200 when
    [s2] is 0), whatever status the response went out with.  Its size is
    the sum, in [int] arithmetic, of the byte counts the underlying
    writer returned to the [Write] calls made since the context was
    created. *)
Lemma status_is_latest_size_is_cumulative
    (w : W) (r : http.Request) (log : Logger)
    (earlier : list call) (s1 s2 : Z) (writes : list (list Byte.byte))
    (calls : list call) :
  let c0 := newContext w r log in
  Status (do_calls (earlier ++ [CallWriteHeader s1; CallWriteHeader s2]
                      ++ map CallWrite writes) c0)
  = (if (s2 =? 0)%Z then http.StatusOK else s2)
  /\ size (Writer (do_calls calls c0)) = wrap_int (reported_bytes calls c0).
Proof.
  intros c0. split.
  - rewrite !do_calls_app. unfold Status.
    rewrite do_calls_status by apply forallb_map_CallWrite.
    reflexivity.
  - rewrite do_calls_size by (simpl; lia). reflexivity.
Qed.

(** C10.  On a context made by [newContext], as long as no call was a
    [WriteHeader], [Status()] is 200. *)
Theorem C10_status_defaults_to_200
    (w : W) (r : http.Request) (log : Logger) (calls : list call) :
  forallb (fun a => negb (is_WriteHeader a)) calls = true ->
  Status (do_calls calls (newContext w r log)) = http.StatusOK.
Proof.
  intros Hno. unfold Status. rewrite (do_calls_status _ _ Hno). reflexivity.
Qed.

End ContextProperties.

(** With the standard response behaviour underneath, the size is the
    number of bytes handed to [Write]. *)
Lemma reported_bytes_wire (calls : list call) (c : Context http.wire) :
  reported_bytes calls c
  = fold_right Z.add 0%Z
      (map (fun a => match a with
                     | CallWrite b => Z.of_nat (length b)
                     | _ => 0%Z
                     end) calls).
Proof.
  revert c. induction calls as [|a calls IH]; intros c; [reflexivity|].
  simpl. rewrite IH. destruct a; reflexivity.
Qed.

(** C7.  [WriteHeader(404)] and then [WriteHeader(500)] on the writer of
    a fresh context: the response goes out with 404, the status written
    first, which is the one the facade is to record; [Status()], documented
    as returning the status code written to the response, answers 500. *)
Theorem C7_status_differs_from_response :
  let c := do_calls [CallWriteHeader 404; CallWriteHeader 500]
             (newContext http.new_wire (get "/") []) in
  http.sent_status (ResponseWriter (Writer c)) = Some 404%Z /\
  Status c = 500%Z.
Proof. split; reflexivity. Qed.

(** C10 after a store, a write and a log line. *)
Lemma C10_witness :
  Status (do_calls [CallSet "userID" (VString "u1");
                    CallWrite (list_byte_of_string "hello");
                    CallLog INFO "served"]
            (newContext http.new_wire (get "/") []))
  = http.StatusOK.
Proof.
  apply (C10_status_defaults_to_200 http.new_wire (get "/") []). reflexivity.
Defined.

(* ===================================================================== *)
(** * Properties of map iteration *)
(* ===================================================================== *)

Lemma in_stored_order_ok : visits_each_once in_stored_order.
Proof. intros V l. reflexivity. Qed.

Lemma in_reverse_order_ok : visits_each_once in_reverse_order.
Proof. intros V l. unfold in_reverse_order. symmetry. apply Permutation_rev. Qed.

Lemma range_elem_of {V : Type} (o : range_order) (m : gmap string V) k v :
  visits_each_once o -> (k, v) ∈ range o m <-> m !! k = Some v.
Proof.
  intros Ho. unfold range. rewrite (Ho V (map_to_list m)).
  apply elem_of_map_to_list.
Qed.

Lemma range_NoDup {V : Type} (o : range_order) (m : gmap string V) :
  visits_each_once o -> NoDup (range o m).*1.
Proof.
  intros Ho. unfold range. rewrite (Ho V (map_to_list m)).
  apply NoDup_fst_map_to_list.
Qed.

Lemma range_singleton {V : Type} (o : range_order) (k : string) (v : V) :
  visits_each_once o -> range o ({[k := v]} : gmap string V) = [(k, v)].
Proof.
  intros Ho. unfold range. rewrite map_to_list_singleton.
  apply Permutation_singleton_r. apply Ho.
Qed.

(* ===================================================================== *)
(** * Properties of the router *)
(* ===================================================================== *)

Section RouterProperties.
Context {W : Type} `{!http.ResponseWriter W}.

Lemma route_params_Some (rt : route W) (requestPath : string) matches :
  regexp.FindStringSubmatch (regex rt) requestPath = Some matches ->
  route_params rt requestPath = Some (bind_params 0 (paramNames rt) matches ∅).
Proof. intros Hfind. unfold route_params. rewrite Hfind. reflexivity. Qed.

(** The loop of [MatchRoute] from any intermediate state: either no entry
    of the rest improved on the state, or the state is that of an entry
    that matches, is longer than the starting state's best and at least
    as long as every matching entry of the rest. *)
Lemma match_fold_inv (requestPath : string) (l : list (string * route W))
    (b : best_match W) :
  (fold_left (match_step requestPath) l b = b /\
   forall p rt, (p, rt) ∈ l -> matches_path rt requestPath ->
     (Z.of_nat (String.length p) <= longestMatchLen b)%Z)
  \/
  (exists p rt, (p, rt) ∈ l /\ matches_path rt requestPath /\
     fold_left (match_step requestPath) l b
     = {| bestMatchHandler := Some (chainedHandler rt);
          bestMatchParams := route_params rt requestPath;
          longestMatchLen := Z.of_nat (String.length p) |} /\
     (longestMatchLen b < Z.of_nat (String.length p))%Z /\
     forall p' rt', (p', rt') ∈ l -> matches_path rt' requestPath ->
       (String.length p' <= String.length p)%nat).
Proof.
  revert b. induction l as [|[p rt] l IH]; intros b.
  - left. split; [reflexivity|]. intros p rt Hin. by apply elem_of_nil in Hin.
  - cbn [fold_left].
    destruct (regexp.FindStringSubmatch (regex rt) requestPath) as [ms|] eqn:Hm.
    + destruct (Z.of_nat (String.length p) >? longestMatchLen b)%Z eqn:Hgt.
      * assert (Hstep : match_step requestPath b (p, rt)
                        = {| bestMatchHandler := Some (chainedHandler rt);
                             bestMatchParams := route_params rt requestPath;
                             longestMatchLen := Z.of_nat (String.length p) |}).
        { unfold match_step. rewrite Hm, Hgt, (route_params_Some _ _ _ Hm).
          reflexivity. }
        rewrite Hstep.
        assert (Hmp : matches_path rt requestPath) by (unfold matches_path; rewrite Hm; eauto).
        destruct (IH {| bestMatchHandler := Some (chainedHandler rt);
                        bestMatchParams := route_params rt requestPath;
                        longestMatchLen := Z.of_nat (String.length p) |})
          as [[Heq Hle]|(p2 & rt2 & Hin & Hm2 & Heq & Hlt & Hle)].
        -- right. exists p, rt. split; [apply elem_of_cons; by left|].
           split; [exact Hmp|]. split; [exact Heq|]. split; [lia|].
           intros p' rt' Hin' Hm'. apply elem_of_cons in Hin' as [Hhd|Htl].
           ++ inversion Hhd; subst. lia.
           ++ specialize (Hle _ _ Htl Hm'). simpl in Hle. lia.
        -- right. exists p2, rt2. split; [apply elem_of_cons; by right|].
           split; [exact Hm2|]. split; [exact Heq|]. simpl in Hlt. split; [lia|].
           intros p' rt' Hin' Hm'. apply elem_of_cons in Hin' as [Hhd|Htl].
           ++ inversion Hhd; subst. lia.
           ++ by apply (Hle _ _ Htl).
      * assert (Hstep : match_step requestPath b (p, rt) = b).
        { unfold match_step. rewrite Hm, Hgt. reflexivity. }
        rewrite Hstep.
        destruct (IH b) as [[Heq Hle]|(p2 & rt2 & Hin & Hm2 & Heq & Hlt & Hle)].
        -- left. split; [exact Heq|].
           intros p' rt' Hin' Hm'. apply elem_of_cons in Hin' as [Hhd|Htl].
           ++ inversion Hhd; subst. lia.
           ++ by apply (Hle _ _ Htl).
        -- right. exists p2, rt2. split; [apply elem_of_cons; by right|].
           split; [exact Hm2|]. split; [exact Heq|]. split; [exact Hlt|].
           intros p' rt' Hin' Hm'. apply elem_of_cons in Hin' as [Hhd|Htl].
           ++ inversion Hhd; subst. lia.
           ++ by apply (Hle _ _ Htl).
    + assert (Hstep : match_step requestPath b (p, rt) = b).
      { unfold match_step. rewrite Hm. reflexivity. }
      rewrite Hstep.
      assert (Hnm : ~ matches_path rt requestPath).
      { unfold matches_path. rewrite Hm. by intros [? ?]. }
      destruct (IH b) as [[Heq Hle]|(p2 & rt2 & Hin & Hm2 & Heq & Hlt & Hle)].
      * left. split; [exact Heq|].
        intros p' rt' Hin' Hm'. apply elem_of_cons in Hin' as [Hhd|Htl].
        -- inversion Hhd; subst. contradiction.
        -- by apply (Hle _ _ Htl).
      * right. exists p2, rt2. split; [apply elem_of_cons; by right|].
        split; [exact Hm2|]. split; [exact Heq|]. split; [exact Hlt|].
        intros p' rt' Hin' Hm'. apply elem_of_cons in Hin' as [Hhd|Htl].
        -- inversion Hhd; subst. contradiction.
        -- by apply (Hle _ _ Htl).
Qed.

(** What [MatchRoute] returns for a method that has a table: nothing when
    no entry matches, and otherwise the selection of an entry that is a
    longest match. *)
Lemma MatchRoute_spec (r : Router W) (o : range_order) (method requestPath : string)
    (methodRoutes : gmap string (route W)) :
  visits_each_once o ->
  routes r !! method = Some methodRoutes ->
  (MatchRoute r o method requestPath = (None, None) /\
   forall p rt, methodRoutes !! p = Some rt -> ~ matches_path rt requestPath)
  \/
  (exists p rt, methodRoutes !! p = Some rt /\
     longest_match methodRoutes requestPath p /\
     MatchRoute r o method requestPath = selects rt requestPath).
Proof.
  intros Ho Hr. unfold MatchRoute. rewrite Hr.
  destruct (match_fold_inv requestPath (range o methodRoutes) no_match)
    as [[Heq Hle]|(p & rt & Hin & Hm & Heq & _ & Hle)].
  - left. rewrite Heq. split; [reflexivity|].
    intros p rt Hp Hm. apply (range_elem_of o) in Hp; [|exact Ho].
    specialize (Hle _ _ Hp Hm). simpl in Hle. lia.
  - right. exists p, rt. apply (range_elem_of o) in Hin; [|exact Ho].
    split; [exact Hin|]. split.
    + exists rt. split; [exact Hin|]. split; [exact Hm|].
      intros p' rt' Hp' Hm'. apply (Hle p' rt'); [|exact Hm'].
      by apply (range_elem_of o).
    + rewrite Heq. reflexivity.
Qed.

(** The key of an entry is the route's original pattern: true of the
    empty router and kept by [Handler]. *)
Lemma newRouter_keyed_by_pattern : keyed_by_pattern (newRouter : Router W).
Proof. intros method methodRoutes p rt Hr. simpl in Hr. by rewrite lookup_empty in Hr. Qed.

Lemma Handler_keyed_by_pattern (rb : RouteBuilder W) (r r' : Router W) :
  keyed_by_pattern r -> Handler rb r = Some r' -> keyed_by_pattern r'.
Proof.
  intros Hinv. unfold Handler.
  destruct (compile_pattern (rb_path rb)) as [text names].
  destruct (regexp.Compile text) as [re|]; simpl; [|discriminate].
  intros [= <-] method methodRoutes p rt. simpl.
  destruct (decide (method = rb_method rb)) as [->|Hm].
  - rewrite lookup_insert_eq. intros [= <-].
    destruct (decide (p = rb_path rb)) as [->|Hp].
    + rewrite lookup_insert_eq. by intros [= <-].
    + rewrite lookup_insert_ne by done.
      destruct (routes r !! rb_method rb) as [old|] eqn:Hold; simpl.
      * by apply (Hinv (rb_method rb)).
      * by rewrite lookup_empty.
  - rewrite lookup_insert_ne by done. apply Hinv.
Qed.

End RouterProperties.

Section RouterClaims.
Context {W : Type} `{!http.ResponseWriter W}.

(** C3.  When some route registered for the method matches the path,
    [MatchRoute] returns the chained handler and the bindings of a route
    of that method that matches and whose pattern is at least as long as
    the pattern of every matching route of the method.  The pattern is
    the key the route is stored under, which is the route's original
    pattern in every router built by [Handler]. *)
Theorem C3_longest_pattern_selected (r : Router W) (o : range_order)
    (method requestPath : string) (methodRoutes : gmap string (route W)) :
  visits_each_once o ->
  routes r !! method = Some methodRoutes ->
  (exists p rt, methodRoutes !! p = Some rt /\ matches_path rt requestPath) ->
  exists p rt,
    methodRoutes !! p = Some rt /\
    matches_path rt requestPath /\
    (forall p' rt', methodRoutes !! p' = Some rt' -> matches_path rt' requestPath ->
       (String.length p' <= String.length p)%nat) /\
    (keyed_by_pattern r -> pattern rt = p) /\
    MatchRoute r o method requestPath = selects rt requestPath.
Proof.
  intros Ho Hr (p0 & rt0 & Hp0 & Hm0).
  destruct (MatchRoute_spec r o method requestPath methodRoutes Ho Hr)
    as [[_ Hnone]|(p & rt & Hp & (rt' & Hp' & Hm & Hmax) & Hsel)].
  - exfalso. by apply (Hnone _ _ Hp0).
  - exists p, rt. rewrite Hp in Hp'. inversion Hp'; subst rt'.
    repeat split; try done. intros Hkeys. by apply (Hkeys method methodRoutes).
Qed.

(** C2, as the code has it.  When the matching routes of the method do
    not tie for the longest pattern, two calls on the same router with the
    same method and path return the same handler and the same bindings,
    whatever order each call's loop runs in. *)
Theorem C2_deterministic_without_ties (r : Router W) (o1 o2 : range_order)
    (method requestPath : string) :
  visits_each_once o1 -> visits_each_once o2 ->
  (forall methodRoutes p1 p2,
     routes r !! method = Some methodRoutes ->
     longest_match methodRoutes requestPath p1 ->
     longest_match methodRoutes requestPath p2 -> p1 = p2) ->
  MatchRoute r o1 method requestPath = MatchRoute r o2 method requestPath.
Proof.
  intros Ho1 Ho2 Huniq.
  destruct (routes r !! method) as [methodRoutes|] eqn:Hr.
  - destruct (MatchRoute_spec r o1 method requestPath methodRoutes Ho1 Hr)
      as [[Heq1 Hnone1]|(p1 & rt1 & Hp1 & Hl1 & Hsel1)];
    destruct (MatchRoute_spec r o2 method requestPath methodRoutes Ho2 Hr)
      as [[Heq2 Hnone2]|(p2 & rt2 & Hp2 & Hl2 & Hsel2)].
    + by rewrite Heq1, Heq2.
    + destruct Hl2 as (rt & Hp & Hm & _). exfalso. by apply (Hnone1 _ _ Hp).
    + destruct Hl1 as (rt & Hp & Hm & _). exfalso. by apply (Hnone2 _ _ Hp).
    + pose proof (Huniq _ _ _ eq_refl Hl1 Hl2) as ->.
      rewrite Hp1 in Hp2. inversion Hp2; subst rt2. by rewrite Hsel1, Hsel2.
  - unfold MatchRoute. by rewrite Hr.
Qed.

End RouterClaims.

Section DispatchClaims.
Context {W : Type} `{!http.ResponseWriter W}.

(** [Handler] on a pattern whose expression compiles. *)
Lemma Handler_compiles (rb : RouteBuilder W) (r : Router W)
    (text : string) (names : list string) (re : regexp.compiled) :
  compile_pattern (rb_path rb) = (text, names) ->
  regexp.Compile text = Some re ->
  Handler rb r
  = Some {| routes :=
              <[rb_method rb :=
                  <[rb_path rb :=
                      {| handler := rb_handler rb; pattern := rb_path rb;
                         before := beforeMW rb; after := afterMW rb;
                         regex := re; paramNames := names |}]>
                    (default ∅ (routes r !! rb_method rb))]> (routes r) |}.
Proof.
  intros Hpat Hre. unfold Handler. rewrite Hpat. simpl. rewrite Hre. reflexivity.
Qed.

(** [Handler] on a router without routes. *)
Lemma Handler_single (rb : RouteBuilder W)
    (text : string) (names : list string) (re : regexp.compiled) :
  compile_pattern (rb_path rb) = (text, names) ->
  regexp.Compile text = Some re ->
  Handler rb newRouter
  = Some {| routes :=
              {[rb_method rb :=
                  {[rb_path rb :=
                      {| handler := rb_handler rb; pattern := rb_path rb;
                         before := beforeMW rb; after := afterMW rb;
                         regex := re; paramNames := names |}]}]} |}.
Proof.
  intros Hpat Hre. rewrite (Handler_compiles rb newRouter text names re Hpat Hre).
  reflexivity.
Qed.

(** [MatchRoute] on a table with one entry is one turn of its loop. *)
Lemma MatchRoute_single (r : Router W) (o : range_order)
    (method requestPath p : string) (rt : route W) :
  visits_each_once o ->
  routes r !! method = Some {[p := rt]} ->
  MatchRoute r o method requestPath
  = (bestMatchHandler (match_step requestPath no_match (p, rt)),
     bestMatchParams (match_step requestPath no_match (p, rt))).
Proof.
  intros Ho Hr. unfold MatchRoute. rewrite Hr, (range_singleton o p rt Ho).
  reflexivity.
Qed.

Lemma match_step_first (requestPath p : string) (rt : route W) :
  matches_path rt requestPath ->
  match_step requestPath no_match (p, rt)
  = {| bestMatchHandler := Some (chainedHandler rt);
       bestMatchParams := route_params rt requestPath;
       longestMatchLen := Z.of_nat (String.length p) |}.
Proof.
  intros [ms Hms]. unfold match_step. rewrite Hms, (route_params_Some _ _ _ Hms).
  simpl longestMatchLen.
  destruct (Z.gtb_spec (Z.of_nat (String.length p)) (-1)); [reflexivity|lia].
Qed.

(** C4.  A router holding [/users/:id] for a method resolves [/users/42]
    for that method to the route's handler with the bindings
    [id = 42]; a router holding only [/users/:id([0-9]+)] resolves
    [/users/abc] to no handler and no bindings. *)
Theorem C4_parameter_extraction (method : string) (h : HandlerFunc W)
    (o : range_order) :
  visits_each_once o ->
  (exists r, Handler (AddRoute method "/users/:id" h) newRouter = Some r /\
     MatchRoute r o method "/users/42" = (Some h, Some {["id" := "42"]}))
  /\
  (exists r, Handler (AddRoute method "/users/:id([0-9]+)" h) newRouter = Some r /\
     MatchRoute r o method "/users/abc" = (None, None)).
Proof.
  intros Ho. split.
  - eexists. split.
    + apply (Handler_single (AddRoute method "/users/:id" h)
               "^/users/([^/]+)/?$" ["id"] (compiled_for "/users/:id"));
        vm_compute; reflexivity.
    + erewrite (MatchRoute_single _ o method "/users/42" "/users/:id");
        [|exact Ho|apply lookup_singleton_eq].
      vm_compute. reflexivity.
  - eexists. split.
    + apply (Handler_single (AddRoute method "/users/:id([0-9]+)" h)
               "^/users/([0-9]+)/?$" ["id"] (compiled_for "/users/:id([0-9]+)"));
        vm_compute; reflexivity.
    + erewrite (MatchRoute_single _ o method "/users/abc" "/users/:id([0-9]+)");
        [|exact Ho|apply lookup_singleton_eq].
      vm_compute. reflexivity.
Qed.

(** C6.  When no route registered for the request's method matches its
    path, [ServeHTTP] is the engine's error handler applied to the error
    [NewHTTPError(404, ...)] and to the context as [newContext] made it,
    with [nil] parameters: neither the global middleware nor any route's
    middleware or handler has run on the context. *)
Theorem C6_no_route_is_not_found (e : Engine W) (o : range_order) (w : W)
    (r : http.Request) (log : Logger) :
  visits_each_once o ->
  (forall methodRoutes p rt,
     routes (router e) !! http.Method r = Some methodRoutes ->
     methodRoutes !! p = Some rt ->
     ~ matches_path rt (http.URL_Path r)) ->
  ServeHTTP e o w r log
  = errorHandler e (HTTPError http.StatusNotFound "Not Found" None)
      (SetPathParams None (newContext w r log)).
Proof.
  intros Ho Hnone. unfold ServeHTTP.
  assert (Hm : MatchRoute (router e) o (http.Method r) (http.URL_Path r) = (None, None)).
  { destruct (routes (router e) !! http.Method r) as [methodRoutes|] eqn:Hr.
    - destruct (MatchRoute_spec (router e) o _ (http.URL_Path r) methodRoutes Ho Hr)
        as [[Heq _]|(p & rt & Hp & (rt' & Hp' & Hmp & _) & _)]; [exact Heq|].
      exfalso. by apply (Hnone _ _ _ eq_refl Hp').
    - unfold MatchRoute. by rewrite Hr. }
  rewrite Hm. reflexivity.
Qed.



End DispatchClaims.

Section TieClaims.
Context {W : Type} `{!http.ResponseWriter W}.

(** The two orders in which a loop can meet a table of two entries. *)
Lemma range_pair {V : Type} (o : range_order) (k1 k2 : string) (v1 v2 : V) :
  visits_each_once o -> k1 <> k2 ->
  range o (<[k1 := v1]> ({[k2 := v2]} : gmap string V)) = [(k1, v1); (k2, v2)] \/
  range o (<[k1 := v1]> ({[k2 := v2]} : gmap string V)) = [(k2, v2); (k1, v1)].
Proof.
  intros Ho Hne. apply Permutation_length_2_inv.
  unfold range. rewrite (Ho V _).
  rewrite map_to_list_insert by (by apply lookup_singleton_ne).
  by rewrite map_to_list_singleton.
Qed.

(** C1, as the code has it.  With [/docs/new] and [/docs/:id] as the
    routes of a method, both match [/docs/new] and both patterns have
    length 9, so [MatchRoute] keeps the one its loop meets first: the
    literal route, with no bindings, when the loop meets [/docs/new]
    first, and the parameterized route, with [id = new], when it meets
    [/docs/:id] first. *)
Theorem C1_equal_length_first_visited_wins (method : string)
    (h_literal h_param : HandlerFunc W) (o : range_order) (r1 r : Router W) :
  visits_each_once o ->
  Handler (AddRoute method "/docs/new" h_literal) newRouter = Some r1 ->
  Handler (AddRoute method "/docs/:id" h_param) r1 = Some r ->
  exists methodRoutes,
    routes r !! method = Some methodRoutes /\
    (((range o methodRoutes).*1 = ["/docs/new"; "/docs/:id"] /\
      MatchRoute r o method "/docs/new" = (Some h_literal, Some ∅))
     \/
     ((range o methodRoutes).*1 = ["/docs/:id"; "/docs/new"] /\
      MatchRoute r o method "/docs/new" = (Some h_param, Some {["id" := "new"]}))).
Proof.
  intros Ho H1 H2.
  rewrite (Handler_single (AddRoute method "/docs/new" h_literal)
             "^/docs/new/?$" [] (compiled_for "/docs/new")) in H1
    by (vm_compute; reflexivity).
  injection H1 as <-.
  rewrite (Handler_compiles (AddRoute method "/docs/:id" h_param) _
             "^/docs/([^/]+)/?$" ["id"] (compiled_for "/docs/:id")) in H2
    by (vm_compute; reflexivity).
  injection H2 as <-.
  cbn [rb_method rb_path rb_handler beforeMW afterMW AddRoute routes].
  set (lit := {| handler := h_literal; pattern := "/docs/new"; before := [];
                 after := []; regex := compiled_for "/docs/new"; paramNames := [] |}).
  set (par := {| handler := h_param; pattern := "/docs/:id"; before := [];
                 after := []; regex := compiled_for "/docs/:id"; paramNames := ["id"] |}).
  assert (Htbl : (<[method := <["/docs/:id" := par]> (default ∅ (({[method := {["/docs/new" := lit]}]} : gmap string (gmap string (route W))) !! method))]>
                    ({[method := {["/docs/new" := lit]}]} : gmap string (gmap string (route W)))) !! method
                 = Some (<["/docs/:id" := par]> {["/docs/new" := lit]})).
  { rewrite lookup_insert_eq, lookup_singleton_eq. reflexivity. }
  exists (<["/docs/:id" := par]> {["/docs/new" := lit]}).
  split; [exact Htbl|].
  unfold MatchRoute. cbn [routes]. rewrite Htbl.
  destruct (range_pair o "/docs/:id" "/docs/new" par lit Ho ltac:(done)) as [Hord|Hord];
    rewrite Hord.
  - right. split; [reflexivity|]. vm_compute. reflexivity.
  - left. split; [reflexivity|]. vm_compute. reflexivity.
Qed.

End TieClaims.

(* ===================================================================== *)
(** * The examples, checked by evaluation *)
(* ===================================================================== *)

(** The string primitives and the expression text [Handler] builds. *)
Example Split_examples :
  GoStrings.Split "/users/:id" "/" = [EmptyString; "users"; ":id"] /\
  GoStrings.Split EmptyString "/" = [EmptyString] /\
  GoStrings.Split "a//b/" "/" = ["a"; EmptyString; "b"; EmptyString].
Proof. repeat split; reflexivity. Qed.

Example QuoteMeta_examples :
  regexp.QuoteMeta "v1.2" = "v1\.2" /\ regexp.QuoteMeta "docs" = "docs" /\
  regexp.QuoteMeta "a+b(c)" = "a\+b\(c\)".
Proof. repeat split; reflexivity. Qed.

Example compile_pattern_examples :
  compile_pattern "/users/:id" = ("^/users/([^/]+)/?$", ["id"]) /\
  compile_pattern "/users/:id([0-9]+)" = ("^/users/([0-9]+)/?$", ["id"]) /\
  compile_pattern "/files/*" = ("^/files/(.*)/?$", ["wildcard"]) /\
  compile_pattern "/docs/new" = ("^/docs/new/?$", []) /\
  compile_pattern "/docs/:id/history" = ("^/docs/([^/]+)/history/?$", ["id"]) /\
  compile_pattern "/" = ("^/?$", []).
Proof. repeat split; reflexivity. Qed.

(** The matcher on the expressions of the examples. *)
Example FindStringSubmatch_examples :
  regexp.FindStringSubmatch (compiled_for "/users/:id") "/users/42"
  = Some ["/users/42"; "42"] /\
  regexp.FindStringSubmatch (compiled_for "/users/:id") "/users/42/"
  = Some ["/users/42/"; "42"] /\
  regexp.FindStringSubmatch (compiled_for "/users/:id") "/users/42/edit" = None /\
  regexp.FindStringSubmatch (compiled_for "/users/:id") "/users/" = None /\
  regexp.FindStringSubmatch (compiled_for "/users/:id([0-9]+)") "/users/abc" = None /\
  regexp.FindStringSubmatch (compiled_for "/users/:id([0-9]+)") "/users/007"
  = Some ["/users/007"; "007"] /\
  regexp.FindStringSubmatch (compiled_for "/files/*") "/files/css/site.css"
  = Some ["/files/css/site.css"; "css/site.css"] /\
  regexp.FindStringSubmatch (compiled_for "/docs/new") "/docs/new"
  = Some ["/docs/new"] /\
  regexp.FindStringSubmatch (compiled_for "/docs/:id") "/docs/new"
  = Some ["/docs/new"; "new"].
Proof. repeat split; vm_compute; reflexivity. Qed.

(** The patterns the application registers all compile. *)
Example application_patterns_compile :
  forallb (fun pat => bool_decide (is_Some (regexp.Compile (fst (compile_pattern pat)))))
    ["/api/signup"; "/api/login"; "/api/docs"; "/api/docs/:id";
     "/api/docs/:id/history"; "/api/docs/:id/subscribe"; "/api/docs/:id/share";
     "/share/:shareID"; "/static/*"]
  = true.
Proof. vm_compute. reflexivity. Qed.

(** Expressions that do not compile make [Handler] fail. *)
Example Handler_rejects_malformed_constraint :
  Handler (AddRoute http.MethodGet "/users/:id([0-9]+" (say "user"))
    (newRouter : Router http.wire) = None.
Proof. vm_compute. reflexivity. Qed.

(** The example routers are what the registration calls build. *)
Example docs_router_registered :
  Handler (AddRoute http.MethodGet "/docs/new" (say "literal")) newRouter
  = Some docs_router_1 /\
  Handler (AddRoute http.MethodGet "/docs/:id" (say "parameterized")) docs_router_1
  = Some docs_router /\
  (r ← Handler (AddRoute http.MethodGet "/docs/:id" (say "parameterized")) newRouter;
   Handler (AddRoute http.MethodGet "/docs/new" (say "literal")) r)
  = Some docs_router.
Proof. repeat split; vm_compute; reflexivity. Qed.

Example files_router_registered :
  (r ← Handler (AddRoute http.MethodGet "/files/*" (say "wildcard")) newRouter;
   Handler (AddRoute http.MethodGet "/files/:name" (say "named")) r)
  = Some files_router.
Proof. vm_compute. reflexivity. Qed.

Example users_router_registered :
  Handler (AddRoute http.MethodGet "/users/:id([0-9]+)" (say "user")) newRouter
  = Some users_router.
Proof. vm_compute. reflexivity. Qed.

Example nested_router_registered :
  Handler (After [A_unit] (Before [B_unit] (GET "/docs/:id" (say "H")))) newRouter
  = Some nested_router.
Proof. vm_compute. reflexivity. Qed.

Example pattern_lengths_tie :
  String.length "/docs/new" = 9%nat /\ String.length "/docs/:id" = 9%nat.
Proof. split; reflexivity. Qed.

(** C1 as the specification words it fails: with both routes registered
    and the loop meeting [/docs/:id] first, [/docs/new] resolves to the
    parameterized route. *)
Lemma C1_parameterized_route_selected :
  visits_each_once in_reverse_order /\
  MatchRoute docs_router in_reverse_order http.MethodGet "/docs/new"
  = (Some (say "parameterized"), Some {["id" := "new"]}) /\
  MatchRoute docs_router in_reverse_order http.MethodGet "/docs/new"
  <> (Some (say "literal"), Some ∅).
Proof.
  split; [apply in_reverse_order_ok|]. split.
  - vm_compute. reflexivity.
  - intros Heq. apply (f_equal (fun res => snd res ≫= (.!! "id"))) in Heq.
    vm_compute in Heq. discriminate.
Qed.

(** C2 as the specification words it fails: the same router, method and
    path, and two calls whose loops run in different orders. *)
Lemma C2_two_calls_disagree :
  visits_each_once in_stored_order /\
  visits_each_once in_reverse_order /\
  MatchRoute docs_router in_stored_order http.MethodGet "/docs/new"
  <> MatchRoute docs_router in_reverse_order http.MethodGet "/docs/new".
Proof.
  split; [apply in_stored_order_ok|]. split; [apply in_reverse_order_ok|].
  intros Heq. apply (f_equal (fun res => snd res ≫= (.!! "id"))) in Heq.
  vm_compute in Heq. discriminate.
Qed.

Lemma two_entry_lookup {V : Type} (k1 k2 k : string) (v1 v2 v : V) :
  (<[k1 := v1]> ({[k2 := v2]} : gmap string V)) !! k = Some v ->
  (k = k1 /\ v = v1) \/ (k = k2 /\ v = v2).
Proof.
  rewrite lookup_insert_Some, lookup_singleton_Some.
  intros [[<- <-]|[_ [<- <-]]]; [left|right]; done.
Qed.

(** In the files table the longest match of [/files/a] is unique. *)
Lemma files_table_no_tie (p1 p2 : string) :
  longest_match files_table "/files/a" p1 ->
  longest_match files_table "/files/a" p2 -> p1 = p2.
Proof.
  assert (Hnamed : matches_path files_named "/files/a")
    by (vm_compute; eauto).
  assert (Honly : forall p, longest_match files_table "/files/a" p -> p = "/files/:name").
  { intros p (rt & Hp & _ & Hmax).
    apply two_entry_lookup in Hp as [[-> _]|[-> _]]; [reflexivity|].
    specialize (Hmax "/files/:name" files_named eq_refl Hnamed).
    simpl in Hmax. lia. }
  intros H1 H2. by rewrite (Honly _ H1), (Honly _ H2).
Qed.

(** C1 at the example router, with the loop running in reverse order. *)
Lemma C1_witness :
  exists methodRoutes,
    routes docs_router !! http.MethodGet = Some methodRoutes /\
    (((range in_reverse_order methodRoutes).*1 = ["/docs/new"; "/docs/:id"] /\
      MatchRoute docs_router in_reverse_order http.MethodGet "/docs/new"
      = (Some (say "literal"), Some ∅))
     \/
     ((range in_reverse_order methodRoutes).*1 = ["/docs/:id"; "/docs/new"] /\
      MatchRoute docs_router in_reverse_order http.MethodGet "/docs/new"
      = (Some (say "parameterized"), Some {["id" := "new"]}))).
Proof.
  apply (C1_equal_length_first_visited_wins http.MethodGet
           (say "literal") (say "parameterized") in_reverse_order
           docs_router_1 docs_router).
  - apply in_reverse_order_ok.
  - vm_compute. reflexivity.
  - vm_compute. reflexivity.
Defined.

(** C2 at the files router, whose longest match is unique. *)
Lemma C2_witness :
  MatchRoute files_router in_stored_order http.MethodGet "/files/a"
  = MatchRoute files_router in_reverse_order http.MethodGet "/files/a".
Proof.
  apply (C2_deterministic_without_ties files_router in_stored_order in_reverse_order
           http.MethodGet "/files/a").
  - apply in_stored_order_ok.
  - apply in_reverse_order_ok.
  - intros methodRoutes p1 p2 Hr. change (Some files_table = Some methodRoutes) in Hr.
    injection Hr as <-. apply files_table_no_tie.
Defined.

(** C3 at the files router: the wildcard and the named route both match. *)
Lemma C3_witness :
  exists p rt,
    files_table !! p = Some rt /\
    matches_path rt "/files/a" /\
    (forall p' rt', files_table !! p' = Some rt' -> matches_path rt' "/files/a" ->
       (String.length p' <= String.length p)%nat) /\
    (keyed_by_pattern files_router -> pattern rt = p) /\
    MatchRoute files_router in_reverse_order http.MethodGet "/files/a"
    = selects rt "/files/a".
Proof.
  apply (C3_longest_pattern_selected files_router in_reverse_order
           http.MethodGet "/files/a" files_table).
  - apply in_reverse_order_ok.
  - reflexivity.
  - exists "/files/*", files_wildcard. split; [reflexivity|]. vm_compute. eauto.
Defined.

(** C4 for GET and the stored order. *)
Lemma C4_witness :
  (exists r : Router http.wire,
     Handler (AddRoute http.MethodGet "/users/:id" (say "user")) newRouter = Some r /\
     MatchRoute r in_stored_order http.MethodGet "/users/42"
     = (Some (say "user"), Some {["id" := "42"]}))
  /\
  (exists r : Router http.wire,
     Handler (AddRoute http.MethodGet "/users/:id([0-9]+)" (say "user")) newRouter = Some r /\
     MatchRoute r in_stored_order http.MethodGet "/users/abc" = (None, None)).
Proof.
  apply (C4_parameter_extraction http.MethodGet (say "user") in_stored_order).
  apply in_stored_order_ok.
Defined.


(** The order of the units' effects, read off the log. *)
Example nested_units_log :
  engine_Logger (ServeHTTP nested_engine in_stored_order http.new_wire (get "/docs/7") [])
  = [(INFO, "G-before"); (INFO, "B-before"); (INFO, "H"); (INFO, "A");
     (INFO, "B-after"); (INFO, "G-after")]
  /\ pathParams (ServeHTTP nested_engine in_stored_order http.new_wire (get "/docs/7") [])
     = Some {["id" := "7"]}.
Proof. split; vm_compute; reflexivity. Qed.

(** C6 at an engine whose only route does not match the path. *)
Lemma C6_witness :
  ServeHTTP users_engine in_stored_order http.new_wire (get "/users/abc") []
  = errorHandler users_engine (HTTPError http.StatusNotFound "Not Found" None)
      (SetPathParams None (newContext http.new_wire (get "/users/abc") [])).
Proof.
  apply (C6_no_route_is_not_found users_engine in_stored_order http.new_wire
           (get "/users/abc") []).
  - apply in_stored_order_ok.
  - intros methodRoutes p rt Hr Hp.
    change (Some ({["/users/:id([0-9]+)" := users_route]} : gmap string (route http.wire))
            = Some methodRoutes) in Hr.
    injection Hr as <-. apply lookup_singleton_Some in Hp as [_ <-].
    vm_compute. intros [ms Hms]. discriminate.
Defined.

(** A matched request on the same engine does run the global unit. *)
Example found_log :
  engine_Logger (ServeHTTP users_engine in_stored_order http.new_wire (get "/users/7") [])
  = [(INFO, "G-before"); (INFO, "user"); (INFO, "G-after")].
Proof. vm_compute. reflexivity. Qed.

(** No unit has logged anything for the unmatched request. *)
Example not_found_log :
  engine_Logger (ServeHTTP users_engine in_stored_order http.new_wire (get "/users/abc") [])
  = [].
Proof. vm_compute. reflexivity. Qed.

(* ===================================================================== *)
(** * Properties of the broadcaster *)
(* ===================================================================== *)

Section Broadcaster.
Import sse.

Lemma send_step_clients (docID message : string) (m : gmap string SSEClient)
    (log : Logger) (k : string) (cl : SSEClient) :
  m !! k = Some cl ->
  (send_step docID message (m, log) (k, cl)).1
  = <[k := enqueue_or_drop message cl]> m.
Proof.
  intros Hk. unfold send_step, enqueue_or_drop.
  destruct (try_send message (Chan cl)); simpl; [reflexivity|].
  symmetry. by apply insert_id.
Qed.

(** The loop of [Broadcast] over distinct entries of the map it updates:
    every entry met has had one send, the others are as they were. *)
Lemma send_fold_lookup (docID message : string) (l : list (string * SSEClient))
    (m : gmap string SSEClient) (log : Logger) (k : string) :
  NoDup l.*1 ->
  (forall k' cl, (k', cl) ∈ l -> m !! k' = Some cl) ->
  (fold_left (send_step docID message) l (m, log)).1 !! k
  = if decide (k ∈ l.*1) then enqueue_or_drop message <$> m !! k else m !! k.
Proof.
  revert m log. induction l as [|[k0 cl0] l IH]; intros m log Hnd Hin.
  - cbn [fold_left fst]. destruct (decide (k ∈ ([] : list (string * SSEClient)).*1)) as [Hk|Hk];
      [by apply elem_of_nil in Hk|reflexivity].
  - cbn [fold_left]. apply NoDup_cons in Hnd as [Hk0 Hnd].
    assert (Hm0 : m !! k0 = Some cl0) by (apply Hin; apply elem_of_cons; by left).
    pose proof (send_step_clients docID message m log k0 cl0 Hm0) as Hstep.
    destruct (send_step docID message (m, log) (k0, cl0)) as [m1 log1].
    simpl in Hstep. subst m1.
    rewrite IH; [|exact Hnd|].
    + destruct (decide (k = k0)) as [->|Hne].
      * rewrite decide_False by exact Hk0.
        rewrite decide_True by (apply elem_of_cons; by left).
        by rewrite lookup_insert_eq, Hm0.
      * rewrite lookup_insert_ne by done.
        destruct (decide (k ∈ l.*1)) as [Hl|Hl].
        -- rewrite decide_True by (apply elem_of_cons; by right). reflexivity.
        -- rewrite decide_False; [reflexivity|].
           intros Hc. apply elem_of_cons in Hc as [?|?]; done.
    + intros k' cl Hk'. rewrite lookup_insert_ne.
      * apply Hin. apply elem_of_cons. by right.
      * intros <-. apply Hk0. apply list_elem_of_fmap. by exists (k0, cl).
Qed.

(** The registry after [Broadcast]: each client of the document has had
    one send, whatever the order of the loop; other documents are as they
    were. *)
Lemma Broadcast_clients (docID message : string) (o : range_order) (sm : SSEManager) :
  visits_each_once o ->
  clients (Broadcast docID message o sm)
  = match clients sm !! docID with
    | Some docClients =>
        <[docID := enqueue_or_drop message <$> docClients]> (clients sm)
    | None => clients sm
    end.
Proof.
  intros Ho. unfold Broadcast.
  destruct (clients sm !! docID) as [docClients|] eqn:Hdoc; [|reflexivity].
  destruct (fold_left (send_step docID message) (range o docClients)
              (docClients, sm_Logger sm)) as [docClients' log] eqn:Hfold.
  simpl. f_equal. apply map_eq. intros k.
  pose proof (send_fold_lookup docID message (range o docClients) docClients
                (sm_Logger sm) k (range_NoDup o docClients Ho)) as Hk.
  rewrite Hfold in Hk. simpl in Hk. rewrite Hk.
  - rewrite lookup_fmap. destruct (decide (k ∈ (range o docClients).*1)) as [Hl|Hl].
    + reflexivity.
    + destruct (docClients !! k) as [cl|] eqn:Hcl; [|reflexivity].
      exfalso. apply Hl. apply list_elem_of_fmap. exists (k, cl). split; [reflexivity|].
      by apply (range_elem_of o).
  - intros k' cl Hin. by apply (range_elem_of o) in Hin.
Qed.

Lemma client_of_Broadcast (docID message : string) (o : range_order) (sm : SSEManager)
    (d c : string) :
  visits_each_once o ->
  client_of d c (Broadcast docID message o sm)
  = if decide (d = docID) then enqueue_or_drop message <$> client_of d c sm
    else client_of d c sm.
Proof.
  intros Ho. unfold client_of. rewrite (Broadcast_clients _ _ _ _ Ho).
  destruct (decide (d = docID)) as [->|Hne].
  - destruct (clients sm !! docID) as [docClients|] eqn:Hdoc.
    + rewrite lookup_insert_eq. simpl. by rewrite lookup_fmap.
    + rewrite Hdoc. reflexivity.
  - destruct (clients sm !! docID) as [docClients|] eqn:Hdoc; [|reflexivity].
    by rewrite lookup_insert_ne.
Qed.

End Broadcaster.

Section BroadcasterClaims.
Import sse.

Lemma take_take_app {A : Type} (n : nat) (l r : list A) :
  take n (take n l ++ r) = take n (l ++ r).
Proof.
  destruct (le_lt_dec n (length l)) as [Hle|Hlt].
  - rewrite take_app_le by (rewrite length_take; lia).
    rewrite take_idemp. symmetry. by apply take_app_le.
  - rewrite (take_ge l n) by lia. reflexivity.
Qed.

(** One send to a channel of capacity 5 whose queue is not over-full. *)
Lemma enqueue_or_drop_buf (message : string) (cl : SSEClient) :
  cap (Chan cl) = 5 -> length (buf (Chan cl)) <= 5 ->
  ID (enqueue_or_drop message cl) = ID cl /\
  cap (Chan (enqueue_or_drop message cl)) = 5 /\
  buf (Chan (enqueue_or_drop message cl)) = take 5 (buf (Chan cl) ++ [message]).
Proof.
  intros Hcap Hlen. unfold enqueue_or_drop, try_send. rewrite Hcap.
  destruct (Nat.ltb_spec (length (buf (Chan cl))) 5) as [Hlt|Hge]; simpl.
  - split; [reflexivity|]. split; [first [reflexivity|exact Hcap]|].
    rewrite take_ge; [reflexivity|].
    rewrite length_app. simpl. lia.
  - split; [reflexivity|]. split; [first [reflexivity|exact Hcap]|].
    rewrite take_app_le by lia.
    rewrite take_ge by lia. reflexivity.
Qed.

(** A client that is not drained, over a run of broadcasts. *)
Lemma Broadcast_all_queue (docID clientID : string)
    (posts : list (string * range_order)) (sm : SSEManager) (cl : SSEClient) :
  Forall (fun post => visits_each_once post.2) posts ->
  client_of docID clientID sm = Some cl ->
  cap (Chan cl) = 5 -> length (buf (Chan cl)) <= 5 ->
  exists cl',
    client_of docID clientID (Broadcast_all docID posts sm) = Some cl' /\
    ID cl' = ID cl /\ cap (Chan cl') = 5 /\
    buf (Chan cl') = take 5 (buf (Chan cl) ++ posts.*1).
Proof.
  intros Hposts. revert sm cl.
  induction Hposts as [|[message o] posts Ho _ IH]; intros sm cl Hcl Hcap Hlen.
  - exists cl. simpl. rewrite app_nil_r, take_ge by lia. done.
  - simpl in Ho.
    destruct (enqueue_or_drop_buf message cl Hcap Hlen) as (Hid & Hcap' & Hbuf).
    destruct (IH (Broadcast docID message o sm) (enqueue_or_drop message cl))
      as (cl' & Hcl' & Hid' & Hcap'' & Hbuf').
    + rewrite (client_of_Broadcast _ _ _ _ _ _ Ho), decide_True by reflexivity.
      by rewrite Hcl.
    + exact Hcap'.
    + rewrite Hbuf, length_take. lia.
    + exists cl'. split; [exact Hcl'|]. split; [congruence|]. split; [exact Hcap''|].
      rewrite Hbuf', Hbuf, take_take_app, <- app_assoc. reflexivity.
Qed.

Lemma client_of_AddClient (docID clientID : string) (flusher : bool)
    (sm : SSEManager) :
  client_of docID clientID (AddClient docID clientID flusher sm)
  = Some {| ID := clientID; Chan := make_chan 5 |}.
Proof.
  unfold client_of, AddClient. simpl. rewrite lookup_insert_eq. simpl.
  by rewrite lookup_insert_eq.
Qed.

(** ** Queues stay within their capacity *)

Lemma AddClient_bounded (docID clientID : string) (flusher : bool)
    (sm : SSEManager) :
  bounded_queues sm -> bounded_queues (AddClient docID clientID flusher sm).
Proof.
  intros Hinv d m c cl. unfold AddClient. simpl.
  destruct (decide (d = docID)) as [->|Hd].
  - rewrite lookup_insert_eq. intros [= <-].
    destruct (decide (c = clientID)) as [->|Hc].
    + rewrite lookup_insert_eq. intros [= <-]. simpl. split; [reflexivity|lia].
    + rewrite lookup_insert_ne by done.
      destruct (clients sm !! docID) as [old|] eqn:Hold; simpl.
      * by apply (Hinv docID).
      * by rewrite lookup_empty.
  - rewrite lookup_insert_ne by done. apply Hinv.
Qed.

Lemma RemoveClient_bounded (docID clientID : string) (sm : SSEManager) :
  bounded_queues sm -> bounded_queues (RemoveClient docID clientID sm).
Proof.
  intros Hinv. unfold RemoveClient.
  destruct (clients sm !! docID) as [docClients|] eqn:Hdoc; [|exact Hinv].
  destruct (docClients !! clientID) as [client|]; [|exact Hinv].
  case_bool_decide as Hsize; intros d m c cl; simpl.
  - intros Hd. apply lookup_delete_Some in Hd as [_ Hd]. by apply (Hinv d).
  - destruct (decide (d = docID)) as [->|Hne].
    + rewrite lookup_insert_eq. intros [= <-] Hc.
      apply lookup_delete_Some in Hc as [_ Hc]. by apply (Hinv docID docClients c).
    + rewrite lookup_insert_ne by done. apply Hinv.
Qed.

Lemma Broadcast_bounded (docID message : string) (o : range_order) (sm : SSEManager) :
  visits_each_once o -> bounded_queues sm ->
  bounded_queues (Broadcast docID message o sm).
Proof.
  intros Ho Hinv d m c cl. rewrite (Broadcast_clients _ _ _ _ Ho).
  destruct (clients sm !! docID) as [docClients|] eqn:Hdoc; [|apply Hinv].
  destruct (decide (d = docID)) as [->|Hd].
  - rewrite lookup_insert_eq. intros [= <-]. rewrite lookup_fmap.
    destruct (docClients !! c) as [cl0|] eqn:Hc; simpl; [|discriminate].
    intros [= <-].
    destruct (Hinv docID docClients c cl0 Hdoc Hc) as [Hcap Hlen].
    destruct (enqueue_or_drop_buf message cl0 Hcap Hlen) as (_ & Hcap' & Hbuf).
    split; [exact Hcap'|]. rewrite Hbuf, length_take. lia.
  - rewrite lookup_insert_ne by done. apply Hinv.
Qed.

Lemma deliver_bounded (docID clientID : string) (sm sm' : SSEManager) (frame : string) :
  bounded_queues sm -> deliver docID clientID sm = Some (frame, sm') ->
  bounded_queues sm'.
Proof.
  intros Hinv. unfold deliver.
  destruct (clients sm !! docID) as [docClients|] eqn:Hdoc; [|discriminate]. simpl.
  destruct (docClients !! clientID) as [client|] eqn:Hcl; [|discriminate]. simpl.
  destruct (Hinv docID docClients clientID client Hdoc Hcl) as [Hcap Hlen].
  unfold receive. destruct (buf (Chan client)) as [|msg rest] eqn:Hbuf; [discriminate|].
  simpl. intros [= _ <-] d m c cl. simpl.
  destruct (decide (d = docID)) as [->|Hd].
  - rewrite lookup_insert_eq. intros [= <-].
    destruct (decide (c = clientID)) as [->|Hc].
    + rewrite lookup_insert_eq. intros [= <-]. simpl. simpl in Hlen.
      split; [exact Hcap|lia].
    + rewrite lookup_insert_ne by done. by apply (Hinv docID).
  - rewrite lookup_insert_ne by done. apply Hinv.
Qed.

Lemma step_bounded (sm : SSEManager) (a : op) :
  op_ok a -> bounded_queues sm -> bounded_queues (step sm a).
Proof.
  intros Hok Hinv. destruct a as [d c f|d c|d msg o|d c|d c]; simpl.
  - by apply AddClient_bounded.
  - by apply RemoveClient_bounded.
  - by apply Broadcast_bounded.
  - destruct (deliver d c sm) as [[frame sm']|] eqn:Hd; [|exact Hinv].
    by apply (deliver_bounded d c sm sm' frame).
  - unfold disconnect. intros d' m c' cl. simpl.
    by apply (RemoveClient_bounded d c sm Hinv).
Qed.

Lemma run_bounded (ops : list op) (sm : SSEManager) :
  Forall op_ok ops -> bounded_queues sm -> bounded_queues (run ops sm).
Proof.
  intros Hops. revert sm. induction Hops as [|a ops Ha _ IH]; intros sm Hinv;
    [exact Hinv|].
  simpl. apply IH. by apply step_bounded.
Qed.

Lemma NewSSEManager_bounded (log : Logger) : bounded_queues (NewSSEManager log).
Proof. intros d m c cl. simpl. by rewrite lookup_empty. Qed.

(** C8.  [Broadcast] is a function of the manager: it returns for every
    registry, with no wait on any queue.  One call gives each client of
    the document one non-blocking send: the message joins the client's
    queue when the queue is below its capacity, and that client's queue is
    left as it was when it is full, whatever happens to the other clients.
    A client added by [AddClient] has capacity 5, and after any run of
    broadcasts to its document during which it takes nothing from its
    queue, the queue holds the first five messages of the run (all of
    them when there were fewer), in order.  In every state a manager
    reaches, every queue has capacity 5 and holds at most five
    messages. *)
Theorem C8_broadcast_drops_when_queue_full (sm : SSEManager)
    (docID clientID message : string) (flusher : bool) (o : range_order)
    (posts : list (string * range_order)) (ops : list op) (log : Logger) :
  visits_each_once o ->
  Forall (fun post => visits_each_once post.2) posts ->
  Forall op_ok ops ->
  (forall c client,
     client_of docID c sm = Some client ->
     client_of docID c (Broadcast docID message o sm)
     = Some {| ID := ID client;
               Chan := {| cap := cap (Chan client);
                          buf := if (length (buf (Chan client)) <? cap (Chan client))%nat
                                 then buf (Chan client) ++ [message]
                                 else buf (Chan client) |} |})
  /\
  (exists client,
     client_of docID clientID
       (Broadcast_all docID posts (AddClient docID clientID flusher sm))
     = Some client /\
     ID client = clientID /\ cap (Chan client) = 5 /\
     buf (Chan client) = take 5 posts.*1)
  /\
  bounded_queues (run ops (NewSSEManager log)).
Proof.
  intros Ho Hposts Hops. split; [|split].
  3: { by apply run_bounded, NewSSEManager_bounded. }
  - intros c client Hc.
    rewrite (client_of_Broadcast _ _ _ _ _ _ Ho), decide_True by reflexivity.
    rewrite Hc. simpl. f_equal. unfold enqueue_or_drop, try_send.
    destruct client as [id [n q]]. simpl.
    destruct (length q <? n)%nat; reflexivity.
  - destruct (Broadcast_all_queue docID clientID posts
                (AddClient docID clientID flusher sm)
                {| ID := clientID; Chan := make_chan 5 |} Hposts)
      as (cl' & Hcl' & Hid & Hcap & Hbuf).
    + apply client_of_AddClient.
    + reflexivity.
    + simpl. lia.
    + exists cl'. done.
Qed.

(** ** The registry invariant *)

Lemma send_fold_non_empty (docID message : string) (l : list (string * SSEClient))
    (m : gmap string SSEClient) (log : Logger) :
  m ≠ ∅ -> (fold_left (send_step docID message) l (m, log)).1 ≠ ∅.
Proof.
  revert m log. induction l as [|[k cl] l IH]; intros m log Hm; [exact Hm|].
  cbn [fold_left]. unfold send_step at 2.
  destruct (try_send message (Chan cl)); apply IH; [apply insert_non_empty|exact Hm].
Qed.

Lemma AddClient_no_empty_topic (docID clientID : string) (flusher : bool)
    (sm : SSEManager) :
  no_empty_topic sm -> no_empty_topic (AddClient docID clientID flusher sm).
Proof.
  intros Hinv d m. unfold AddClient. simpl.
  destruct (decide (d = docID)) as [->|Hne].
  - rewrite lookup_insert_eq. intros [= <-]. apply insert_non_empty.
  - rewrite lookup_insert_ne by done. apply Hinv.
Qed.

Lemma RemoveClient_no_empty_topic (docID clientID : string) (sm : SSEManager) :
  no_empty_topic sm -> no_empty_topic (RemoveClient docID clientID sm).
Proof.
  intros Hinv. unfold RemoveClient.
  destruct (clients sm !! docID) as [docClients|] eqn:Hdoc; [|exact Hinv].
  destruct (docClients !! clientID) as [client|]; [|exact Hinv].
  case_bool_decide as Hsize; intros d m; simpl.
  - intros Hd. apply lookup_delete_Some in Hd as [_ Hd]. by apply (Hinv d).
  - destruct (decide (d = docID)) as [->|Hne].
    + rewrite lookup_insert_eq. intros [= <-]. by apply map_size_non_empty_iff.
    + rewrite lookup_insert_ne by done. apply Hinv.
Qed.

Lemma Broadcast_no_empty_topic (docID message : string) (o : range_order)
    (sm : SSEManager) :
  no_empty_topic sm -> no_empty_topic (Broadcast docID message o sm).
Proof.
  intros Hinv. unfold Broadcast.
  destruct (clients sm !! docID) as [docClients|] eqn:Hdoc; [|exact Hinv].
  pose proof (send_fold_non_empty docID message (range o docClients) docClients
                (sm_Logger sm) (Hinv _ _ Hdoc)) as Hne.
  destruct (fold_left (send_step docID message) (range o docClients)
              (docClients, sm_Logger sm)) as [docClients' log].
  intros d m. simpl. destruct (decide (d = docID)) as [->|Hd].
  - rewrite lookup_insert_eq. by intros [= <-].
  - rewrite lookup_insert_ne by done. apply Hinv.
Qed.

Lemma deliver_no_empty_topic (docID clientID : string) (sm sm' : SSEManager)
    (frame : string) :
  no_empty_topic sm -> deliver docID clientID sm = Some (frame, sm') ->
  no_empty_topic sm'.
Proof.
  intros Hinv. unfold deliver.
  destruct (clients sm !! docID) as [docClients|]; [|discriminate]. simpl.
  destruct (docClients !! clientID) as [client|]; [|discriminate]. simpl.
  destruct (receive (Chan client)) as [[msg ch]|]; [|discriminate]. simpl.
  intros [= _ <-] d m. simpl. destruct (decide (d = docID)) as [->|Hd].
  - rewrite lookup_insert_eq. intros [= <-]. apply insert_non_empty.
  - rewrite lookup_insert_ne by done. apply Hinv.
Qed.

(** Every operation keeps the invariant. *)
Lemma step_no_empty_topic (sm : SSEManager) (a : op) :
  no_empty_topic sm -> no_empty_topic (step sm a).
Proof.
  intros Hinv. destruct a as [d c f|d c|d msg o|d c|d c]; simpl.
  - by apply AddClient_no_empty_topic.
  - by apply RemoveClient_no_empty_topic.
  - by apply Broadcast_no_empty_topic.
  - destruct (deliver d c sm) as [[frame sm']|] eqn:Hd; [|exact Hinv].
    by apply (deliver_no_empty_topic d c sm sm' frame).
  - unfold disconnect. intros d' m. simpl.
    by apply (RemoveClient_no_empty_topic d c sm Hinv).
Qed.

Lemma run_no_empty_topic (ops : list op) (sm : SSEManager) :
  no_empty_topic sm -> no_empty_topic (run ops sm).
Proof.
  revert sm. induction ops as [|a ops IH]; intros sm Hinv; [exact Hinv|].
  simpl. apply IH. by apply step_no_empty_topic.
Qed.

Lemma NewSSEManager_no_empty_topic (log : Logger) : no_empty_topic (NewSSEManager log).
Proof. intros d m. simpl. by rewrite lookup_empty. Qed.

Lemma client_of_RemoveClient (docID clientID : string) (sm : SSEManager) :
  client_of docID clientID (RemoveClient docID clientID sm) = None.
Proof.
  unfold client_of, RemoveClient.
  destruct (clients sm !! docID) as [docClients|] eqn:Hdoc.
  - destruct (docClients !! clientID) as [client|] eqn:Hcl.
    + case_bool_decide; simpl.
      * by rewrite lookup_delete_eq.
      * rewrite lookup_insert_eq. simpl. by rewrite lookup_delete_eq.
    + rewrite Hdoc. simpl. exact Hcl.
  - by rewrite Hdoc.
Qed.

(** C9.  After [RemoveClient] the client is no longer in its document's
    registry, and a later [Broadcast] to the document does not bring it
    back; when the client was the only one of the document, the document
    has no entry any more; a cancelled connection leaves the registry as
    [RemoveClient] does.  The invariant that every document present has a
    client holds initially and after every operation on a manager that
    has it, hence after every run of operations. *)
Theorem C9_removal_and_registry_invariant (sm : SSEManager)
    (docID clientID message : string) (o : range_order) (a : op)
    (ops : list op) (log : Logger) :
  visits_each_once o ->
  client_of docID clientID (RemoveClient docID clientID sm) = None /\
  client_of docID clientID (Broadcast docID message o (RemoveClient docID clientID sm))
  = None /\
  (forall client,
     clients sm !! docID = Some {[clientID := client]} ->
     clients (RemoveClient docID clientID sm) !! docID = None) /\
  clients (disconnect docID clientID sm) = clients (RemoveClient docID clientID sm) /\
  (no_empty_topic sm -> no_empty_topic (step sm a)) /\
  no_empty_topic (run ops (NewSSEManager log)).
Proof.
  intros Ho. split; [apply client_of_RemoveClient|]. split.
  { rewrite (client_of_Broadcast _ _ _ _ _ _ Ho), decide_True by reflexivity.
    by rewrite client_of_RemoveClient. }
  split.
  { intros client Hdoc. unfold RemoveClient. rewrite Hdoc.
    rewrite lookup_singleton_eq. rewrite delete_singleton_eq.
    rewrite bool_decide_true by apply map_size_empty.
    simpl. apply lookup_delete_eq. }
  split; [reflexivity|]. split; [apply step_no_empty_topic|].
  apply run_no_empty_topic, NewSSEManager_no_empty_topic.
Qed.

End BroadcasterClaims.

(* ===================================================================== *)
(** * The broadcaster's examples *)
(* ===================================================================== *)

Lemma seven_posts_ok : Forall (fun post => visits_each_once post.2) seven_posts.
Proof.
  unfold seven_posts.
  repeat (constructor;
          [simpl; first [apply in_stored_order_ok | apply in_reverse_order_ok]|]).
  constructor.
Qed.

(** C8 at a manager with three clients, one of them with a queued message. *)
Lemma C8_witness :
  (forall c client,
     client_of "doc1" c two_docs = Some client ->
     client_of "doc1" c (sse.Broadcast "doc1" "m0" in_reverse_order two_docs)
     = Some {| sse.ID := sse.ID client;
               sse.Chan :=
                 {| sse.cap := sse.cap (sse.Chan client);
                    sse.buf :=
                      if (length (sse.buf (sse.Chan client))
                          <? sse.cap (sse.Chan client))%nat
                      then sse.buf (sse.Chan client) ++ ["m0"]
                      else sse.buf (sse.Chan client) |} |})
  /\
  (exists client,
     client_of "doc1" "dave"
       (Broadcast_all "doc1" seven_posts (sse.AddClient "doc1" "dave" true two_docs))
     = Some client /\
     sse.ID client = "dave" /\ sse.cap (sse.Chan client) = 5 /\
     sse.buf (sse.Chan client) = take 5 seven_posts.*1)
  /\
  bounded_queues two_docs.
Proof.
  apply (C8_broadcast_drops_when_queue_full two_docs "doc1" "dave" "m0" true
           in_reverse_order seven_posts
           [sse.OpAddClient "doc1" "alice" true; sse.OpAddClient "doc1" "bob" true;
            sse.OpAddClient "doc2" "carol" true;
            sse.OpBroadcast "doc1" "hello" in_stored_order] []).
  - apply in_reverse_order_ok.
  - apply seven_posts_ok.
  - repeat (constructor; [simpl; first [exact I | apply in_stored_order_ok]|]).
    constructor.
Defined.

(** Seven messages to a client that does not read: five are queued, two
    are dropped and logged; a client of another document gets none. *)
Example seven_posts_queue :
  sse.queue_of "doc1" "dave"
    (Broadcast_all "doc1" seven_posts (sse.AddClient "doc1" "dave" true two_docs))
  = Some ["m1"; "m2"; "m3"; "m4"; "m5"]
  /\ sse.queue_of "doc1" "alice"
       (Broadcast_all "doc1" seven_posts (sse.AddClient "doc1" "dave" true two_docs))
     = Some ["hello"; "m1"; "m2"; "m3"; "m4"]
  /\ sse.queue_of "doc2" "carol"
       (Broadcast_all "doc1" seven_posts (sse.AddClient "doc1" "dave" true two_docs))
     = Some [].
Proof. repeat split; vm_compute; reflexivity. Qed.

(** C9 at the same manager, for the only client of its document. *)
Lemma C9_witness :
  client_of "doc2" "carol" (sse.RemoveClient "doc2" "carol" two_docs) = None /\
  client_of "doc2" "carol"
    (sse.Broadcast "doc2" "m" in_stored_order (sse.RemoveClient "doc2" "carol" two_docs))
  = None /\
  (forall client,
     sse.clients two_docs !! "doc2" = Some {["carol" := client]} ->
     sse.clients (sse.RemoveClient "doc2" "carol" two_docs) !! "doc2" = None) /\
  sse.clients (sse.disconnect "doc2" "carol" two_docs)
  = sse.clients (sse.RemoveClient "doc2" "carol" two_docs) /\
  (sse.no_empty_topic two_docs ->
   sse.no_empty_topic (sse.step two_docs (sse.OpDisconnect "doc2" "carol"))) /\
  sse.no_empty_topic
    (sse.run [sse.OpAddClient "doc1" "alice" true; sse.OpRemoveClient "doc1" "alice"]
       (sse.NewSSEManager [])).
Proof.
  apply (C9_removal_and_registry_invariant two_docs "doc2" "carol" "m"
           in_stored_order (sse.OpDisconnect "doc2" "carol")
           [sse.OpAddClient "doc1" "alice" true; sse.OpRemoveClient "doc1" "alice"] []).
  apply in_stored_order_ok.
Defined.

(** The last client of a document leaves: the document goes with it, and
    other documents stay. *)
Example last_client_leaves :
  sse.clients (sse.RemoveClient "doc2" "carol" two_docs) !! "doc2" = None
  /\ dom (sse.clients (sse.RemoveClient "doc2" "carol" two_docs)) = {["doc1"]}
  /\ dom (sse.clients (sse.RemoveClient "doc1" "bob" two_docs)) = {["doc1"; "doc2"]}.
Proof. repeat split; vm_compute; reflexivity. Qed.

(* ===================================================================== *)
(** * Further properties of the broadcaster *)
(* ===================================================================== *)

Section BroadcasterExtras.
Import sse.

Lemma client_of_Some (docID clientID : string) (sm : SSEManager) (cl : SSEClient) :
  client_of docID clientID sm = Some cl <->
  exists docClients, clients sm !! docID = Some docClients /\
                     docClients !! clientID = Some cl.
Proof.
  unfold client_of. destruct (clients sm !! docID) as [m|]; simpl.
  - split; [intros Hc; by exists m|]. by intros (m' & [= <-] & Hc).
  - split; [discriminate|]. by intros (m' & Hm & _).
Qed.

(** X1: fan-out.  A broadcast to a document registers and removes nobody,
    leaves every client of every other document exactly as it was, and
    appends the message to the queue of every client of the document
    that has room. *)
Theorem Broadcast_fan_out (docID message : string) (o : range_order)
    (sm : SSEManager) :
  visits_each_once o ->
  (forall d c, is_Some (client_of d c (Broadcast docID message o sm))
               <-> is_Some (client_of d c sm)) /\
  (forall d c, d <> docID ->
     client_of d c (Broadcast docID message o sm) = client_of d c sm) /\
  (forall c cl, client_of docID c sm = Some cl -> queue_full cl = false ->
     queue_of docID c (Broadcast docID message o sm)
     = Some (buf (Chan cl) ++ [message])).
Proof.
  intros Ho. split; [|split].
  - intros d c. rewrite (client_of_Broadcast _ _ _ _ _ _ Ho).
    destruct (decide (d = docID)); [|done].
    destruct (client_of d c sm); simpl; split; intros [? ?]; eauto; discriminate.
  - intros d c Hd. rewrite (client_of_Broadcast _ _ _ _ _ _ Ho).
    by rewrite decide_False.
  - intros c cl Hc Hroom.
    pose proof (client_of_Broadcast docID message o sm docID c Ho) as Hb.
    rewrite decide_True in Hb by reflexivity. rewrite Hc in Hb. simpl in Hb.
    unfold queue_of. unfold client_of in Hb.
    destruct (clients (Broadcast docID message o sm) !! docID) as [m|];
      simpl in *; [|discriminate].
    rewrite Hb. simpl. f_equal.
    unfold enqueue_or_drop, try_send. unfold queue_full in Hroom.
    destruct (length (buf (Chan cl)) <? cap (Chan cl))%nat; [reflexivity|discriminate].
Qed.

(** One delivery to a client with a queued message. *)
Lemma deliver_cons (docID clientID : string) (sm : SSEManager) (cl : SSEClient)
    (msg : string) (rest : list string) :
  client_of docID clientID sm = Some cl ->
  buf (Chan cl) = msg :: rest ->
  exists sm',
    deliver docID clientID sm = Some (event_frame msg, sm') /\
    client_of docID clientID sm'
    = Some {| ID := ID cl; Chan := {| cap := cap (Chan cl); buf := rest |} |} /\
    (forall d c, (d, c) <> (docID, clientID) -> client_of d c sm' = client_of d c sm) /\
    sm_Logger sm' = sm_Logger sm.
Proof.
  intros Hcl Hbuf. apply client_of_Some in Hcl as (m & Hm & Hc).
  unfold deliver. rewrite Hm. simpl. rewrite Hc. simpl.
  unfold receive. rewrite Hbuf. simpl. eexists. split; [reflexivity|].
  split; [|split; [|reflexivity]].
  - unfold client_of. simpl. rewrite lookup_insert_eq. simpl.
    by rewrite lookup_insert_eq.
  - intros d c Hne. unfold client_of. simpl.
    destruct (decide (d = docID)) as [->|Hd].
    + rewrite lookup_insert_eq, Hm. simpl.
      rewrite lookup_insert_ne; [reflexivity|]. intros <-. by apply Hne.
    + by rewrite lookup_insert_ne.
Qed.

Lemma deliver_nothing (docID clientID : string) (sm : SSEManager) :
  queue_of docID clientID sm = None \/ queue_of docID clientID sm = Some [] ->
  deliver docID clientID sm = None.
Proof.
  unfold queue_of, deliver.
  destruct (clients sm !! docID) as [m|]; simpl; [|done].
  destruct (m !! clientID) as [cl|]; simpl; [|done].
  unfold receive. intros [Hq|Hq]; [discriminate|].
  injection Hq as ->. reflexivity.
Qed.

Lemma queue_of_client_of (docID clientID : string) (sm : SSEManager) :
  queue_of docID clientID sm = (fun cl => buf (Chan cl)) <$> client_of docID clientID sm.
Proof.
  unfold queue_of, client_of.
  destruct (clients sm !! docID) as [m|]; simpl; [|done].
  by destruct (m !! clientID).
Qed.

(** A run of deliveries to one client, by induction on their number. *)
Lemma drain_run (n : nat) (docID clientID : string) (sm : SSEManager)
    (cl : SSEClient) :
  client_of docID clientID sm = Some cl ->
  (drain n docID clientID sm).1 = event_frame <$> take n (buf (Chan cl)) /\
  queue_of docID clientID (drain n docID clientID sm).2
  = Some (drop n (buf (Chan cl))) /\
  (forall d c, (d, c) <> (docID, clientID) ->
     client_of d c (drain n docID clientID sm).2 = client_of d c sm) /\
  sm_Logger (drain n docID clientID sm).2 = sm_Logger sm.
Proof.
  revert sm cl. induction n as [|n IH]; intros sm cl Hcl.
  - simpl. rewrite queue_of_client_of, Hcl. done.
  - destruct (buf (Chan cl)) as [|msg rest] eqn:Hbuf.
    + simpl. rewrite deliver_nothing; simpl.
      * rewrite queue_of_client_of, Hcl. simpl. by rewrite Hbuf.
      * right. rewrite queue_of_client_of, Hcl. simpl. by rewrite Hbuf.
    + destruct (deliver_cons docID clientID sm cl msg rest Hcl Hbuf)
        as (sm' & Hd & Hcl' & Hother & Hlog).
      simpl. rewrite Hd.
      destruct (IH sm' _ Hcl') as (Hf & Hq & Ho & Hl).
      destruct (drain n docID clientID sm') as [frames sm''] eqn:Hdr.
      simpl in *. split; [by rewrite Hf|]. split; [exact Hq|]. split.
      * intros d c Hne. rewrite (Ho d c Hne). by apply Hother.
      * by rewrite Hl.
Qed.

(** X2: first in, first out.  Up to [n] deliveries to a registered client
    write the first [n] queued messages, oldest first, each as one event
    block; the rest of the queue stays in order, and neither the other
    clients nor the log change. *)
Theorem drain_fifo (n : nat) (docID clientID : string) (sm : SSEManager)
    (cl : SSEClient) :
  client_of docID clientID sm = Some cl ->
  (drain n docID clientID sm).1 = event_frame <$> take n (buf (Chan cl)) /\
  queue_of docID clientID (drain n docID clientID sm).2
  = Some (drop n (buf (Chan cl))) /\
  (forall d c, (d, c) <> (docID, clientID) ->
     client_of d c (drain n docID clientID sm).2 = client_of d c sm) /\
  sm_Logger (drain n docID clientID sm).2 = sm_Logger sm.
Proof. apply drain_run. Qed.

(** X3: publish, then read.  A client that subscribes, is sent any number
    of messages without reading, and then reads [n] times receives the
    first [n] of the first five messages, in the order they were
    published; once five were read there is nothing more to deliver. *)
Theorem publish_then_drain (n : nat) (docID clientID : string) (flusher : bool)
    (posts : list (string * range_order)) (sm : SSEManager) :
  Forall (fun post => visits_each_once post.2) posts ->
  let published := Broadcast_all docID posts (AddClient docID clientID flusher sm) in
  (drain n docID clientID published).1 = event_frame <$> take n (take 5 posts.*1) /\
  deliver docID clientID (drain 5 docID clientID published).2 = None.
Proof.
  intros Hposts published.
  destruct (Broadcast_all_queue docID clientID posts (AddClient docID clientID flusher sm)
              {| ID := clientID; Chan := make_chan 5 |} Hposts)
    as (cl & Hcl & _ & _ & Hbuf).
  { apply client_of_AddClient. }
  { reflexivity. }
  { simpl. lia. }
  simpl in Hbuf. fold published in Hcl.
  destruct (drain_run n docID clientID published cl Hcl) as (Hf & _).
  destruct (drain_run 5 docID clientID published cl Hcl) as (_ & Hq & _).
  split.
  - by rewrite Hf, Hbuf.
  - apply deliver_nothing. right. rewrite Hq, Hbuf.
    rewrite drop_ge; [reflexivity|]. rewrite length_take. lia.
Qed.



(** X5: subscribe, then unsubscribe.  On a registry without empty
    documents, adding a client that was not registered and removing it
    again gives back the registry as it was. *)
Theorem AddClient_RemoveClient (docID clientID : string) (flusher : bool)
    (sm : SSEManager) :
  no_empty_topic sm ->
  client_of docID clientID sm = None ->
  clients (RemoveClient docID clientID (AddClient docID clientID flusher sm))
  = clients sm.
Proof.
  intros Hinv Habs. unfold RemoveClient, AddClient. simpl.
  rewrite lookup_insert_eq, lookup_insert_eq.
  unfold client_of in Habs.
  destruct (clients sm !! docID) as [m|] eqn:Hm; simpl in *.
  - rewrite delete_insert_id by exact Habs.
    rewrite bool_decide_false.
    + simpl. rewrite insert_insert_eq. by apply insert_id.
    + apply map_size_non_empty_iff. by apply (Hinv docID).
  - rewrite delete_insert_id by apply lookup_empty.
    rewrite bool_decide_true by apply map_size_empty.
    simpl. by apply delete_insert_id.
Qed.

(** X6: unsubscribing touches one client only.  [RemoveClient] leaves every
    other client of every document as it was, does nothing at all when
    the client is not registered, and has no further effect when
    repeated. *)
Theorem RemoveClient_frame (docID clientID : string) (sm : SSEManager) :
  (forall d c, (d, c) <> (docID, clientID) ->
     client_of d c (RemoveClient docID clientID sm) = client_of d c sm) /\
  (client_of docID clientID sm = None -> RemoveClient docID clientID sm = sm) /\
  RemoveClient docID clientID (RemoveClient docID clientID sm)
  = RemoveClient docID clientID sm.
Proof.
  assert (Habsent : forall sm0, client_of docID clientID sm0 = None ->
                               RemoveClient docID clientID sm0 = sm0).
  { intros sm0 Habs. unfold RemoveClient. unfold client_of in Habs.
    destruct (clients sm0 !! docID) as [m|]; simpl in *; [|reflexivity].
    by rewrite Habs. }
  split; [|split].
  - intros d c Hne. unfold client_of, RemoveClient.
    destruct (clients sm !! docID) as [m|] eqn:Hm; [|reflexivity].
    destruct (m !! clientID) as [cl|] eqn:Hcl; [|reflexivity].
    case_bool_decide as Hsize; simpl.
    + destruct (decide (d = docID)) as [->|Hd].
      * rewrite lookup_delete_eq, Hm. simpl.
        apply map_size_empty_iff in Hsize.
        assert (Hc : c <> clientID) by (intros ->; by apply Hne).
        rewrite <- (lookup_delete_ne m clientID c) by done.
        rewrite Hsize. by rewrite lookup_empty.
      * by rewrite lookup_delete_ne.
    + destruct (decide (d = docID)) as [->|Hd].
      * rewrite lookup_insert_eq, Hm. simpl.
        rewrite lookup_delete_ne; [reflexivity|]. intros <-. by apply Hne.
      * by rewrite lookup_insert_ne.
  - apply Habsent.
  - apply Habsent. apply client_of_RemoveClient.
Qed.

End BroadcasterExtras.

(* ===================================================================== *)
(** * Properties of the session manager *)
(* ===================================================================== *)

Section Sessions.
Import auth.

(** X7: the life of a session.  A created session is returned by
    [GetSession] at every instant up to and including its expiry, 24 hours
    after its creation, and at no later instant; creating it changes the
    answer for no other identifier; after [DeleteSession] it is not
    returned at any instant; and when no identifier could be drawn,
    nothing is stored. *)
Theorem session_lifecycle (userID sessionID : string) (now t : Z)
    (sm : SessionManager) :
  let sm' := (CreateSession userID (Some sessionID) now sm).2 in
  GetSession sessionID t sm'
  = (if (t <=? now + sessionExpiry)%Z
     then Some {| UserID := userID; ExpiresAt := now + sessionExpiry |}
     else None) /\
  (forall other, other <> sessionID -> GetSession other t sm' = GetSession other t sm) /\
  GetSession sessionID t (DeleteSession sessionID sm') = None /\
  CreateSession userID None now sm = (None, sm).
Proof.
  simpl. repeat split.
  - unfold GetSession. simpl. rewrite lookup_insert_eq. simpl.
    destruct (Z.ltb_spec (now + sessionExpiry) t), (Z.leb_spec t (now + sessionExpiry));
      try reflexivity; lia.
  - intros other Hne. unfold GetSession. simpl. by rewrite lookup_insert_ne.
  - unfold GetSession, DeleteSession. simpl. by rewrite lookup_delete_eq.
Qed.

(** The loop of the cleanup over distinct entries of the map it prunes:
    an entry is deleted exactly when it was expired at the reading taken
    for it. *)
Lemma cleanup_loop_lookup (l : list (string * Session)) (clock : nat -> Z) (i : nat)
    (m : gmap string Session) (k : string) :
  NoDup l.*1 ->
  cleanup_loop l clock i m !! k
  = match list_find (fun e => e.1 = k) l with
    | Some (j, e) => if (ExpiresAt e.2 <? clock (i + j)%nat)%Z then None else m !! k
    | None => m !! k
    end.
Proof.
  revert i m. induction l as [|[k0 s0] l IH]; intros i m Hnd; [reflexivity|].
  rewrite fmap_cons in Hnd. apply NoDup_cons in Hnd as [Hk0 Hnd]. cbn [cleanup_loop].
  rewrite (IH _ _ Hnd). cbn [list_find]. simpl.
  destruct (decide (k0 = k)) as [->|Hne]; simpl.
  - destruct (list_find (fun e => e.1 = k) l) as [[j e]|] eqn:Hfind.
    + exfalso. apply list_find_Some in Hfind as (Hj & He & _).
      apply Hk0. apply list_elem_of_fmap. exists e. split; [by rewrite He|].
      by apply list_elem_of_lookup_2 in Hj.
    + rewrite Nat.add_0_r.
      destruct (ExpiresAt s0 <? clock i)%Z; [apply lookup_delete_eq|reflexivity].
  - destruct (list_find (fun e => e.1 = k) l) as [[j e]|] eqn:Hfind; simpl.
    + replace (i + S j)%nat with (S (i + j))%nat by lia.
      destruct (ExpiresAt e.2 <? clock (S (i + j)))%Z; [reflexivity|].
      destruct (ExpiresAt s0 <? clock i)%Z; [by rewrite lookup_delete_ne|reflexivity].
    + destruct (ExpiresAt s0 <? clock i)%Z; [by rewrite lookup_delete_ne|reflexivity].
Qed.

(** After a tick, a stored session is either kept as it was or, having
    been expired at one of the tick's readings, gone. *)
Lemma cleanup_tick_lookup (clock : nat -> Z) (o : range_order) (sm : SessionManager)
    (k : string) :
  visits_each_once o ->
  match sessions sm !! k with
  | Some session =>
      exists j, sessions (cleanup_tick clock o sm) !! k
                = if (ExpiresAt session <? clock j)%Z then None else Some session
  | None => sessions (cleanup_tick clock o sm) !! k = None
  end.
Proof.
  intros Ho. unfold cleanup_tick. simpl.
  rewrite (cleanup_loop_lookup _ clock 0 _ k (range_NoDup o (sessions sm) Ho)).
  destruct (list_find (fun e => e.1 = k) (range o (sessions sm))) as [[j [k' s]]|] eqn:Hfind.
  - apply list_find_Some in Hfind as (Hj & He & _). simpl in He. subst k'.
    apply list_elem_of_lookup_2 in Hj. apply (range_elem_of o) in Hj; [|exact Ho].
    rewrite Hj. exists j. reflexivity.
  - destruct (sessions sm !! k) as [s|] eqn:Hk; [|reflexivity].
    exfalso. apply (range_elem_of o) in Hk; [|exact Ho].
    apply list_elem_of_lookup_1 in Hk as [j Hj].
    pose proof (proj1 (list_find_None _ _) Hfind) as Hall.
    rewrite Forall_forall in Hall.
    apply (Hall (k, s)); [by apply list_elem_of_lookup_2 in Hj|reflexivity].
Qed.

(** X8: the cleanup is not observable.  A tick of the cleanup, whatever the
    order of its loop, removes every session that was expired before the
    tick began, keeps every session that is unexpired when it ends,
    stores nothing new, and changes the answer of [GetSession] at no
    instant from the tick's last reading on. *)
Theorem cleanup_tick_transparent (clock : nat -> Z) (o : range_order)
    (sm : SessionManager) :
  visits_each_once o ->
  (forall k session, sessions sm !! k = Some session ->
     (forall j, (ExpiresAt session < clock j)%Z) ->
     sessions (cleanup_tick clock o sm) !! k = None) /\
  (forall k session, sessions sm !! k = Some session ->
     (forall j, (clock j <= ExpiresAt session)%Z) ->
     sessions (cleanup_tick clock o sm) !! k = Some session) /\
  sessions (cleanup_tick clock o sm) ⊆ sessions sm /\
  (forall k t, (forall j, (clock j <= t)%Z) ->
     GetSession k t (cleanup_tick clock o sm) = GetSession k t sm).
Proof.
  intros Ho. repeat split.
  - intros k s Hk Hexp. pose proof (cleanup_tick_lookup clock o sm k Ho) as Hl.
    rewrite Hk in Hl. destruct Hl as [j ->].
    destruct (Z.ltb_spec (ExpiresAt s) (clock j)); [reflexivity|].
    specialize (Hexp j). lia.
  - intros k s Hk Hlive. pose proof (cleanup_tick_lookup clock o sm k Ho) as Hl.
    rewrite Hk in Hl. destruct Hl as [j ->].
    destruct (Z.ltb_spec (ExpiresAt s) (clock j)); [|reflexivity].
    specialize (Hlive j). lia.
  - apply map_subseteq_spec. intros k s Hk.
    pose proof (cleanup_tick_lookup clock o sm k Ho) as Hl.
    destruct (sessions sm !! k) as [s'|]; [|congruence].
    destruct Hl as [j Hl]. rewrite Hl in Hk.
    destruct (ExpiresAt s' <? clock j)%Z; congruence.
  - intros k t Hlate. unfold GetSession.
    pose proof (cleanup_tick_lookup clock o sm k Ho) as Hl.
    destruct (sessions sm !! k) as [s|]; [|by rewrite Hl].
    destruct Hl as [j ->].
    destruct (Z.ltb_spec (ExpiresAt s) (clock j)); [|reflexivity].
    destruct (Z.ltb_spec (ExpiresAt s) t); [reflexivity|].
    specialize (Hlate j). lia.
Qed.

End Sessions.

(* ===================================================================== *)
(** * Properties of the plugin registry *)
(* ===================================================================== *)

Section Plugins.
Import plugin.

(** X9: the first registration stands.  After any run of registrations the
    registry holds what it held before and, for every other name, the
    plugin of the first registration under that name; a later
    registration under a taken name returns an error and changes
    nothing. *)
Theorem register_all_first_wins (regs : list (string * Value)) (pr : PluginRegistry) :
  plugins (register_all regs pr) = plugins pr ∪ list_to_map regs /\
  (forall name p, is_Some (GetPlugin name pr) ->
     is_Some (RegisterPlugin name p pr).1 /\ (RegisterPlugin name p pr).2 = pr).
Proof.
  split.
  - revert pr. induction regs as [|[k v] regs IH]; intros pr.
    + simpl. by rewrite (right_id ∅ (∪)).
    + cbn [register_all fold_left]. fold (register_all regs).
      rewrite IH. unfold RegisterPlugin. simpl.
      destruct (plugins pr !! k) as [old|] eqn:Hk; simpl.
      * rewrite insert_union_singleton_l, (assoc (∪)). f_equal.
        apply map_eq. intros j. rewrite lookup_union.
        destruct (decide (j = k)) as [->|Hne].
        -- rewrite Hk, lookup_singleton_eq. reflexivity.
        -- rewrite lookup_singleton_ne by done. by destruct (plugins pr !! j).
      * rewrite (insert_union_singleton_l (list_to_map regs)), (assoc (∪)). f_equal.
        rewrite insert_union_singleton_l. apply map_union_comm.
        apply map_disjoint_singleton_l. exact Hk.
  - intros name p [old Hold]. unfold RegisterPlugin, GetPlugin in *. rewrite Hold.
    simpl. eauto.
Qed.

End Plugins.

(* ===================================================================== *)
(** * Properties of the metrics *)
(* ===================================================================== *)

Section Metrics.
Import metrics.

Lemma sum_Z_app (l1 l2 : list Z) : sum_Z (l1 ++ l2) = (sum_Z l1 + sum_Z l2)%Z.
Proof. unfold sum_Z. induction l1 as [|x l1 IH]; simpl; [reflexivity|]. rewrite IH. lia. Qed.

Lemma sum_Z_cons (x : Z) (l : list Z) : sum_Z (x :: l) = (x + sum_Z l)%Z.
Proof. reflexivity. Qed.

Lemma durations_of_app (p : string) (l1 l2 : list (string * Z)) :
  durations_of p (l1 ++ l2) = durations_of p l1 ++ durations_of p l2.
Proof. unfold durations_of. by rewrite filter_app, fmap_app. Qed.

Lemma durations_of_bounds (p : string) (reqs : list (string * Z)) :
  Forall (fun req => (0 <= req.2)%Z) reqs ->
  (0 <= sum_Z (durations_of p reqs) <= sum_Z reqs.*2)%Z /\
  (length (durations_of p reqs) <= length reqs)%nat.
Proof.
  induction 1 as [|[q d] reqs Hd _ IH]; [unfold durations_of, sum_Z; simpl; lia|].
  unfold durations_of in *. rewrite filter_cons. simpl in Hd.
  rewrite (fmap_cons snd (q, d) reqs), sum_Z_cons, length_cons. simpl fst. simpl snd.
  destruct (decide (q = p)); rewrite ?fmap_cons, ?sum_Z_cons, ?length_cons;
    simpl snd; lia.
Qed.

(** A run of recordings from a state that shows the metrics of the
    requests made so far. *)
Lemma record_all_inv (rest done : list (string * Z)) (mm : MetricsManager) :
  (forall p, metrics mm !! p = expected_metrics (durations_of p done)) ->
  Forall (fun req => (0 <= req.2)%Z) (done ++ rest) ->
  (sum_Z (done ++ rest).*2 < 2 ^ 63)%Z ->
  (Z.of_nat (length (done ++ rest)) < 2 ^ 63)%Z ->
  (record_all rest mm).2 = true /\
  forall p, metrics (record_all rest mm).1 !! p
            = expected_metrics (durations_of p (done ++ rest)).
Proof.
  revert done mm. induction rest as [|[p0 d] rest IH]; intros done mm Hinv Hpos Hsum Hlen.
  - simpl. rewrite app_nil_r. done.
  - replace (done ++ (p0, d) :: rest) with ((done ++ [(p0, d)]) ++ rest) in *
      by (by rewrite <- app_assoc).
    assert (Hpos' : Forall (fun req => (0 <= req.2)%Z) (done ++ [(p0, d)])).
    { apply Forall_app in Hpos as [Hpos _]. exact Hpos. }
    assert (Hrest : Forall (fun req => (0 <= req.2)%Z) rest).
    { apply Forall_app in Hpos as [_ Hpos]. exact Hpos. }
    destruct (durations_of_bounds p0 (done ++ [(p0, d)]) Hpos') as [Hb1 Hb2].
    destruct (durations_of_bounds p0 rest Hrest) as [Hr1 _].
    assert (Hrest_sum : (0 <= sum_Z rest.*2)%Z).
    { lia. }
    rewrite fmap_app, sum_Z_app in Hsum. rewrite length_app in Hlen.
    assert (Hd0 : durations_of p0 (done ++ [(p0, d)]) = durations_of p0 done ++ [d]).
    { rewrite durations_of_app. f_equal. unfold durations_of.
      rewrite filter_cons, decide_True by reflexivity. reflexivity. }
    rewrite Hd0 in Hb1, Hb2. rewrite sum_Z_app in Hb1. rewrite length_app in Hb2.
    unfold sum_Z at 2 in Hb1. simpl in Hb1, Hb2.
    set (ds0 := durations_of p0 done) in *.
    assert (Hm : RequestCount (default {| RequestCount := 0; TotalLatency := 0;
                                           AvgLatency := 0 |} (metrics mm !! p0))
                 = Z.of_nat (length ds0) /\
                 TotalLatency (default {| RequestCount := 0; TotalLatency := 0;
                                          AvgLatency := 0 |} (metrics mm !! p0))
                 = sum_Z ds0).
    { rewrite Hinv. fold ds0. destruct ds0; simpl; split; reflexivity. }
    destruct Hm as [Hcount Htotal].
    assert (Hstep : RecordRequest p0 d mm
                    = ({| metrics :=
                            <[p0 := {| RequestCount := Z.of_nat (length ds0) + 1;
                                       TotalLatency := sum_Z ds0 + d;
                                       AvgLatency :=
                                         Z.quot (sum_Z ds0 + d)
                                           (Z.of_nat (length ds0) + 1) |}]>
                              (metrics mm) |}, true)).
    { unfold RecordRequest. rewrite Hcount, Htotal.
      rewrite (wrap_int_small (Z.of_nat (length ds0) + 1)) by lia.
      rewrite (wrap_int_small (sum_Z ds0 + d)) by lia.
      destruct (Z.eqb_spec (Z.of_nat (length ds0) + 1) 0) as [Hz|_]; [lia|].
      rewrite wrap_int_small; [reflexivity|].
      pose proof (Z.quot_pos (sum_Z ds0 + d) (Z.of_nat (length ds0) + 1)
                    ltac:(lia) ltac:(lia)).
      pose proof (Z.quot_le_upper_bound (sum_Z ds0 + d) (Z.of_nat (length ds0) + 1)
                    (sum_Z ds0 + d) ltac:(lia) ltac:(nia)).
      lia. }
    cbn [record_all]. rewrite Hstep. apply (IH (done ++ [(p0, d)])).
    + intros p. simpl. destruct (decide (p = p0)) as [->|Hne].
      * rewrite lookup_insert_eq, Hd0. fold ds0.
        unfold expected_metrics.
        destruct (ds0 ++ [d]) as [|x l] eqn:Happ; [by destruct ds0|].
        rewrite <- Happ, sum_Z_app, length_app. unfold sum_Z at 2 4. simpl.
        repeat f_equal; lia.
      * rewrite lookup_insert_ne by done. rewrite Hinv, durations_of_app.
        unfold durations_of at 3. rewrite filter_cons, decide_False by (simpl; congruence).
        simpl. by rewrite app_nil_r.
    + exact Hpos.
    + rewrite fmap_app, sum_Z_app. exact Hsum.
    + rewrite length_app. exact Hlen.
Qed.

(** X10: per-path count, sum and mean.  After any run of requests with
    non-negative durations whose number and total stay within 63 bits,
    no recording has panicked and [GetMetrics] shows, for every path that
    was requested, the number of its requests, the sum of their durations
    and the quotient of the two, and no entry for any other path. *)
Theorem record_all_per_path (reqs : list (string * Z)) :
  Forall (fun req => (0 <= req.2)%Z) reqs ->
  (sum_Z reqs.*2 < 2 ^ 63)%Z ->
  (Z.of_nat (length reqs) < 2 ^ 63)%Z ->
  (record_all reqs NewMetricsManager).2 = true /\
  forall p, GetMetrics (record_all reqs NewMetricsManager).1 !! p
            = expected_metrics (durations_of p reqs).
Proof.
  intros Hpos Hsum Hlen.
  apply (record_all_inv reqs [] NewMetricsManager); done.
Qed.

End Metrics.

(* ===================================================================== *)
(** * Further properties of dispatch *)
(* ===================================================================== *)

Section DispatchExtras.
Context {W : Type} `{!http.ResponseWriter W}.

Lemma applyMiddleware_app (h : HandlerFunc W) (l1 l2 : list (MiddlewareFunc W)) :
  applyMiddleware h (l1 ++ l2) = applyMiddleware (applyMiddleware h l2) l1.
Proof. induction l1 as [|mw l1 IH]; simpl; [reflexivity|]. by rewrite IH. Qed.

(** X11: the whole chain.  For a request that some route of its method
    matches, [ServeHTTP] applies once, to the fresh context carrying the
    selected route's parameters, the route's handler wrapped in the
    engine's middleware, then the route's before-middleware, then its
    after-middleware, the first unit of that list outermost; an error
    returned by the chain goes to the error handler together with the
    context the chain left, and without an error the handler is not
    called.  The selected route is a longest match. *)
Theorem ServeHTTP_full_chain (e : Engine W) (o : range_order) (w : W)
    (r : http.Request) (log : Logger) (methodRoutes : gmap string (route W)) :
  visits_each_once o ->
  routes (router e) !! http.Method r = Some methodRoutes ->
  (exists p rt, methodRoutes !! p = Some rt /\ matches_path rt (http.URL_Path r)) ->
  exists p rt,
    methodRoutes !! p = Some rt /\
    longest_match methodRoutes (http.URL_Path r) p /\
    ServeHTTP e o w r log
    = report e
        (applyMiddleware (handler rt) (middleware e ++ before rt ++ after rt)
           (SetPathParams (route_params rt (http.URL_Path r)) (newContext w r log))).
Proof.
  intros Ho Hr (p0 & rt0 & Hp0 & Hm0).
  destruct (MatchRoute_spec (router e) o (http.Method r) (http.URL_Path r)
              methodRoutes Ho Hr)
    as [[_ Hnone]|(p & rt & Hp & Hlong & Hsel)].
  - exfalso. by apply (Hnone _ _ Hp0).
  - exists p, rt. split; [exact Hp|]. split; [exact Hlong|].
    unfold ServeHTTP. rewrite Hsel. unfold selects, chainedHandler.
    rewrite !applyMiddleware_app.
    destruct (applyMiddleware _ (middleware e) _) as [[err|] c']; reflexivity.
Qed.

Lemma Handler_newRouter (rb : RouteBuilder W) (r : Router W) :
  Handler rb newRouter = Some r ->
  exists re names,
    routes r !! rb_method rb
    = Some {[rb_path rb :=
               {| handler := rb_handler rb; pattern := rb_path rb;
                  before := beforeMW rb; after := afterMW rb;
                  regex := re; paramNames := names |}]}.
Proof.
  unfold Handler. destruct (compile_pattern (rb_path rb)) as [text names].
  destruct (regexp.Compile text) as [re|]; simpl; [|discriminate].
  intros [= <-]. exists re, names. simpl. rewrite lookup_insert_eq.
  by rewrite lookup_empty.
Qed.

(** X12: groups.  A route registered through a group, with more before- and
    after-middleware added on the builder, is stored under the group's
    prefix followed by the route's path, and a request it matches runs
    the handler wrapped in: the engine's middleware, the group's, the
    route's before-middleware, the route's after-middleware, outermost
    first. *)
Theorem group_route_chain (rg : RouterGroup) (path : string) (h : HandlerFunc W)
    (bs afters gs : list (MiddlewareFunc W)) (eh : error -> Context W -> Context W)
    (r : Router W) (o : range_order) (w : W) (requestPath : string) (log : Logger) :
  visits_each_once o ->
  Handler (After afters (Before bs (Group_GET rg path h))) newRouter = Some r ->
  fst (MatchRoute r o http.MethodGet requestPath) <> None ->
  exists rt,
    routes r !! http.MethodGet = Some {[prefix rg +:+ path := rt]} /\
    ServeHTTP {| router := r; middleware := gs; errorHandler := eh |} o w
      {| http.Method := http.MethodGet; http.URL_Path := requestPath |} log
    = report {| router := r; middleware := gs; errorHandler := eh |}
        (applyMiddleware h (gs ++ group_middleware rg ++ bs ++ afters)
           (SetPathParams (route_params rt requestPath)
              (newContext w {| http.Method := http.MethodGet;
                               http.URL_Path := requestPath |} log))).
Proof.
  intros Ho Hreg Hfound.
  destruct (Handler_newRouter _ _ Hreg) as (re & names & Hr).
  pose (rt := {| handler := h; pattern := prefix rg +:+ path;
                 before := group_middleware rg ++ bs; after := afters;
                 regex := re; paramNames := names |}).
  assert (Hr' : routes r !! http.MethodGet = Some {[prefix rg +:+ path := rt]})
    by exact Hr.
  clear Hr. rename Hr' into Hr.
  exists rt. split; [exact Hr|].
  rewrite (MatchRoute_single r o _ requestPath _ _ Ho Hr) in Hfound.
  assert (Hm : matches_path rt requestPath).
  { unfold matches_path. unfold match_step in Hfound.
    destruct (regexp.FindStringSubmatch (regex rt) requestPath); [eauto|].
    exfalso. by apply Hfound. }
  unfold ServeHTTP. cbn [http.Method http.URL_Path router middleware].
  rewrite (MatchRoute_single r o _ requestPath _ _ Ho Hr).
  rewrite (match_step_first requestPath _ rt Hm).
  cbn [bestMatchHandler bestMatchParams].
  unfold chainedHandler. cbn [handler before after rt].
  rewrite !applyMiddleware_app.
  destruct (applyMiddleware _ gs _) as [[err|] c']; reflexivity.
Qed.

(** X13: short circuit.  When a unit of a route's before-middleware answers
    without calling [next], [ServeHTTP] is the outcome of that answer
    inside the units before it: the route's handler, its after-middleware
    and the later before-units are never applied, while the engine's
    middleware and the earlier before-units still wrap the answer. *)
Theorem short_circuit (e : Engine W) (o : range_order) (w : W) (log : Logger)
    (method pat requestPath : string) (rt : route W)
    (bs1 bs2 : list (MiddlewareFunc W)) (answer : HandlerFunc W) :
  visits_each_once o ->
  routes (router e) !! method = Some {[pat := rt]} ->
  matches_path rt requestPath ->
  before rt = bs1 ++ block answer :: bs2 ->
  ServeHTTP e o w {| http.Method := method; http.URL_Path := requestPath |} log
  = report e
      (applyMiddleware answer (middleware e ++ bs1)
         (SetPathParams (route_params rt requestPath)
            (newContext w {| http.Method := method; http.URL_Path := requestPath |}
               log))).
Proof.
  intros Ho Hr Hm Hb.
  unfold ServeHTTP. simpl http.Method. simpl http.URL_Path.
  rewrite (MatchRoute_single _ o method requestPath pat rt Ho Hr).
  rewrite (match_step_first requestPath pat rt Hm).
  cbn [bestMatchHandler bestMatchParams].
  unfold chainedHandler. rewrite Hb.
  rewrite !applyMiddleware_app. cbn [applyMiddleware]. unfold block.
  destruct (applyMiddleware (applyMiddleware answer bs1) (middleware e) _)
    as [[err|] c']; reflexivity.
Qed.

(** X14: registration touches one entry.  Registering a pattern that the
    method already has replaces the earlier route, as if the earlier
    registration had not been made; and a registration changes the
    resolution of no request of another method. *)
Theorem Handler_replaces_and_frames (rb1 rb2 : RouteBuilder W) (r r1 : Router W) :
  Handler rb1 r = Some r1 ->
  (rb_method rb1 = rb_method rb2 -> rb_path rb1 = rb_path rb2 ->
   Handler rb2 r1 = Handler rb2 r) /\
  (forall o method requestPath, method <> rb_method rb1 ->
     MatchRoute r1 o method requestPath = MatchRoute r o method requestPath).
Proof.
  intros H1. unfold Handler in H1.
  destruct (compile_pattern (rb_path rb1)) as [text1 names1].
  destruct (regexp.Compile text1) as [re1|]; simpl in H1; [|discriminate].
  injection H1 as <-. split.
  - intros Hmeth Hpath. unfold Handler.
    destruct (compile_pattern (rb_path rb2)) as [text2 names2].
    destruct (regexp.Compile text2) as [re2|]; simpl; [|reflexivity].
    rewrite Hmeth, Hpath. rewrite lookup_insert_eq. simpl.
    by rewrite !insert_insert_eq.
  - intros o method requestPath Hne. unfold MatchRoute. simpl.
    by rewrite lookup_insert_ne.
Qed.

End DispatchExtras.

(* ===================================================================== *)
(** * Further properties of the request context *)
(* ===================================================================== *)

Section ContextExtras.
Context {W : Type} `{!http.ResponseWriter W}.

Lemma Get_do_call (key : string) (a : call) (c : Context W) :
  Get key (do_call c a)
  = match a with
    | CallSet k v => if String.eqb k key then Some v else Get key c
    | _ => Get key c
    end.
Proof.
  destruct a as [code|b|k v|params|level line]; try reflexivity.
  unfold do_call, Set_, Get. simpl.
  destruct (String.eqb_spec k key) as [->|Hne].
  - by rewrite lookup_insert_eq.
  - by rewrite lookup_insert_ne.
Qed.

(** X15: the request-scoped store.  After any sequence of calls on a
    context, [Get] of a key returns the value of the last [Set] of that
    key, or what the context held before when the sequence sets the key
    nowhere: writing the response, logging and replacing the path
    parameters never touch the store.  [TraceID] is the string last set
    under [traceID], and the empty string when that value is not a
    string or the key is absent. *)
Theorem Get_reads_last_Set (key : string) (calls : list call) (c : Context W) :
  (Get key (do_calls calls c)
   = match last_set key calls with
     | Some v => Some v
     | None => Get key c
     end) /\
  (TraceID (do_calls calls c)
   = match last_set "traceID" calls with
     | Some (VString traceIDStr) => traceIDStr
     | Some _ => EmptyString
     | None => TraceID c
     end).
Proof.
  assert (Hget : forall key calls (c : Context W),
    Get key (do_calls calls c)
    = match last_set key calls with Some v => Some v | None => Get key c end).
  { clear. intros key calls. induction calls as [|a calls IH]; intros c.
    - reflexivity.
    - unfold do_calls. cbn [fold_left]. fold (do_calls calls (do_call c a)).
      rewrite IH. cbn [last_set].
      destruct (last_set key calls) as [v|]; [reflexivity|].
      rewrite Get_do_call. destruct a as [code|b|k v|params|level line]; try reflexivity.
      by destruct (String.eqb k key). }
  split; [apply Hget|].
  unfold TraceID. rewrite Hget.
  destruct (last_set "traceID" calls) as [[s|z|b]|]; reflexivity.
Qed.

Lemma bind_params_lookup (names : list string) (matches : list string) (i : nat)
    (params : gmap string string) (name : string) :
  NoDup names ->
  bind_params i names matches params !! name
  = match list_find (fun n => n = name) names with
    | Some (j, _) =>
        match matches !! (i + j + 1)%nat with
        | Some v => Some v
        | None => params !! name
        end
    | None => params !! name
    end.
Proof.
  revert i params. induction names as [|n names IH]; intros i params Hnd.
  - reflexivity.
  - apply NoDup_cons in Hnd as [Hn Hnd]. cbn [bind_params list_find].
    rewrite IH by done. destruct (decide (n = name)) as [->|Hne].
    + assert (Hfind : list_find (fun n => n = name) names = None).
      { apply list_find_None, Forall_forall. intros x Hx ->. by apply Hn. }
      rewrite Hfind. cbn. replace (i + 0 + 1)%nat with (i + 1)%nat by lia.
      destruct (matches !! (i + 1)%nat) as [v|]; [by rewrite lookup_insert_eq|done].
    + destruct (list_find (fun n => n = name) names) as [[j x]|]; cbn.
      * replace (S (i + j + 1))%nat with (i + S j + 1)%nat by lia.
        destruct (matches !! (i + S j + 1)%nat) as [v|]; [done|].
        destruct (matches !! (i + 1)%nat); [by rewrite lookup_insert_ne|done].
      * destruct (matches !! (i + 1)%nat); [by rewrite lookup_insert_ne|done].
Qed.

(** X16: parameters by position.  For a route whose parameter names are
    pairwise different and a path it matches, [Param] of the name at
    position [j] reads capture number [j+1] of the match, a name without
    a capture and a name the route does not have read as the empty
    string. *)
Theorem Param_reads_capture (rt : route W) (requestPath : string)
    (matches : list string) (c : Context W) (name : string) :
  NoDup (paramNames rt) ->
  regexp.FindStringSubmatch (regex rt) requestPath = Some matches ->
  Param name (SetPathParams (route_params rt requestPath) c)
  = match list_find (fun n => n = name) (paramNames rt) with
    | Some (j, _) => default EmptyString (matches !! (j + 1)%nat)
    | None => EmptyString
    end.
Proof.
  intros Hnd Hms. unfold Param, SetPathParams, route_params. cbn [pathParams].
  rewrite Hms. cbn. rewrite bind_params_lookup by done.
  destruct (list_find (fun n => n = name) (paramNames rt)) as [[j x]|]; cbn.
  - by destruct (matches !! (j + 1)%nat).
  - reflexivity.
Qed.

End ContextExtras.

(* ===================================================================== *)
(** * Properties of the configuration manager *)
(* ===================================================================== *)

Section Config.
Import config.

(** X17: precedence of the environment.  A name the environment defines
    with a value that is not empty reads as that value whatever was
    [Set]; any other name, one the environment defines as empty
    included, reads as the value last [Set] for it, a [Set] of another
    name changing nothing, and as the empty string when it was never
    set. *)
Theorem Get_prefers_environment (env : gmap string string) (key k value : string)
    (cm : ConfigManager) :
  (Getenv env key <> EmptyString ->
   Get env key (Set_ k value cm) = Getenv env key) /\
  (Getenv env key = EmptyString ->
   Get env key (Set_ key value cm) = value /\
   (k <> key -> Get env key (Set_ k value cm) = Get env key cm) /\
   Get env key NewConfigManager = EmptyString).
Proof.
  unfold Get. split.
  - intros Hne. apply String.eqb_neq in Hne. by rewrite Hne.
  - intros ->. cbn. split; [|split].
    + by rewrite lookup_insert_eq.
    + intros Hk. by rewrite lookup_insert_ne.
    + reflexivity.
Qed.

End Config.

(* ===================================================================== *)
(** * Patterns of fixed segments and plain parameters *)
(* ===================================================================== *)

Section Strings.

Lemma append_cons (c : ascii) (a b : string) : String c a +:+ b = String c (a +:+ b).
Proof. reflexivity. Qed.

Lemma append_nil_l (s : string) : EmptyString +:+ s = s.
Proof. reflexivity. Qed.

Lemma chars_app (a b : string) :
  list_ascii_of_string (a +:+ b) = list_ascii_of_string a ++ list_ascii_of_string b.
Proof.
  induction a as [|c a IH]; [reflexivity|].
  rewrite append_cons. simpl. by rewrite IH.
Qed.

Lemma chars_length (s : string) : length (list_ascii_of_string s) = String.length s.
Proof. induction s as [|c s IH]; simpl; [reflexivity|]. by rewrite IH. Qed.

Lemma append_nil_r (s : string) : s +:+ EmptyString = s.
Proof. induction s as [|c s IH]; [reflexivity|]. rewrite append_cons. by rewrite IH. Qed.

Lemma append_assoc (a b c : string) : (a +:+ b) +:+ c = a +:+ (b +:+ c).
Proof.
  induction a as [|x a IH]; [reflexivity|]. rewrite !append_cons. by rewrite IH.
Qed.

Lemma substring_full (s : string) : String.substring 0 (String.length s) s = s.
Proof. induction s as [|c s IH]; simpl; [reflexivity|]. by rewrite IH. Qed.

Lemma substring_at (pre v post : list ascii) :
  String.substring (length pre) (length v) (string_of_list_ascii (pre ++ v ++ post))
  = string_of_list_ascii v.
Proof.
  induction pre as [|c pre IH]; simpl.
  - induction v as [|c v IHv]; simpl.
    + by destruct (string_of_list_ascii post).
    + by rewrite IHv.
  - exact IH.
Qed.

Lemma has_byte_cons (b c : ascii) (s : string) :
  has_byte b (String c s) = Ascii.eqb b c || has_byte b s.
Proof. reflexivity. Qed.

End Strings.

Section PatternText.

Lemma Split_no_slash (p s hd : string) (tl : list string) :
  has_byte "/" p = false ->
  GoStrings.Split s "/" = hd :: tl ->
  GoStrings.Split (p +:+ s) "/" = (p +:+ hd) :: tl.
Proof.
  intros Hp Hs. induction p as [|c p IH]; [exact Hs|].
  rewrite has_byte_cons in Hp. apply orb_false_elim in Hp as [Hc Hp].
  rewrite append_cons. cbn [GoStrings.Split].
  rewrite Ascii.eqb_sym, Hc, (IH Hp). reflexivity.
Qed.

Lemma Split_join (parts : list string) :
  forallb (fun p => negb (has_byte "/" p)) parts = true ->
  GoStrings.Split (join_path parts) "/" = EmptyString :: parts.
Proof.
  induction parts as [|p parts IH]; intros Hok; [reflexivity|].
  cbn [forallb] in Hok. apply andb_prop in Hok as [Hp Hok].
  apply negb_true_iff in Hp.
  change (join_path (p :: parts)) with (String "/" (p +:+ join_path parts)).
  cbn [GoStrings.Split]. change (Ascii.eqb "/" "/") with true. cbn iota.
  rewrite (Split_no_slash p _ EmptyString parts Hp (IH Hok)).
  by rewrite append_nil_r.
Qed.

Lemma segment_text_no_slash (sg : segment) :
  segment_ok sg = true -> has_byte "/" (segment_text sg) = false.
Proof.
  destruct sg as [text|name]; simpl; intros Hok.
  - apply andb_prop in Hok as [_ Hok]. by apply negb_true_iff in Hok.
  - apply andb_prop in Hok as [Hok _]. apply negb_true_iff in Hok.
    change (":" +:+ name) with (String ":" name). by rewrite has_byte_cons, Hok.
Qed.

Lemma Index_None (s : string) (b : ascii) :
  has_byte b s = false -> GoStrings.Index s b = None.
Proof.
  induction s as [|c s IH]; [reflexivity|]. rewrite has_byte_cons.
  intros [Hc Hs]%orb_false_elim. cbn [GoStrings.Index].
  rewrite Ascii.eqb_sym, Hc, (IH Hs). reflexivity.
Qed.

Lemma compile_part_segment (sg : segment) (rePattern : string) (names : list string) :
  segment_ok sg = true ->
  compile_part (rePattern, names) (segment_text sg)
  = (rePattern +:+ seg_re sg, names ++ param_names [sg]).
Proof.
  destruct sg as [text|name]; cbn [segment_ok segment_text seg_re param_names]; intros Hok.
  - apply andb_prop in Hok as [Hok _]. apply andb_prop in Hok as [Hok Hcolon].
    apply andb_prop in Hok as [Hempty Hstar].
    apply negb_true_iff in Hcolon, Hstar. unfold compile_part.
    rewrite Hcolon, Hstar, Hempty. by rewrite app_nil_r.
  - apply andb_prop in Hok as [_ Hparen]. apply negb_true_iff in Hparen.
    unfold compile_part.
    assert (Hcolon : GoStrings.HasPrefix (":" +:+ name) ":" = true).
    { unfold GoStrings.HasPrefix. change (":" +:+ name) with (String ":" name).
      cbn [String.prefix]. destruct (ascii_dec ":" ":"); [by destruct name|done]. }
    rewrite Hcolon.
    assert (Hname : GoStrings.slice_from (":" +:+ name) 1 = name).
    { unfold GoStrings.slice_from. change (":" +:+ name) with (String ":" name).
      cbn [String.length].
      replace (S (String.length name) - 1)%nat with (String.length name) by lia.
      cbn [String.substring]. apply substring_full. }
    rewrite Hname, (Index_None name "(" Hparen). reflexivity.
Qed.

Lemma compile_parts_segments (segs : list segment) (rePattern tail : string)
    (names : list string) :
  forallb segment_ok segs = true ->
  (fold_left compile_part (segment_text <$> segs) (rePattern, names)).1 +:+ tail
  = rePattern +:+ segs_re segs tail /\
  (fold_left compile_part (segment_text <$> segs) (rePattern, names)).2
  = names ++ param_names segs.
Proof.
  revert rePattern names. induction segs as [|sg segs IH]; intros rePattern names Hok.
  - split; [reflexivity|]. by rewrite app_nil_r.
  - cbn [forallb] in Hok. apply andb_prop in Hok as [Hsg Hok].
    rewrite fmap_cons. cbn [fold_left]. rewrite (compile_part_segment sg _ _ Hsg).
    destruct (IH (rePattern +:+ seg_re sg) (names ++ param_names [sg]) Hok) as [-> ->].
    split.
    + cbn [segs_re]. by rewrite append_assoc.
    + rewrite <- app_assoc. by destruct sg.
Qed.

(** The expression text and the names [Handler] derives from a pattern
    of such segments. *)
Lemma segment_texts_no_slash (segs : list segment) :
  forallb segment_ok segs = true ->
  forallb (fun p => negb (has_byte "/" p)) (segment_text <$> segs) = true.
Proof.
  intros Hok. rewrite forallb_forall in Hok. apply forallb_forall. intros p Hp.
  apply in_map_iff in Hp as (sg & <- & Hsg).
  by rewrite (segment_text_no_slash sg (Hok sg Hsg)).
Qed.

Lemma compile_pattern_segments (segs : list segment) :
  forallb segment_ok segs = true ->
  compile_pattern (pattern_of segs)
  = ("^" +:+ segs_re segs (end_re PlainEnd), param_names segs).
Proof.
  intros Hok. unfold compile_pattern, pattern_of.
  rewrite Split_join by by apply segment_texts_no_slash.
  cbn [fold_left].
  change (compile_part ("^", []) EmptyString) with ("^", @nil string).
  destruct (compile_parts_segments segs "^" "/?$" [] Hok) as [Hre Hnames].
  destruct (fold_left compile_part (segment_text <$> segs) ("^", [])) as [re names].
  simpl in Hre, Hnames. by rewrite Hre, Hnames.
Qed.

Lemma Split_alone (x : string) :
  has_byte "/" x = false -> GoStrings.Split x "/" = [x].
Proof.
  intros Hx. rewrite <- (append_nil_r x) at 1.
  rewrite (Split_no_slash x EmptyString EmptyString [] Hx eq_refl).
  by rewrite append_nil_r.
Qed.

Lemma Split_join_last (parts : list string) (x : string) :
  forallb (fun p => negb (has_byte "/" p)) parts = true ->
  has_byte "/" x = false ->
  GoStrings.Split (join_path parts +:+ "/" +:+ x) "/" = EmptyString :: parts ++ [x].
Proof.
  intros Hok Hx. induction parts as [|p parts IH].
  - change (join_path [] +:+ "/" +:+ x) with (String "/" x).
    cbn [GoStrings.Split]. change (Ascii.eqb "/" "/") with true. cbn iota.
    by rewrite Split_alone.
  - cbn [forallb] in Hok. apply andb_prop in Hok as [Hp Hok].
    apply negb_true_iff in Hp.
    change (join_path (p :: parts)) with (String "/" (p +:+ join_path parts)).
    rewrite append_cons, append_assoc.
    cbn [GoStrings.Split]. change (Ascii.eqb "/" "/") with true. cbn iota.
    rewrite (Split_no_slash p _ EmptyString (parts ++ [x]) Hp (IH Hok)).
    by rewrite append_nil_r.
Qed.

(** The same for a pattern that ends with the wildcard. *)
Lemma compile_pattern_wildcard (segs : list segment) :
  forallb segment_ok segs = true ->
  compile_pattern (pattern_of segs +:+ "/*")
  = ("^" +:+ segs_re segs (end_re WildcardEnd), param_names segs ++ ["wildcard"]).
Proof.
  intros Hok. unfold compile_pattern, pattern_of.
  change (join_path (segment_text <$> segs) +:+ "/*")
    with (join_path (segment_text <$> segs) +:+ "/" +:+ "*").
  rewrite Split_join_last; [|by apply segment_texts_no_slash|reflexivity].
  cbn [fold_left].
  change (compile_part ("^", []) EmptyString) with ("^", @nil string).
  rewrite fold_left_app. cbn [fold_left].
  destruct (compile_parts_segments segs "^" "/(.*)/?$" [] Hok) as [Hre Hnames].
  destruct (fold_left compile_part (segment_text <$> segs) ("^", [])) as [re names].
  simpl in Hre, Hnames. subst names.
  change (compile_part (re, param_names segs) "*")
    with (re +:+ "/(.*)", param_names segs ++ ["wildcard"]).
  cbv beta iota. rewrite append_assoc. change ("/(.*)" +:+ "/?$") with "/(.*)/?$".
  by rewrite Hre.
Qed.

(** The expression [Handler] hands to [regexp.Compile] for a pattern
    whose fixed segments are ASCII is ASCII. *)
Lemma is_ascii_app (a b : string) : is_ascii (a +:+ b) = is_ascii a && is_ascii b.
Proof. unfold is_ascii. by rewrite chars_app, forallb_app. Qed.

Lemma QuoteMeta_ascii (text : string) :
  is_ascii text = true -> is_ascii (regexp.QuoteMeta text) = true.
Proof.
  unfold is_ascii. induction text as [|c text IH]; [done|].
  cbn [list_ascii_of_string forallb regexp.QuoteMeta]. intros Hc.
  apply andb_prop in Hc as [Hc Htext].
  destruct (regexp.special c); cbn [list_ascii_of_string forallb];
    rewrite Hc, (IH Htext); reflexivity.
Qed.

Lemma expression_ascii (segs : list segment) (e : ending) :
  forallb segment_ascii segs = true ->
  is_ascii ("^" +:+ segs_re segs (end_re e)) = true.
Proof.
  intros Hascii. rewrite is_ascii_app.
  change (is_ascii "^") with true. cbn [andb].
  induction segs as [|sg segs IH]; cbn [segs_re]; [by destruct e|].
  cbn [forallb] in Hascii. apply andb_prop in Hascii as [Hsg Hsegs].
  rewrite is_ascii_app, (IH Hsegs), andb_true_r.
  destruct sg as [text|name]; cbn [seg_re]; [|reflexivity].
  rewrite is_ascii_app. by apply QuoteMeta_ascii.
Qed.

End PatternText.

Section Parsing.
Import regexp.

Variable parse_nested : nat -> list ascii -> option (Regexp * nat * list ascii).

(** A byte [QuoteMeta] leaves as it is closes no group, separates no
    alternatives and is no repetition operator. *)
Lemma plain_byte (c : ascii) :
  special c = false ->
  Ascii.eqb c ")" || Ascii.eqb c "|" = false /\
  is_repeat_op c || Ascii.eqb c "{" = false.
Proof.
  intros Hc.
  destruct c as [[] [] [] [] [] [] [] []]; cbv in Hc; try discriminate Hc;
    split; reflexivity.
Qed.

Lemma parse_atom_plain (c : ascii) (n : nat) (s : list ascii) :
  special c = false ->
  parse_atom parse_nested n (c :: s) = Some (Lit c, n, s).
Proof.
  intros Hc.
  destruct c as [[] [] [] [] [] [] [] []]; cbv in Hc; try discriminate Hc;
    reflexivity.
Qed.

Lemma parse_atom_escaped (c : ascii) (n : nat) (s : list ascii) :
  special c = true ->
  parse_atom parse_nested n ("\"%char :: c :: s) = Some (Lit c, n, s).
Proof.
  intros Hc.
  destruct c as [[] [] [] [] [] [] [] []]; cbv in Hc; try discriminate Hc;
    reflexivity.
Qed.

Lemma parse_repeat_atom (n : nat) (s : list ascii) (r : Regexp) (n1 : nat)
    (s1 : list ascii) :
  parse_atom parse_nested n s = Some (r, n1, s1) ->
  no_operator_ahead s1 ->
  parse_repeat parse_nested n s = Some (r, n1, s1).
Proof.
  intros Ha Hs1. unfold parse_repeat. rewrite Ha. simpl.
  destruct s1 as [|c s2]; [reflexivity|]. simpl in Hs1.
  apply orb_false_elim in Hs1 as [-> ->]. reflexivity.
Qed.

Lemma parse_concat_atom (c : ascii) (s : list ascii) (r : Regexp) (n n1 : nat)
    (s1 : list ascii) (k : Regexp) (n2 : nat) (s2 : list ascii) :
  Ascii.eqb c ")" || Ascii.eqb c "|" = false ->
  parse_atom parse_nested n (c :: s) = Some (r, n1, s1) ->
  no_operator_ahead s1 ->
  (length s1 <= length s)%nat ->
  (forall fuel, (length s1 <= fuel)%nat ->
     parse_concat parse_nested fuel n1 s1 = Some (k, n2, s2)) ->
  k <> Eps ->
  forall fuel, (length (c :: s) <= fuel)%nat ->
    parse_concat parse_nested fuel n (c :: s) = Some (Cat r k, n2, s2).
Proof.
  intros Hc Ha Hs1 Hlen Hk Hne fuel Hfuel.
  destruct fuel as [|fuel]; [simpl in Hfuel; lia|]. simpl in Hfuel.
  cbn [parse_concat]. rewrite Hc, (parse_repeat_atom _ _ _ _ _ Ha Hs1). simpl.
  rewrite Hk by lia. simpl. by destruct k.
Qed.

Lemma lits_not_Eps (t : list ascii) (k : Regexp) : k <> Eps -> lits t k <> Eps.
Proof. by destruct t. Qed.

Lemma no_operator_ahead_quote (t : string) (s : list ascii) :
  no_operator_ahead (list_ascii_of_string (QuoteMeta t) ++ "/"%char :: s).
Proof.
  destruct t as [|c t]; [reflexivity|]. cbn [QuoteMeta].
  destruct (special c) eqn:Hc; [reflexivity|].
  exact (proj2 (plain_byte c Hc)).
Qed.

Lemma parse_concat_lits (t : string) (n : nat) (s : list ascii) (k : Regexp)
    (n2 : nat) (s2 : list ascii) :
  (forall fuel, (length ("/"%char :: s) <= fuel)%nat ->
     parse_concat parse_nested fuel n ("/"%char :: s) = Some (k, n2, s2)) ->
  k <> Eps ->
  forall fuel,
    (length (list_ascii_of_string (QuoteMeta t) ++ "/"%char :: s) <= fuel)%nat ->
    parse_concat parse_nested fuel n
      (list_ascii_of_string (QuoteMeta t) ++ "/"%char :: s)
    = Some (lits (list_ascii_of_string t) k, n2, s2).
Proof.
  intros Hk Hne. induction t as [|c t IH]; [exact Hk|].
  cbn [QuoteMeta list_ascii_of_string lits].
  destruct (special c) eqn:Hc; cbn [list_ascii_of_string app].
  - apply (parse_concat_atom "\" _ _ _ _ _ _ _ _ eq_refl
             (parse_atom_escaped c n _ Hc) (no_operator_ahead_quote t s)).
    + simpl. lia.
    + exact IH.
    + by apply lits_not_Eps.
  - apply (parse_concat_atom _ _ _ _ _ _ _ _ _ (proj1 (plain_byte c Hc))
             (parse_atom_plain c n _ Hc) (no_operator_ahead_quote t s)).
    + lia.
    + exact IH.
    + by apply lits_not_Eps.
Qed.

End Parsing.

Section Compiling.
Import regexp.

Lemma parse_atom_group (d n : nat) (s : list ascii) :
  parse_atom (parse (S d)) n (list_ascii_of_string "([^/]+)" ++ s)
  = Some (Group (S n) (Plus no_slash), S n, s).
Proof. reflexivity. Qed.

Lemma parse_atom_wildcard (d n : nat) (s : list ascii) :
  parse_atom (parse (S d)) n (list_ascii_of_string "(.*)" ++ s)
  = Some (Group (S n) (Star AnyNotNL), S n, s).
Proof. reflexivity. Qed.

Lemma segs_re_head (segs : list segment) (e : ending) :
  exists s, list_ascii_of_string (segs_re segs (end_re e)) = "/"%char :: s.
Proof.
  destruct segs as [|[text|name] segs]; cbn [segs_re seg_re].
  - destruct e; by eexists.
  - rewrite chars_app. by eexists.
  - rewrite chars_app. by eexists.
Qed.

Lemma segs_expr_not_Eps (n : nat) (segs : list segment) (e : ending) :
  segs_expr n segs e <> Eps.
Proof. destruct segs as [|[text|name] segs]; [by destruct e|done..]. Qed.

Lemma parse_concat_end (d : nat) (e : ending) (n : nat) :
  forall fuel, (length (list_ascii_of_string (end_re e)) <= fuel)%nat ->
    parse_concat (parse (S d)) fuel n (list_ascii_of_string (end_re e))
    = Some (end_expr e n, (n + end_groups e)%nat, []).
Proof.
  intros fuel Hfuel. destruct e; cbn in Hfuel.
  - rewrite Nat.add_0_r. do 3 (destruct fuel as [|fuel]; [lia|]). reflexivity.
  - rewrite Nat.add_1_r. do 5 (destruct fuel as [|fuel]; [lia|]). reflexivity.
Qed.

Lemma parse_concat_segments (d : nat) (segs : list segment) (e : ending) (n : nat) :
  forall fuel,
    (length (list_ascii_of_string (segs_re segs (end_re e))) <= fuel)%nat ->
    parse_concat (parse (S d)) fuel n (list_ascii_of_string (segs_re segs (end_re e)))
    = Some (segs_expr n segs e,
            (n + length (param_names segs) + end_groups e)%nat, []).
Proof.
  revert n. induction segs as [|[text|name] segs IH]; intros n.
  - cbn [segs_re segs_expr param_names length]. rewrite Nat.add_0_r.
    apply parse_concat_end.
  - cbn [segs_re seg_re segs_expr param_names]. rewrite !chars_app.
    destruct (segs_re_head segs e) as [s' Hs']. specialize (IH n). rewrite Hs' in *.
    cbn [list_ascii_of_string app].
    apply (parse_concat_atom (parse (S d)) "/" _ (Lit "/") n n _ _ _ _ eq_refl eq_refl
             (no_operator_ahead_quote text s')).
    + lia.
    + apply parse_concat_lits; [exact IH|apply segs_expr_not_Eps].
    + apply lits_not_Eps, segs_expr_not_Eps.
  - cbn [segs_re seg_re segs_expr param_names]. rewrite !chars_app.
    destruct (segs_re_head segs e) as [s' Hs']. specialize (IH (S n)). rewrite Hs' in *.
    replace (n + length (name :: param_names segs))%nat
      with (S n + length (param_names segs))%nat by (simpl; lia).
    apply (parse_concat_atom (parse (S d)) "/" _ (Lit "/") n n _ _ _ _ eq_refl eq_refl).
    + reflexivity.
    + lia.
    + apply (parse_concat_atom (parse (S d)) "(" _ _ n (S n) _ _ _ _ eq_refl
               (parse_atom_group d n ("/"%char :: s'))); [reflexivity|simpl; lia|exact IH|].
      apply segs_expr_not_Eps.
    + discriminate.
Qed.

Lemma parse_whole (d n : nat) (s : list ascii) (r : Regexp) (n1 : nat) :
  parse_concat (parse d) (S (length s)) n s = Some (r, n1, []) ->
  parse (S d) n s = Some (r, n1, []).
Proof.
  intros Hc.
  change (parse (S d) n s) with (parse_alternation (parse d) (S (length s)) n s).
  cbn [parse_alternation]. rewrite Hc. reflexivity.
Qed.

(** [Compile] accepts the text of such a pattern. *)
Lemma Compile_ending (segs : list segment) (e : ending) :
  Compile ("^" +:+ segs_re segs (end_re e))
  = Some {| expr := Cat BeginText (segs_expr 0 segs e);
            NumSubexp := (length (param_names segs) + end_groups e)%nat |}.
Proof.
  unfold Compile.
  change ("^" +:+ segs_re segs (end_re e)) with (String "^" (segs_re segs (end_re e))).
  cbn [list_ascii_of_string].
  set (s := list_ascii_of_string (segs_re segs (end_re e))).
  rewrite (parse_whole (length ("^"%char :: s)) 0 ("^"%char :: s)
             (Cat BeginText (segs_expr 0 segs e))
             (length (param_names segs) + end_groups e)); [reflexivity|].
  destruct (segs_re_head segs e) as [s' Hs'].
  apply (parse_concat_atom (parse (length ("^"%char :: s))) "^" s BeginText 0 0 s _ _ _
           eq_refl eq_refl).
  - unfold s. rewrite Hs'. reflexivity.
  - lia.
  - apply (parse_concat_segments (length s) segs e 0).
  - apply segs_expr_not_Eps.
  - lia.
Qed.

Lemma Compile_segments (segs : list segment) :
  Compile ("^" +:+ segs_re segs (end_re PlainEnd)) = Some (segments_regexp segs).
Proof. rewrite Compile_ending. unfold segments_regexp. by rewrite Nat.add_0_r. Qed.

Lemma Compile_wildcard (segs : list segment) :
  Compile ("^" +:+ segs_re segs (end_re WildcardEnd)) = Some (wildcard_regexp segs).
Proof. rewrite Compile_ending. unfold wildcard_regexp. by rewrite Nat.add_1_r. Qed.

End Compiling.

Section Matching.
Import regexp.

Lemma in_no_slash (c : ascii) :
  existsb (in_range c) [("/", "/")%char] = Ascii.eqb c "/".
Proof. destruct c as [[] [] [] [] [] [] [] []]; reflexivity. Qed.

Lemma run_no_slash (c : ascii) (pos : nat) (s : list ascii) (caps : captures)
    (K : cont) :
  run no_slash pos (c :: s) caps K
  = if Ascii.eqb c "/" then None else K (S pos) s caps.
Proof.
  unfold no_slash. cbn [run]. rewrite in_no_slash. by destruct (Ascii.eqb c "/").
Qed.

Lemma String_length_app (a b : string) :
  String.length (a +:+ b) = (String.length a + String.length b)%nat.
Proof. by rewrite <- !chars_length, chars_app, length_app. Qed.

(** Greedy repetition of the parameter class takes a whole part when the
    continuation cannot resume inside a part. *)
Lemma iterate_no_slash (v : string) (fuel pos : nat) (rest : list ascii)
    (caps : captures) (K : cont) :
  has_byte "/" v = false ->
  at_boundary rest ->
  (forall pos c s caps, c <> "/"%char -> K pos (c :: s) caps = None) ->
  (String.length v <= fuel)%nat ->
  iterate (run no_slash) fuel pos (list_ascii_of_string v ++ rest) caps K
  = K (pos + String.length v)%nat rest caps.
Proof.
  intros Hv Hrest HK. revert fuel pos. induction v as [|c v IH]; intros fuel pos Hfuel.
  - cbn [list_ascii_of_string app String.length]. rewrite Nat.add_0_r.
    destruct fuel as [|fuel]; [reflexivity|]. cbn [iterate].
    destruct rest as [|x rest]; [reflexivity|]. simpl in Hrest. subst x.
    by rewrite run_no_slash.
  - rewrite has_byte_cons in Hv. apply orb_false_elim in Hv as [Hc Hv].
    cbn [String.length] in Hfuel. destruct fuel as [|fuel]; [lia|].
    cbn [list_ascii_of_string app iterate String.length].
    rewrite run_no_slash, Ascii.eqb_sym, Hc.
    assert (Hlt : (pos <? S pos)%nat = true) by (apply Nat.ltb_lt; lia).
    rewrite Hlt, (IH Hv) by lia.
    rewrite (HK pos c) by (intros ->; discriminate Hc).
    replace (pos + S (String.length v))%nat with (S pos + String.length v)%nat by lia.
    by destruct (K _ rest caps).
Qed.

Lemma run_param (i : nat) (v : string) (pos : nat) (rest : list ascii)
    (caps : captures) (K : cont) :
  has_byte "/" v = false ->
  v <> EmptyString ->
  at_boundary rest ->
  (forall pos c s caps, c <> "/"%char -> K pos (c :: s) caps = None) ->
  run (Group i (Plus no_slash)) pos (list_ascii_of_string v ++ rest) caps K
  = K (pos + String.length v)%nat rest
      ((i, (pos, pos + String.length v)%nat) :: caps).
Proof.
  intros Hv Hne Hrest HK. destruct v as [|c v]; [done|].
  rewrite has_byte_cons in Hv. apply orb_false_elim in Hv as [Hc Hv].
  cbn [run list_ascii_of_string app String.length].
  rewrite run_no_slash, Ascii.eqb_sym, Hc.
  rewrite (iterate_no_slash v _ (S pos) rest caps
             (fun pos' s' caps' => K pos' s' ((i, (pos, pos')) :: caps')) Hv Hrest).
  - by replace (S pos + String.length v)%nat with (pos + S (String.length v))%nat by lia.
  - intros pos' x s' caps' Hx. by apply HK.
  - rewrite length_app, chars_length. lia.
Qed.

Lemma iterate_no_slash_inv (fuel pos : nat) (s : list ascii) (caps : captures)
    (K : cont) (found : captures) :
  iterate (run no_slash) fuel pos s caps K = Some found ->
  exists v rest,
    s = list_ascii_of_string v ++ rest /\ has_byte "/" v = false /\
    K (pos + String.length v)%nat rest caps = Some found.
Proof.
  revert pos s. induction fuel as [|fuel IH]; intros pos s Hit.
  - exists EmptyString, s. by rewrite Nat.add_0_r.
  - cbn [iterate] in Hit.
    assert (Hstop : K pos s caps = Some found ->
      exists v rest, s = list_ascii_of_string v ++ rest /\ has_byte "/" v = false /\
                     K (pos + String.length v)%nat rest caps = Some found).
    { intros HK. exists EmptyString, s. by rewrite Nat.add_0_r. }
    destruct s as [|x s]; [by apply Hstop|].
    rewrite run_no_slash in Hit. destruct (Ascii.eqb x "/") eqn:Hx; [by apply Hstop|].
    assert (Hlt : (pos <? S pos)%nat = true) by (apply Nat.ltb_lt; lia).
    rewrite Hlt in Hit.
    destruct (iterate (run no_slash) fuel (S pos) s caps K) as [c0|] eqn:Hnext;
      [|by apply Hstop].
    injection Hit as ->. destruct (IH _ _ Hnext) as (v & rest & -> & Hv & HK).
    exists (String x v), rest. split; [reflexivity|]. split.
    + by rewrite has_byte_cons, Ascii.eqb_sym, Hx.
    + cbn [String.length].
      by replace (pos + S (String.length v))%nat with (S pos + String.length v)%nat by lia.
Qed.

Lemma run_param_inv (i pos : nat) (s : list ascii) (caps : captures) (K : cont)
    (found : captures) :
  run (Group i (Plus no_slash)) pos s caps K = Some found ->
  exists v rest,
    s = list_ascii_of_string v ++ rest /\ v <> EmptyString /\
    has_byte "/" v = false /\
    K (pos + String.length v)%nat rest ((i, (pos, pos + String.length v)%nat) :: caps)
    = Some found.
Proof.
  cbn [run]. destruct s as [|x s]; [discriminate|]. rewrite run_no_slash.
  destruct (Ascii.eqb x "/") eqn:Hx; [discriminate|]. intros Hit.
  apply iterate_no_slash_inv in Hit as (v & rest & -> & Hv & HK).
  exists (String x v), rest. split; [reflexivity|]. split; [discriminate|]. split.
  - by rewrite has_byte_cons, Ascii.eqb_sym, Hx.
  - cbn [String.length].
    by replace (pos + S (String.length v))%nat with (S pos + String.length v)%nat by lia.
Qed.

Lemma run_Cat (r1 r2 : Regexp) (pos : nat) (s : list ascii) (caps : captures)
    (K : cont) :
  run (Cat r1 r2) pos s caps K
  = run r1 pos s caps (fun pos' s' caps' => run r2 pos' s' caps' K).
Proof. reflexivity. Qed.

Lemma run_Lit (c : ascii) (pos : nat) (s : list ascii) (caps : captures) (K : cont) :
  run (Lit c) pos s caps K
  = match s with
    | c' :: s' => if Ascii.eqb c c' then K (S pos) s' caps else None
    | [] => None
    end.
Proof. reflexivity. Qed.

Lemma run_lits (t : list ascii) (k : Regexp) (pos : nat) (s : list ascii)
    (caps : captures) (K : cont) :
  run (lits t k) pos (t ++ s) caps K = run k (pos + length t)%nat s caps K.
Proof.
  revert pos. induction t as [|c t IH]; intros pos.
  - by rewrite Nat.add_0_r.
  - cbn [lits run app length]. rewrite Ascii.eqb_refl, IH. f_equal. lia.
Qed.

Lemma run_lits_inv (t : list ascii) (k : Regexp) (pos : nat) (s : list ascii)
    (caps : captures) (K : cont) (found : captures) :
  run (lits t k) pos s caps K = Some found ->
  exists s', s = t ++ s' /\ run k (pos + length t)%nat s' caps K = Some found.
Proof.
  revert pos s. induction t as [|c t IH]; intros pos s Hrun.
  - exists s. by rewrite Nat.add_0_r.
  - cbn [lits run] in Hrun. destruct s as [|x s]; [discriminate|].
    destruct (Ascii.eqb_spec c x) as [<-|]; [|discriminate].
    apply IH in Hrun as (s' & -> & Hrun). exists s'. split; [reflexivity|].
    cbn [length]. by replace (pos + S (length t))%nat with (S pos + length t)%nat by lia.
Qed.

Lemma run_end_nil (pos : nat) (caps : captures) (K : cont) :
  run optional_slash_end pos [] caps K = K pos [] caps.
Proof. reflexivity. Qed.

Lemma run_end_slash (pos : nat) (caps : captures) (K : cont) :
  run optional_slash_end pos ["/"%char] caps K = K (S pos) [] caps.
Proof. cbn. by destruct (K (S pos) [] caps). Qed.

Lemma run_end_off (pos : nat) (c : ascii) (s : list ascii) (caps : captures)
    (K : cont) :
  c <> "/"%char -> run optional_slash_end pos (c :: s) caps K = None.
Proof.
  intros Hc. unfold optional_slash_end. cbn [run].
  by destruct (Ascii.eqb_spec "/" c) as [<-|].
Qed.

Lemma run_end_inv (pos : nat) (s : list ascii) (caps : captures) (K : cont)
    (found : captures) :
  run optional_slash_end pos s caps K = Some found -> s = [] \/ s = ["/"%char].
Proof.
  unfold optional_slash_end.
  destruct s as [|x [|y s]]; [by left| |]; cbn [run].
  - destruct (Ascii.eqb_spec "/" x) as [<-|]; [by right|discriminate].
  - by destruct (Ascii.eqb "/" x).
Qed.

Lemma run_segs_off (n : nat) (segs : list segment) (e : ending) (pos : nat)
    (c : ascii) (s : list ascii) (caps : captures) (K : cont) :
  c <> "/"%char ->
  run (segs_expr n segs e) pos (c :: s) caps K = None.
Proof.
  intros Hc. destruct segs as [|[text|name] segs]; cbn [segs_expr].
  - destruct e; cbn [end_expr].
    + by apply run_end_off.
    + rewrite run_Cat, run_Lit. by destruct (Ascii.eqb_spec "/" c) as [<-|].
  - cbn [run]. by destruct (Ascii.eqb_spec "/" c) as [<-|].
  - cbn [run]. by destruct (Ascii.eqb_spec "/" c) as [<-|].
Qed.

Lemma at_boundary_join (parts : list string) (rest : list ascii) :
  at_boundary rest -> at_boundary (list_ascii_of_string (join_path parts) ++ rest).
Proof. by destruct parts. Qed.

(** The expression of the segments on a text that spells fitting parts:
    it goes through them in the one possible way. *)
Lemma run_segments (segs : list segment) (e : ending) (parts : list string)
    (n pos : nat) (rest : list ascii) (caps : captures) (K : cont) :
  fits_all segs parts = true ->
  at_boundary rest ->
  run (segs_expr n segs e) pos
    (list_ascii_of_string (join_path parts) ++ rest) caps K
  = run (end_expr e (n + length (param_names segs)))
      (pos + String.length (join_path parts))%nat rest
      (segs_caps n pos segs parts caps) K.
Proof.
  intros Hfits Hrest. revert parts n pos caps Hfits.
  induction segs as [|sg segs IH]; intros [|p parts] n pos caps Hfits;
    try discriminate Hfits.
  - cbn [segs_expr join_path list_ascii_of_string app String.length segs_caps
         param_names length].
    by rewrite !Nat.add_0_r.
  - cbn [fits_all] in Hfits. apply andb_prop in Hfits as [Hp Hfits].
    change (join_path (p :: parts)) with (String "/" (p +:+ join_path parts)).
    cbn [list_ascii_of_string app String.length].
    rewrite chars_app, <- app_assoc, String_length_app.
    replace (pos + S (String.length p + String.length (join_path parts)))%nat
      with (S pos + String.length p + String.length (join_path parts))%nat by lia.
    destruct sg as [text|name]; cbn [fits] in Hp; cbn [segs_expr segs_caps].
    + apply String.eqb_eq in Hp as ->. rewrite run_Cat, run_Lit, Ascii.eqb_refl.
      rewrite run_lits, chars_length. cbn [param_names]. by apply IH.
    + apply andb_prop in Hp as [Hne Hp]. apply negb_true_iff in Hne, Hp.
      apply String.eqb_neq in Hne. rewrite run_Cat, run_Lit, Ascii.eqb_refl, run_Cat.
      rewrite (run_param (S n) p (S pos) _ caps
                 (fun pos' s' caps' => run (segs_expr (S n) segs e) pos' s' caps' K)
                 Hp Hne (at_boundary_join parts rest Hrest)).
      * cbn [param_names length].
        replace (n + S (length (param_names segs)))%nat
          with (S n + length (param_names segs))%nat by lia.
        by apply IH.
      * intros pos' c s' caps' Hc. by apply run_segs_off.
Qed.

(** Conversely, a text the expression of the segments goes through
    spells fitting parts up to what the end of the expression takes. *)
Lemma run_segments_inv (segs : list segment) (e : ending) (n pos : nat)
    (s : list ascii) (caps : captures) (K : cont) (found : captures) :
  run (segs_expr n segs e) pos s caps K = Some found ->
  exists parts rest n' pos' caps',
    fits_all segs parts = true /\
    s = list_ascii_of_string (join_path parts) ++ rest /\
    run (end_expr e n') pos' rest caps' K = Some found.
Proof.
  revert n pos s caps. induction segs as [|sg segs IH]; intros n pos s caps Hrun.
  - by exists [], s, n, pos, caps.
  - assert (Hjoin : forall p parts rest,
              list_ascii_of_string (join_path (p :: parts)) ++ rest
              = "/"%char :: list_ascii_of_string p
                  ++ list_ascii_of_string (join_path parts) ++ rest).
    { intros p parts rest.
      change (join_path (p :: parts)) with (String "/" (p +:+ join_path parts)).
      cbn [list_ascii_of_string app]. by rewrite chars_app, <- app_assoc. }
    destruct sg as [text|name]; cbn [segs_expr] in Hrun;
      rewrite run_Cat, run_Lit in Hrun;
      (destruct s as [|x s]; [discriminate|]);
      (destruct (Ascii.eqb_spec "/" x) as [<-|]; [|discriminate]).
    + apply run_lits_inv in Hrun as (s' & -> & Hrun).
      apply IH in Hrun as (parts & rest & n' & pos' & caps' & Hfits & -> & Hend).
      exists (text :: parts), rest, n', pos', caps'. split; [|split; [|exact Hend]].
      * cbn [fits_all fits]. by rewrite String.eqb_refl.
      * by rewrite Hjoin.
    + rewrite run_Cat in Hrun.
      apply run_param_inv in Hrun as (v & s' & -> & Hne & Hv & Hrun).
      apply IH in Hrun as (parts & rest & n' & pos' & caps' & Hfits & -> & Hend).
      exists (v :: parts), rest, n', pos', caps'. split; [|split; [|exact Hend]].
      * cbn [fits_all fits]. rewrite Hv, Hfits.
        apply String.eqb_neq in Hne. by rewrite Hne.
      * by rewrite Hjoin.
Qed.

Lemma run_any (c : ascii) (pos : nat) (s : list ascii) (caps : captures) (K : cont) :
  run AnyNotNL pos (c :: s) caps K
  = if Ascii.eqb c newline then None else K (S pos) s caps.
Proof. reflexivity. Qed.

(** The dot repeated takes the whole rest of a text without line ends,
    when the continuation accepts the end of the text. *)
Lemma iterate_any (v : string) (fuel pos : nat) (caps : captures) (K : cont)
    (found : captures) :
  has_byte newline v = false ->
  (String.length v <= fuel)%nat ->
  K (pos + String.length v)%nat [] caps = Some found ->
  iterate (run AnyNotNL) fuel pos (list_ascii_of_string v) caps K = Some found.
Proof.
  intros Hv. revert fuel pos. induction v as [|c v IH]; intros fuel pos Hfuel HK.
  - cbn [String.length] in HK. rewrite Nat.add_0_r in HK.
    destruct fuel as [|fuel]; cbn [list_ascii_of_string iterate run]; by rewrite HK.
  - rewrite has_byte_cons in Hv. apply orb_false_elim in Hv as [Hc Hv].
    cbn [String.length] in Hfuel, HK. destruct fuel as [|fuel]; [lia|].
    cbn [list_ascii_of_string iterate]. rewrite run_any, Ascii.eqb_sym, Hc.
    assert (Hlt : (pos <? S pos)%nat = true) by (apply Nat.ltb_lt; lia).
    rewrite Hlt, (IH Hv fuel (S pos)); [reflexivity|lia|].
    by replace (S pos + String.length v)%nat with (pos + S (String.length v))%nat by lia.
Qed.

Lemma iterate_any_inv (fuel pos : nat) (s : list ascii) (caps : captures)
    (K : cont) (found : captures) :
  iterate (run AnyNotNL) fuel pos s caps K = Some found ->
  exists v rest,
    s = list_ascii_of_string v ++ rest /\ has_byte newline v = false /\
    K (pos + String.length v)%nat rest caps = Some found.
Proof.
  revert pos s. induction fuel as [|fuel IH]; intros pos s Hit.
  - exists EmptyString, s. by rewrite Nat.add_0_r.
  - cbn [iterate] in Hit.
    assert (Hstop : K pos s caps = Some found ->
      exists v rest, s = list_ascii_of_string v ++ rest /\ has_byte newline v = false /\
                     K (pos + String.length v)%nat rest caps = Some found).
    { intros HK. exists EmptyString, s. by rewrite Nat.add_0_r. }
    destruct s as [|x s]; [by apply Hstop|].
    rewrite run_any in Hit. destruct (Ascii.eqb x newline) eqn:Hx; [by apply Hstop|].
    assert (Hlt : (pos <? S pos)%nat = true) by (apply Nat.ltb_lt; lia).
    rewrite Hlt in Hit.
    destruct (iterate (run AnyNotNL) fuel (S pos) s caps K) as [c0|] eqn:Hnext;
      [|by apply Hstop].
    injection Hit as ->. destruct (IH _ _ Hnext) as (v & rest & -> & Hv & HK).
    exists (String x v), rest. split; [reflexivity|]. split.
    + by rewrite has_byte_cons, Ascii.eqb_sym, Hx.
    + cbn [String.length].
      by replace (pos + S (String.length v))%nat with (S pos + String.length v)%nat by lia.
Qed.

(** The end of an expression with the wildcard, on a slash followed by
    any text without line ends. *)
Lemma run_wildcard_end (n pos : nat) (v : string) (caps : captures) (K : cont)
    (found : captures) :
  has_byte newline v = false ->
  K (S pos + String.length v)%nat []
    ((S n, (S pos, S pos + String.length v)%nat) :: caps) = Some found ->
  run (end_expr WildcardEnd n) pos ("/"%char :: list_ascii_of_string v) caps K
  = Some found.
Proof.
  intros Hv HK. cbn [end_expr]. rewrite run_Cat, run_Lit, Ascii.eqb_refl, run_Cat.
  cbn [run]. apply iterate_any; [exact Hv|rewrite chars_length; lia|].
  by rewrite run_end_nil.
Qed.

Lemma run_wildcard_end_inv (n pos : nat) (s : list ascii) (caps : captures)
    (K : cont) (found : captures) :
  run (end_expr WildcardEnd n) pos s caps K = Some found ->
  exists v, s = "/"%char :: list_ascii_of_string v /\ has_byte newline v = false.
Proof.
  cbn [end_expr]. rewrite run_Cat, run_Lit. destruct s as [|x s]; [discriminate|].
  destruct (Ascii.eqb_spec "/" x) as [<-|]; [|discriminate].
  rewrite run_Cat. cbn [run]. intros Hit.
  apply iterate_any_inv in Hit as (v & rest & -> & Hv & Hend).
  apply run_end_inv in Hend as [->| ->].
  - exists v. by rewrite app_nil_r.
  - exists (v +:+ "/"). split.
    + rewrite chars_app. reflexivity.
    + unfold has_byte in *. rewrite chars_app, existsb_app, Hv. reflexivity.
Qed.

Lemma search_anchored_later (r : Regexp) (pos : nat) (s : list ascii) :
  search (Cat BeginText r) (S pos) s = None.
Proof.
  revert pos. induction s as [|c s IH]; intros pos; cbn [search run];
    [reflexivity|]. cbn. apply IH.
Qed.

Lemma search_anchored (r : Regexp) (s : list ascii) :
  search (Cat BeginText r) 0 s
  = run r 0 s [] (fun pos' _ caps => Some ((0, (0, pos')) :: caps)%nat).
Proof.
  destruct s as [|c s]; cbn [search run Nat.eqb].
  - by destruct (run r 0 [] [] _).
  - rewrite search_anchored_later. by destruct (run r 0 (c :: s) [] _).
Qed.

End Matching.

Section Captures.
Import regexp.

Lemma capture_of_below (segs : list segment) (parts : list string) (n pos : nat)
    (caps : captures) (idx : nat) :
  (idx <= n)%nat ->
  capture_of idx (segs_caps n pos segs parts caps) = capture_of idx caps.
Proof.
  revert parts n pos caps.
  induction segs as [|[text|name] segs IH]; intros [|p parts] n pos caps Hidx;
    try reflexivity; cbn [segs_caps].
  - by apply IH.
  - rewrite IH by lia. cbn [capture_of].
    destruct (Nat.eqb_spec (S n) idx); [lia|reflexivity].
Qed.

Lemma join_cons_chars (pre : list ascii) (p : string) (parts : list string)
    (post : list ascii) :
  pre ++ list_ascii_of_string (join_path (p :: parts)) ++ post
  = (pre ++ "/"%char :: list_ascii_of_string p)
      ++ list_ascii_of_string (join_path parts) ++ post.
Proof.
  change (join_path (p :: parts)) with (String "/" (p +:+ join_path parts)).
  cbn [list_ascii_of_string]. rewrite chars_app. cbn [app].
  rewrite <- !app_assoc. reflexivity.
Qed.

Lemma length_before_part (pre : list ascii) (p : string) :
  length (pre ++ "/"%char :: list_ascii_of_string p)
  = (S (length pre) + String.length p)%nat.
Proof. rewrite length_app. cbn [length]. rewrite chars_length. lia. Qed.

(** The span recorded for a parameter is the part that stands at it. *)
Lemma submatch_param (segs : list segment) (parts : list string) (n : nat)
    (caps : captures) (j : nat) (v : string) (pre post : list ascii) :
  param_values segs parts !! j = Some v ->
  submatch
    (string_of_list_ascii (pre ++ list_ascii_of_string (join_path parts) ++ post))
    (segs_caps n (length pre) segs parts caps) (S n + j)
  = v.
Proof.
  revert parts n caps j pre.
  induction segs as [|[text|name] segs IH]; intros [|p parts] n caps j pre Hj;
    try discriminate Hj.
  - cbn [param_values] in Hj. cbn [segs_caps].
    rewrite join_cons_chars, <- length_before_part. by apply IH.
  - cbn [segs_caps]. rewrite join_cons_chars.
    destruct j as [|j]; cbn [param_values] in Hj.
    + injection Hj as ->. unfold submatch. rewrite capture_of_below by lia.
      cbn [capture_of]. rewrite Nat.add_0_r, Nat.eqb_refl.
      replace (S (length pre) + String.length v - S (length pre))%nat
        with (length (list_ascii_of_string v)) by (rewrite chars_length; lia).
      replace (S (length pre)) with (length (pre ++ ["/"%char]))
        by (rewrite length_app; simpl; lia).
      replace ((pre ++ "/"%char :: list_ascii_of_string v)
                 ++ list_ascii_of_string (join_path parts) ++ post)
        with ((pre ++ ["/"%char]) ++ list_ascii_of_string v
                ++ (list_ascii_of_string (join_path parts) ++ post))
        by (rewrite <- !app_assoc; reflexivity).
      rewrite substring_at. apply string_of_list_ascii_of_string.
    + change (param_values segs parts !! j = Some v) in Hj.
      rewrite <- length_before_part.
      replace (S n + S j)%nat with (S (S n) + j)%nat by lia.
      by apply IH.
Qed.

Lemma param_values_length (segs : list segment) (parts : list string) :
  fits_all segs parts = true ->
  length (param_values segs parts) = length (param_names segs).
Proof.
  revert parts. induction segs as [|[text|name] segs IH]; intros [|p parts] Hfits;
    try discriminate Hfits; [reflexivity| |];
    cbn [fits_all] in Hfits; apply andb_prop in Hfits as [_ Hfits];
    cbn [param_values param_names length]; by rewrite IH.
Qed.

Lemma fmap_seq_values (f : nat -> string) (values : list string) :
  (forall j v, values !! j = Some v -> f (S j) = v) ->
  f <$> seq 1 (length values) = values.
Proof.
  revert f. induction values as [|v values IH]; intros f Hf; [reflexivity|].
  cbn [length seq fmap list_fmap]. rewrite (Hf 0%nat v eq_refl). f_equal.
  rewrite <- fmap_S_seq, <- list_fmap_compose. apply IH.
  intros j w Hj. apply (Hf (S j) w Hj).
Qed.

(** The expression of the segments on a path that spells fitting parts. *)
Lemma FindStringSubmatch_segments (segs : list segment) (parts : list string)
    (path : string) :
  fits_all segs parts = true ->
  spells path parts ->
  FindStringSubmatch (segments_regexp segs) path
  = Some (path :: param_values segs parts).
Proof.
  intros Hfits Hpath. unfold FindStringSubmatch, segments_regexp. cbn [expr NumSubexp].
  rewrite search_anchored.
  assert (Hrun : run (segs_expr 0 segs PlainEnd) 0
                   (list_ascii_of_string path) []
                   (fun pos' _ caps => Some ((0, (0, pos')) :: caps)%nat)
                 = Some ((0, (0, String.length path))%nat :: segs_caps 0 0 segs parts [])).
  { destruct Hpath as [->| ->].
    - rewrite <- (app_nil_r (list_ascii_of_string (join_path parts))).
      rewrite (run_segments segs PlainEnd parts 0 0 [] [] _ Hfits I).
      cbn [end_expr]. by rewrite run_end_nil.
    - rewrite chars_app. change (list_ascii_of_string "/") with ["/"%char].
      rewrite (run_segments segs PlainEnd parts 0 0 ["/"%char] [] _ Hfits eq_refl).
      cbn [end_expr]. rewrite run_end_slash.
      rewrite String_length_app. cbn [String.length].
      replace (String.length (join_path parts) + 1)%nat
        with (S (0 + String.length (join_path parts))) by lia.
      reflexivity. }
  rewrite Hrun. cbn [mbind option_bind]. f_equal.
  cbn [seq fmap list_fmap]. f_equal.
  - unfold submatch. cbn [capture_of Nat.eqb]. rewrite Nat.sub_0_r.
    apply substring_full.
  - rewrite <- (param_values_length segs parts Hfits).
    apply fmap_seq_values. intros j v Hj. unfold submatch at 1. cbn [capture_of Nat.eqb].
    fold (submatch path (segs_caps 0 0 segs parts []) (S j)).
    assert (Htext : exists post,
              path = string_of_list_ascii
                       ([] ++ list_ascii_of_string (join_path parts) ++ post)).
    { destruct Hpath as [->| ->].
      - exists []. cbn [app]. by rewrite app_nil_r, string_of_list_ascii_of_string.
      - exists ["/"%char]. cbn [app]. change ["/"%char] with (list_ascii_of_string "/").
        by rewrite <- chars_app, string_of_list_ascii_of_string. }
    destruct Htext as [post Htext]. rewrite Htext at 1.
    apply (submatch_param segs parts 0 [] j v [] post Hj).
Qed.

(** Conversely, a path the expression matches spells fitting parts. *)
Lemma FindStringSubmatch_segments_inv (segs : list segment) (path : string) :
  is_Some (FindStringSubmatch (segments_regexp segs) path) ->
  exists parts, fits_all segs parts = true /\ spells path parts.
Proof.
  unfold FindStringSubmatch, segments_regexp. cbn [expr NumSubexp].
  rewrite search_anchored. intros [ms Hms].
  destruct (run _ 0 (list_ascii_of_string path) [] _) as [found|] eqn:Hrun;
    [|discriminate Hms].
  apply run_segments_inv in Hrun
    as (parts & rest & n' & pos' & caps' & Hfits & Hs & Hend).
  exists parts. split; [exact Hfits|].
  apply (f_equal string_of_list_ascii) in Hs.
  rewrite string_of_list_ascii_of_string in Hs.
  apply run_end_inv in Hend as [->| ->].
  - left. by rewrite Hs, app_nil_r, string_of_list_ascii_of_string.
  - right. change ["/"%char] with (list_ascii_of_string "/") in Hs.
    by rewrite Hs, <- chars_app, string_of_list_ascii_of_string.
Qed.

(** The expression of segments followed by the wildcard, on a path that
    spells fitting parts, a slash and any text without line ends. *)
Lemma FindStringSubmatch_wildcard (segs : list segment) (parts : list string)
    (rest : string) :
  fits_all segs parts = true ->
  has_byte newline rest = false ->
  FindStringSubmatch (wildcard_regexp segs) (join_path parts +:+ "/" +:+ rest)
  = Some ((join_path parts +:+ "/" +:+ rest) :: param_values segs parts ++ [rest]).
Proof.
  intros Hfits Hrest. unfold FindStringSubmatch, wildcard_regexp. cbn [expr NumSubexp].
  rewrite search_anchored.
  set (path := join_path parts +:+ "/" +:+ rest).
  set (m := length (param_names segs)).
  set (start := S (String.length (join_path parts))).
  assert (Hchars : list_ascii_of_string path
                   = list_ascii_of_string (join_path parts)
                       ++ "/"%char :: list_ascii_of_string rest).
  { unfold path. by rewrite !chars_app. }
  assert (Hlen : String.length path = (start + String.length rest)%nat).
  { unfold path, start. rewrite !String_length_app. cbn [String.length]. lia. }
  assert (Hrun : run (segs_expr 0 segs WildcardEnd) 0 (list_ascii_of_string path) []
                   (fun pos' _ caps => Some ((0, (0, pos')) :: caps)%nat)
                 = Some ((0, (0, String.length path))%nat
                           :: (S m, (start, start + String.length rest)%nat)
                           :: segs_caps 0 0 segs parts [])).
  { rewrite Hchars.
    rewrite (run_segments segs WildcardEnd parts 0 0
               ("/"%char :: list_ascii_of_string rest) [] _ Hfits eq_refl).
    apply run_wildcard_end; [exact Hrest|]. cbn [Nat.add]. fold m start.
    by rewrite Hlen. }
  rewrite Hrun. cbn [mbind option_bind]. f_equal.
  change (seq 0 (S (S m))) with (0%nat :: seq 1 (S m)).
  set (caps := (0, (0, String.length path))%nat
                 :: (S m, (start, start + String.length rest)%nat)
                 :: segs_caps 0 0 segs parts []).
  cbn [fmap list_fmap]. f_equal.
  - unfold submatch, caps. cbn [capture_of Nat.eqb]. rewrite Nat.sub_0_r.
    apply substring_full.
  - assert (Hm : S m = length (param_values segs parts ++ [rest])).
    { rewrite length_app, (param_values_length segs parts Hfits). simpl. unfold m. lia. }
    rewrite Hm. apply fmap_seq_values. intros j v Hj. subst caps.
    assert (Htext : path = string_of_list_ascii
                             ([] ++ list_ascii_of_string (join_path parts)
                                ++ "/"%char :: list_ascii_of_string rest)).
    { cbn [app]. by rewrite <- Hchars, string_of_list_ascii_of_string. }
    unfold submatch. cbn [capture_of Nat.eqb].
    destruct (decide (j < length (param_values segs parts))%nat) as [Hlt|Hge].
    + rewrite lookup_app_l in Hj by exact Hlt.
      rewrite (param_values_length segs parts Hfits) in Hlt. fold m in Hlt.
      destruct (Nat.eqb_spec m j) as [->|_]; [lia|].
      fold (submatch path (segs_caps 0 0 segs parts []) (S j)).
      rewrite Htext at 1.
      apply (submatch_param segs parts 0 [] j v [] _ Hj).
    + rewrite lookup_app_r in Hj by lia.
      destruct (j - length (param_values segs parts))%nat as [|k] eqn:Hk;
        [|by destruct k].
      injection Hj as <-.
      assert (j = m) as -> by (rewrite (param_values_length segs parts Hfits) in *;
                               unfold m; lia).
      rewrite Nat.eqb_refl.
      replace (start + String.length rest - start)%nat
        with (length (list_ascii_of_string rest)) by (rewrite chars_length; lia).
      replace start with (length (list_ascii_of_string (join_path parts) ++ ["/"%char]))
        by (rewrite length_app, chars_length; simpl; unfold start; lia).
      replace path
        with (string_of_list_ascii
                ((list_ascii_of_string (join_path parts) ++ ["/"%char])
                   ++ list_ascii_of_string rest ++ []))
        by (rewrite app_nil_r, <- app_assoc; cbn [app];
            by rewrite <- Hchars, string_of_list_ascii_of_string).
      rewrite substring_at. apply string_of_list_ascii_of_string.
Qed.

(** Conversely, a path that expression matches is of that shape. *)
Lemma FindStringSubmatch_wildcard_inv (segs : list segment) (path : string) :
  is_Some (FindStringSubmatch (wildcard_regexp segs) path) ->
  exists parts rest,
    fits_all segs parts = true /\ has_byte newline rest = false /\
    path = join_path parts +:+ "/" +:+ rest.
Proof.
  unfold FindStringSubmatch, wildcard_regexp. cbn [expr NumSubexp].
  rewrite search_anchored. intros [ms Hms].
  destruct (run _ 0 (list_ascii_of_string path) [] _) as [found|] eqn:Hrun;
    [|discriminate Hms].
  apply run_segments_inv in Hrun
    as (parts & rest & n' & pos' & caps' & Hfits & Hs & Hend).
  apply run_wildcard_end_inv in Hend as (v & -> & Hv).
  exists parts, v. split; [exact Hfits|]. split; [exact Hv|].
  apply (f_equal string_of_list_ascii) in Hs.
  rewrite string_of_list_ascii_of_string in Hs. rewrite Hs.
  change ("/"%char :: list_ascii_of_string v) with (list_ascii_of_string ("/" +:+ v)).
  by rewrite <- chars_app, string_of_list_ascii_of_string.
Qed.

End Captures.

Section SegmentRoutes.
Context {W : Type} `{!http.ResponseWriter W}.

Lemma zip_nil_r {A B : Type} (l : list A) : zip l (@nil B) = [].
Proof. by destruct l. Qed.

(** With names that are pairwise different, the loop that fills the
    parameter map pairs the names with the captures in order. *)
Lemma bind_params_zip (names matches : list string) (i : nat)
    (params : gmap string string) :
  NoDup names ->
  bind_params i names matches params
  = list_to_map (zip names (drop (S i) matches)) ∪ params.
Proof.
  revert i params. induction names as [|n names IH]; intros i params Hnd.
  - cbn. by rewrite (left_id ∅ (∪)).
  - apply NoDup_cons in Hnd as [Hn Hnd]. cbn [bind_params]. rewrite IH by done.
    replace (i + 1)%nat with (S i) by lia.
    destruct (matches !! S i) as [v|] eqn:Hv.
    + rewrite (drop_S matches v (S i) Hv).
      change (zip (n :: names) (v :: drop (S (S i)) matches))
        with ((n, v) :: zip names (drop (S (S i)) matches)).
      rewrite list_to_map_cons.
      assert (Hnone : (list_to_map (zip names (drop (S (S i)) matches))
                        : gmap string string) !! n = None).
      { apply not_elem_of_list_to_map_1. intros Hin.
        apply list_elem_of_fmap in Hin as ([a b] & -> & Hin).
        apply elem_of_zip_l in Hin. by apply Hn. }
      by rewrite <- insert_union_l, <- (insert_union_r _ _ _ _ Hnone).
    + apply lookup_ge_None in Hv.
      rewrite (drop_ge matches (S i)), (drop_ge matches (S (S i))) by lia.
      by rewrite !zip_nil_r.
Qed.

(** X18: patterns of fixed segments and plain parameters.  Registering a
    pattern made of fixed segments of ASCII text and of parameters
    without a constraint never panics: [Handler] stores a route that carries the
    builder's handler and middleware and the parameters' names in the
    order of the pattern.  The stored expression matches exactly the
    paths that spell, with or without one closing slash, one part for
    each segment, a fixed segment by its own text and a parameter by any
    text that is not empty and holds no slash; and it captures the whole
    path followed by the parts that stand at the parameters. *)
Theorem Handler_segments (segs : list segment) (rb : RouteBuilder W) (r : Router W) :
  forallb segment_ok segs = true ->
  forallb segment_ascii segs = true ->
  rb_path rb = pattern_of segs ->
  exists rt,
    Handler rb r
    = Some {| routes :=
                <[rb_method rb :=
                    <[rb_path rb := rt]> (default ∅ (routes r !! rb_method rb))]>
                  (routes r) |} /\
    handler rt = rb_handler rb /\ before rt = beforeMW rb /\ after rt = afterMW rb /\
    paramNames rt = param_names segs /\
    (forall path parts, fits_all segs parts = true -> spells path parts ->
       regexp.FindStringSubmatch (regex rt) path
       = Some (path :: param_values segs parts)) /\
    (forall path, matches_path rt path ->
       exists parts, fits_all segs parts = true /\ spells path parts).
Proof.
  intros Hok _ Hpath.
  exists {| handler := rb_handler rb; pattern := rb_path rb;
            before := beforeMW rb; after := afterMW rb;
            regex := segments_regexp segs; paramNames := param_names segs |}.
  split; [|repeat split].
  - apply Handler_compiles with (text := "^" +:+ segs_re segs (end_re PlainEnd)).
    + rewrite Hpath. by apply compile_pattern_segments.
    + apply Compile_segments.
  - intros path parts. apply FindStringSubmatch_segments.
  - intros path. apply FindStringSubmatch_segments_inv.
Qed.

(** X19: resolution against such a pattern.  On a router that holds one
    route, registered for a pattern of fixed segments of ASCII text and
    of parameters with pairwise different names, [MatchRoute] returns the route's
    handler for every path that spells fitting parts, with exactly each
    parameter's name bound to the part that stands at it, and returns no
    handler and no bindings for every other path. *)
Theorem MatchRoute_segments (segs : list segment) (method : string)
    (h : HandlerFunc W) (o : range_order) :
  visits_each_once o ->
  forallb segment_ok segs = true ->
  forallb segment_ascii segs = true ->
  NoDup (param_names segs) ->
  exists r,
    Handler (AddRoute method (pattern_of segs) h) newRouter = Some r /\
    forall path,
      (forall parts, fits_all segs parts = true -> spells path parts ->
         MatchRoute r o method path
         = (Some h,
            Some (list_to_map (zip (param_names segs) (param_values segs parts))))) /\
      ((forall parts, fits_all segs parts = true -> ~ spells path parts) ->
       MatchRoute r o method path = (None, None)).
Proof.
  intros Ho Hok _ Hnd.
  set (rt := {| handler := h; pattern := pattern_of segs; before := []; after := [];
                regex := segments_regexp segs; paramNames := param_names segs |}).
  exists {| routes := {[method := {[pattern_of segs := rt]}]} |}. split.
  - apply (Handler_single (AddRoute method (pattern_of segs) h)
             ("^" +:+ segs_re segs (end_re PlainEnd)) (param_names segs) (segments_regexp segs)).
    + by apply compile_pattern_segments.
    + apply Compile_segments.
  - intros path.
    rewrite (MatchRoute_single _ o method path (pattern_of segs) rt Ho)
      by apply lookup_singleton_eq.
    split.
    + intros parts Hfits Hspells.
      pose proof (FindStringSubmatch_segments segs parts path Hfits Hspells) as Hms.
      rewrite match_step_first by (by exists (path :: param_values segs parts)).
      cbn [bestMatchHandler bestMatchParams]. unfold route_params.
      cbn [regex paramNames rt]. rewrite Hms. cbn [mbind option_bind].
      rewrite (bind_params_zip _ _ 0 ∅ Hnd). cbn [drop].
      by rewrite (right_id ∅ (∪)).
    + intros Hnone. unfold match_step. cbn [regex rt].
      destruct (regexp.FindStringSubmatch (segments_regexp segs) path) as [ms|] eqn:Hms;
        [|reflexivity].
      destruct (FindStringSubmatch_segments_inv segs path) as (parts & Hfits & Hspells);
        [by rewrite Hms|].
      by destruct (Hnone parts Hfits).
Qed.

(** X20: patterns that end with the wildcard.  Registering a pattern made
    of such segments, the fixed ones of ASCII text, followed by the
    wildcard segment never panics; the
    stored route names its last parameter [wildcard], after the names of
    the pattern's parameters in order.  Its expression matches exactly
    the paths that spell one fitting part for each segment, then a slash,
    then any text without a line end, slashes and the empty text
    included; and it captures, after the parts that stand at the
    parameters, that whole text: a closing slash belongs to the
    wildcard. *)
Theorem Handler_wildcard (segs : list segment) (rb : RouteBuilder W) (r : Router W) :
  forallb segment_ok segs = true ->
  forallb segment_ascii segs = true ->
  rb_path rb = pattern_with segs WildcardEnd ->
  exists rt,
    Handler rb r
    = Some {| routes :=
                <[rb_method rb :=
                    <[rb_path rb := rt]> (default ∅ (routes r !! rb_method rb))]>
                  (routes r) |} /\
    handler rt = rb_handler rb /\ before rt = beforeMW rb /\ after rt = afterMW rb /\
    paramNames rt = param_names segs ++ ["wildcard"] /\
    (forall parts rest, fits_all segs parts = true -> has_byte newline rest = false ->
       regexp.FindStringSubmatch (regex rt) (join_path parts +:+ "/" +:+ rest)
       = Some ((join_path parts +:+ "/" +:+ rest)
                 :: param_values segs parts ++ [rest])) /\
    (forall path, matches_path rt path ->
       exists parts rest,
         fits_all segs parts = true /\ has_byte newline rest = false /\
         path = join_path parts +:+ "/" +:+ rest).
Proof.
  intros Hok _ Hpath. cbn [pattern_with] in Hpath.
  exists {| handler := rb_handler rb; pattern := rb_path rb;
            before := beforeMW rb; after := afterMW rb;
            regex := wildcard_regexp segs;
            paramNames := param_names segs ++ ["wildcard"] |}.
  split; [|repeat split].
  - apply Handler_compiles with (text := "^" +:+ segs_re segs (end_re WildcardEnd)).
    + rewrite Hpath. by apply compile_pattern_wildcard.
    + apply Compile_wildcard.
  - intros parts rest. apply FindStringSubmatch_wildcard.
  - intros path. apply FindStringSubmatch_wildcard_inv.
Qed.

End SegmentRoutes.

(* ===================================================================== *)
(** * Static files *)
(* ===================================================================== *)

Section StaticFilesProperties.
Context {W : Type} `{!http.ResponseWriter W}.

Lemma chars_of_list (l : list ascii) (s : string) :
  string_of_list_ascii (l ++ list_ascii_of_string s) = string_of_list_ascii l +:+ s.
Proof.
  induction l as [|c l IH]; cbn [app string_of_list_ascii].
  - apply string_of_list_ascii_of_string.
  - by rewrite IH.
Qed.

Lemma substring_skip (p x : string) (n : nat) :
  String.substring (String.length p) n (p +:+ x) = String.substring 0 n x.
Proof. induction p as [|c p IH]; [reflexivity|]. rewrite append_cons. exact IH. Qed.

Lemma slice_from_app (p x : string) :
  GoStrings.slice_from (p +:+ x) (String.length p) = x.
Proof.
  unfold GoStrings.slice_from. rewrite String_length_app.
  replace (String.length p + String.length x - String.length p)%nat
    with (String.length x) by lia.
  rewrite substring_skip. apply substring_full.
Qed.

Lemma prefix_app (p x : string) : String.prefix p (p +:+ x) = true.
Proof.
  induction p as [|c p IH]; [by destruct x|]. rewrite append_cons.
  cbn [String.prefix]. by destruct (ascii_dec c c).
Qed.

Lemma TrimPrefix_app (p x : string) : TrimPrefix (p +:+ x) p = x.
Proof.
  unfold TrimPrefix, GoStrings.HasPrefix. by rewrite prefix_app, slice_from_app.
Qed.

Lemma HasSuffix_snoc (x : string) (c : ascii) :
  HasSuffix (x +:+ String c EmptyString) "/" = Ascii.eqb c "/".
Proof.
  unfold HasSuffix. rewrite String_length_app. cbn [String.length].
  replace (1 <=? String.length x + 1)%nat with true
    by (symmetry; apply Nat.leb_le; lia).
  replace (String.length x + 1 - 1)%nat with (String.length x) by lia.
  rewrite slice_from_app. cbn [andb String.eqb]. by destruct (Ascii.eqb c "/").
Qed.

Lemma text_last (t : string) :
  t <> EmptyString -> has_byte "/" t = false ->
  exists t0 c, t = t0 +:+ String c EmptyString /\ c <> "/"%char.
Proof.
  induction t as [|a t IH]; [done|]. intros _ Ht.
  rewrite has_byte_cons in Ht. apply orb_false_elim in Ht as [Ha Ht].
  destruct t as [|b t].
  - exists EmptyString, a. split; [reflexivity|]. intros ->. discriminate Ha.
  - destruct (IH ltac:(discriminate) Ht) as (t0 & c & Heq & Hc).
    exists (String a t0), c. split; [|exact Hc]. by rewrite append_cons, <- Heq.
Qed.

Lemma join_last (texts : list string) :
  texts <> [] ->
  Forall (fun t => t <> EmptyString /\ has_byte "/" t = false) texts ->
  exists y c, join_path texts = y +:+ String c EmptyString /\ c <> "/"%char.
Proof.
  induction texts as [|t texts IH]; [done|]. intros _ Hall.
  apply Forall_cons in Hall as [[Hne Ht] Hall].
  change (join_path (t :: texts)) with ("/" +:+ t +:+ join_path texts).
  destruct texts as [|t' texts].
  - destruct (text_last t Hne Ht) as (t0 & c & -> & Hc).
    exists ("/" +:+ t0), c. split; [|exact Hc].
    change (join_path []) with EmptyString. by rewrite append_nil_r, append_assoc.
  - destruct (IH ltac:(discriminate) Hall) as (y & c & -> & Hc).
    exists ("/" +:+ t +:+ y), c. split; [|exact Hc]. by rewrite !append_assoc.
Qed.

(** The prefix of a mount, given with or without its closing slash. *)
Lemma static_prefix_segments (segs : list segment) (urlPrefix : string) :
  forallb segment_ok segs = true ->
  urlPrefix = pattern_of segs \/ urlPrefix = pattern_of segs +:+ "/" ->
  static_prefix urlPrefix = pattern_of segs +:+ "/".
Proof.
  intros Hok [->| ->]; unfold static_prefix.
  - destruct segs as [|sg segs]; [reflexivity|].
    destruct (join_last (segment_text <$> sg :: segs)) as (y & c & Heq & Hc).
    + discriminate.
    + apply Forall_fmap, Forall_forall. intros sg' Hin.
      rewrite forallb_forall in Hok. apply list_elem_of_In in Hin.
      specialize (Hok sg' Hin). split; [|by apply segment_text_no_slash].
      destruct sg' as [text|name]; [|discriminate].
      cbn [segment_text]. intros Ht. subst text. discriminate Hok.
    + unfold pattern_of. rewrite Heq, HasSuffix_snoc.
      by destruct (Ascii.eqb_spec c "/").
  - change "/" with (String "/" EmptyString) at 1.
    by rewrite HasSuffix_snoc.
Qed.

Lemma fits_static_only (segs : list segment) (parts : list string) :
  static_only segs = true ->
  fits_all segs parts = true ->
  join_path parts = pattern_of segs /\ param_names segs = [] /\
  param_values segs parts = [].
Proof.
  revert parts. induction segs as [|[text|name] segs IH]; intros [|p parts] Hst Hfits;
    try discriminate; [done|].
  cbn [fits_all fits] in Hfits. apply andb_prop in Hfits as [Hp Hfits].
  apply String.eqb_eq in Hp as ->.
  destruct (IH parts Hst Hfits) as (Hjoin & Hnames & Hvalues).
  split; [|split; [exact Hnames|exact Hvalues]].
  change (join_path (text :: parts)) with ("/" +:+ text +:+ join_path parts).
  by rewrite Hjoin.
Qed.

Lemma static_only_fits (segs : list segment) :
  static_only segs = true -> fits_all segs (segment_text <$> segs) = true.
Proof.
  induction segs as [|[text|name] segs IH]; intros Hst; try discriminate; [done|].
  cbn [fmap list_fmap fits_all fits segment_text]. rewrite String.eqb_refl.
  by apply IH.
Qed.

(** X21: mounting static files.  [Static] and [StaticFS], given a prefix
    of fixed segments of ASCII text with or without its closing slash,
    register one
    GET route.  On the router they make of the empty one, every path
    that is the prefix, a slash and any text without a line end resolves
    to the registered handler with the parameter [wildcard] bound to
    that text, and the handler hands the file server the request with
    exactly that text as its path; every other path resolves to
    nothing, the prefix without its slash included. *)
Theorem StaticFS_mount (segs : list segment) (urlPrefix : string)
    (fileServer : Context W -> Context W) (o : range_order) :
  visits_each_once o ->
  forallb segment_ok segs = true ->
  forallb segment_ascii segs = true ->
  static_only segs = true ->
  urlPrefix = pattern_of segs \/ urlPrefix = pattern_of segs +:+ "/" ->
  exists r,
    Handler (StaticFS urlPrefix fileServer) newRouter = Some r /\
    (forall rest, has_byte newline rest = false ->
       MatchRoute r o http.MethodGet (pattern_of segs +:+ "/" +:+ rest)
       = (Some (static_handler (pattern_of segs +:+ "/") fileServer),
          Some {["wildcard" := rest]}) /\
       forall c, http.URL_Path (Request c) = pattern_of segs +:+ "/" +:+ rest ->
         static_handler (pattern_of segs +:+ "/") fileServer c
         = (None, fileServer (set_URL_Path rest c))) /\
    (forall path, fst (MatchRoute r o http.MethodGet path) <> None ->
       exists rest, has_byte newline rest = false /\
                    path = pattern_of segs +:+ "/" +:+ rest).
Proof.
  intros Ho Hok _ Hst Hprefix.
  set (P := pattern_of segs +:+ "/").
  set (h := static_handler P fileServer).
  set (rt := {| handler := h; pattern := P +:+ "*"; before := []; after := [];
                regex := wildcard_regexp segs;
                paramNames := param_names segs ++ ["wildcard"] |}).
  assert (Hpat : P +:+ "*" = pattern_of segs +:+ "/*") by (unfold P; by rewrite append_assoc).
  assert (Hrb : StaticFS urlPrefix fileServer = AddRoute http.MethodGet (P +:+ "*") h).
  { unfold StaticFS. by rewrite (static_prefix_segments segs urlPrefix Hok Hprefix). }
  exists {| routes := {[http.MethodGet := {[P +:+ "*" := rt]}]} |}. split; [|split].
  - rewrite Hrb.
    apply (Handler_single (AddRoute http.MethodGet (P +:+ "*") h)
             ("^" +:+ segs_re segs (end_re WildcardEnd))
             (param_names segs ++ ["wildcard"]) (wildcard_regexp segs)).
    + cbn [rb_path AddRoute]. rewrite Hpat. by apply compile_pattern_wildcard.
    + apply Compile_wildcard.
  - intros rest Hrest. split.
    + rewrite (MatchRoute_single _ o http.MethodGet _ (P +:+ "*") rt Ho)
        by apply lookup_singleton_eq.
      pose proof (FindStringSubmatch_wildcard segs (segment_text <$> segs) rest
                    (static_only_fits segs Hst) Hrest) as Hms.
      destruct (fits_static_only segs _ Hst (static_only_fits segs Hst))
        as (Hjoin & Hnames & Hvalues).
      rewrite Hjoin, Hvalues in Hms. cbn [app] in Hms.
      rewrite match_step_first by (eexists; exact Hms).
      cbn [bestMatchHandler bestMatchParams]. unfold route_params.
      cbn [regex paramNames rt]. rewrite Hms, Hnames. cbn [mbind option_bind app].
      cbn [bind_params]. cbn. by rewrite insert_empty.
    + intros c Hc. unfold h, P, static_handler. rewrite Hc.
      by rewrite <- append_assoc, TrimPrefix_app.
  - intros path Hfound.
    rewrite (MatchRoute_single _ o http.MethodGet path (P +:+ "*") rt Ho) in Hfound
      by apply lookup_singleton_eq.
    unfold match_step in Hfound. cbn [regex rt] in Hfound.
    destruct (regexp.FindStringSubmatch (wildcard_regexp segs) path) as [ms|] eqn:Hms;
      [|by destruct Hfound].
    destruct (FindStringSubmatch_wildcard_inv segs path) as (parts & rest & Hfits & Hrest & ->);
      [by rewrite Hms|].
    exists rest. split; [exact Hrest|].
    by rewrite (proj1 (fits_static_only segs parts Hst Hfits)).
Qed.

End StaticFilesProperties.

(* ===================================================================== *)
(** * The routes of the application *)
(* ===================================================================== *)

Section ApplicationRoutes.
Context {W : Type} `{!http.ResponseWriter W}.

(** A route that matches while every other matching route of the method
    has a shorter pattern is the one [MatchRoute] returns. *)
Lemma MatchRoute_unique_longest (r : Router W) (o : range_order)
    (method path p : string) (rt : route W) (methodRoutes : gmap string (route W)) :
  visits_each_once o ->
  routes r !! method = Some methodRoutes ->
  methodRoutes !! p = Some rt ->
  matches_path rt path ->
  (forall p' rt', methodRoutes !! p' = Some rt' -> p' <> p -> matches_path rt' path ->
     (String.length p' < String.length p)%nat) ->
  MatchRoute r o method path = selects rt path.
Proof.
  intros Ho Hr Hp Hm Hshorter.
  destruct (MatchRoute_spec r o method path methodRoutes Ho Hr)
    as [[_ Hnone]|(p1 & rt1 & Hp1 & (rt1' & Hp1' & Hm1 & Hlong) & ->)].
  - by destruct (Hnone p rt Hp).
  - destruct (decide (p1 = p)) as [->|Hne].
    + rewrite Hp in Hp1. by injection Hp1 as <-.
    + rewrite Hp1 in Hp1'. injection Hp1' as <-.
      pose proof (Hlong p rt Hp Hm) as Hle.
      pose proof (Hshorter p1 rt1 Hp1 Hne Hm1) as Hlt. lia.
Qed.

Lemma fits_all_no_slash (segs : list segment) (parts : list string) :
  forallb segment_ok segs = true ->
  fits_all segs parts = true ->
  forallb (fun p => negb (has_byte "/" p)) parts = true.
Proof.
  revert parts. induction segs as [|sg segs IH]; intros [|p parts] Hok Hfits;
    try discriminate; [done|].
  cbn [forallb fits_all] in *. apply andb_prop in Hok as [Hsg Hok].
  apply andb_prop in Hfits as [Hp Hfits]. rewrite (IH parts Hok Hfits), andb_true_r.
  destruct sg as [text|name]; cbn [fits] in Hp.
  - apply String.eqb_eq in Hp as ->.
    pose proof (segment_text_no_slash (Static text) Hsg) as Htext.
    cbn [segment_text] in Htext. by rewrite Htext.
  - by apply andb_prop in Hp as [_ ->].
Qed.

Lemma plain_parts_no_slash (parts : list string) :
  forallb plain_part parts = true ->
  forallb (fun p => negb (has_byte "/" p)) parts = true.
Proof.
  induction parts as [|p parts IH]; [done|]. cbn [forallb].
  intros [Hp Hparts]%andb_prop. apply andb_prop in Hp as [_ ->]. by apply IH.
Qed.

(** On a path of plain parts, matching is fitting part by part. *)
Lemma matches_fits (segs : list segment) (parts : list string) :
  forallb segment_ok segs = true ->
  forallb plain_part parts = true ->
  is_Some (regexp.FindStringSubmatch (segments_regexp segs) (join_path parts)) ->
  fits_all segs parts = true.
Proof.
  intros Hok Hparts Hm.
  apply FindStringSubmatch_segments_inv in Hm as (parts' & Hfits & Hspells).
  pose proof (fits_all_no_slash segs parts' Hok Hfits) as Hclean'.
  pose proof (plain_parts_no_slash parts Hparts) as Hclean.
  destruct Hspells as [Heq|Heq];
    apply (f_equal (fun s => GoStrings.Split s "/")) in Heq;
    rewrite (Split_join parts Hclean) in Heq.
  - rewrite (Split_join parts' Hclean') in Heq. by injection Heq as ->.
  - change (join_path parts' +:+ "/") with (join_path parts' +:+ "/" +:+ EmptyString) in Heq.
    rewrite (Split_join_last parts' EmptyString Hclean' eq_refl) in Heq.
    injection Heq as ->. rewrite forallb_app in Hparts.
    by apply andb_prop in Hparts as [_ Hparts].
Qed.

(** The registrations of [main] all succeed and make the router of the
    application of the empty one. *)
Lemma app_registered (hs : handlers (W := W)) :
  register_each (app_registrations hs) newRouter = Some (app_router hs).
Proof. vm_compute. reflexivity. Qed.

(** A route of the table under [/api] or [/share] on a path of plain
    parts that fit its pattern. *)
Lemma route_on_parts (segs : list segment) (h : HandlerFunc W)
    (bs : list (MiddlewareFunc W)) (parts : list string) :
  fits_all segs parts = true ->
  NoDup (param_names segs) ->
  matches_path (segments_route segs h bs) (join_path parts) /\
  selects (segments_route segs h bs) (join_path parts)
  = (Some (applyMiddleware h bs),
     Some (list_to_map (zip (param_names segs) (param_values segs parts)))).
Proof.
  intros Hfits Hnd.
  pose proof (FindStringSubmatch_segments segs parts (join_path parts) Hfits
                (or_introl eq_refl)) as Hms.
  split; [by eexists|].
  unfold selects, route_params, chainedHandler. cbn [segments_route regex handler
    before after paramNames applyMiddleware]. rewrite Hms. cbn [mbind option_bind].
  rewrite (bind_params_zip _ _ 0 ∅ Hnd). cbn [drop]. by rewrite (right_id ∅ (∪)).
Qed.

(** The entries of the table, one by one. *)
Lemma app_GET_table_cases (hs : handlers) (p : string) (rt : route W) :
  app_GET_table hs !! p = Some rt ->
  (p = "/*" /\ regex rt = wildcard_regexp []) \/
  exists segs h bs,
    In segs api_patterns /\ p = pattern_of segs /\ rt = segments_route segs h bs.
Proof.
  unfold app_GET_table. intros Hp.
  repeat (apply lookup_insert_Some in Hp as [[<- <-]|[_ Hp]];
          [right;
           refine (ex_intro _ _ (ex_intro _ _ (ex_intro _ _
                     (conj _ (conj _ eq_refl)))));
           [cbn; tauto|reflexivity]|]).
  apply lookup_singleton_Some in Hp as [<- <-]. by left.
Qed.

Lemma app_POST_table_cases (hs : handlers) (p : string) (rt : route W) :
  app_POST_table hs !! p = Some rt ->
  exists segs h bs,
    In segs post_patterns /\ p = pattern_of segs /\ rt = segments_route segs h bs.
Proof.
  unfold app_POST_table. intros Hp.
  repeat (apply lookup_insert_Some in Hp as [[<- <-]|[_ Hp]];
          [refine (ex_intro _ _ (ex_intro _ _ (ex_intro _ _
                     (conj _ (conj _ eq_refl)))));
           [cbn; tauto|reflexivity]|]).
  apply lookup_singleton_Some in Hp as [<- <-].
  refine (ex_intro _ _ (ex_intro _ _ (ex_intro _ _ (conj _ (conj _ eq_refl)))));
    [cbn; tauto|reflexivity].
Qed.

(** Paths off the patterns of the application: those that do not begin
    with a slash, and those that begin neither with [/api/docs] nor with
    [/share/]. *)
Lemma off_patterns_no_root (path : string) :
  GoStrings.HasPrefix path "/" = false -> off_patterns api_patterns path.
Proof.
  intros Hroot segs parts Hin Hfits Hspells.
  assert (Hpath : exists x, path = "/" +:+ x).
  { cbn in Hin. destruct Hin as [<-|[<-|[<-|[<-|[<-|[]]]]]];
      (destruct parts as [|a parts]; [discriminate Hfits|]);
      destruct Hspells as [->| ->]; cbn [join_path];
      rewrite <- ?append_assoc; by eexists. }
  destruct Hpath as [x ->]. unfold GoStrings.HasPrefix in Hroot.
  by rewrite prefix_app in Hroot.
Qed.

Lemma off_patterns_outside (rest : string) :
  GoStrings.HasPrefix rest "api/docs" = false ->
  GoStrings.HasPrefix rest "share/" = false ->
  off_patterns api_patterns ("/" +:+ rest).
Proof.
  intros Hapi Hshare segs parts Hin Hfits Hspells.
  unfold GoStrings.HasPrefix in Hapi, Hshare.
  assert (Hrest : (exists x, rest = "api/docs" +:+ x) \/ (exists x, rest = "share/" +:+ x)).
  { cbn in Hin. destruct Hin as [<-|[<-|[<-|[<-|[<-|[]]]]]];
      (destruct parts as [|a parts]; [discriminate Hfits|]);
      apply andb_true_iff in Hfits as [Ha Hfits];
      apply String.eqb_eq in Ha as ->;
      (destruct parts as [|b parts]; [discriminate Hfits|]).
    1-4: left; apply andb_true_iff in Hfits as [Hb _];
         apply String.eqb_eq in Hb as ->.
    5: right.
    all: destruct Hspells as [Hs|Hs].
    all: first
      [ exists (join_path parts);
        change (String "/" rest = String "/" ("api/docs" +:+ join_path parts)) in Hs;
        by injection Hs
      | exists (join_path parts +:+ "/");
        change (String "/" rest = String "/" ("api/docs" +:+ (join_path parts +:+ "/")))
          in Hs;
        by injection Hs
      | exists (b +:+ join_path parts);
        change (String "/" rest = String "/" ("share/" +:+ (b +:+ join_path parts)))
          in Hs;
        by injection Hs
      | exists ((b +:+ join_path parts) +:+ "/");
        change (String "/" rest
                = String "/" ("share/" +:+ ((b +:+ join_path parts) +:+ "/"))) in Hs;
        by injection Hs ]. }
  destruct Hrest as [[x ->]|[x ->]].
  - by rewrite prefix_app in Hapi.
  - by rewrite prefix_app in Hshare.
Qed.

Lemma off_post_patterns_outside (rest : string) :
  GoStrings.HasPrefix rest "api/" = false ->
  off_patterns post_patterns ("/" +:+ rest).
Proof.
  intros Hapi segs parts Hin Hfits Hspells.
  unfold GoStrings.HasPrefix in Hapi.
  assert (Hrest : exists x, rest = "api/" +:+ x).
  { cbn in Hin. destruct Hin as [<-|[<-|[<-|[<-|[]]]]];
      (destruct parts as [|a parts]; [discriminate Hfits|]);
      apply andb_true_iff in Hfits as [Ha Hfits];
      apply String.eqb_eq in Ha as ->;
      (destruct parts as [|b parts]; [discriminate Hfits|]).
    all: destruct Hspells as [Hs|Hs].
    all: first
      [ exists (b +:+ join_path parts);
        change (String "/" rest = String "/" ("api/" +:+ (b +:+ join_path parts)))
          in Hs;
        by injection Hs
      | exists ((b +:+ join_path parts) +:+ "/");
        change (String "/" rest
                = String "/" ("api/" +:+ ((b +:+ join_path parts) +:+ "/"))) in Hs;
        by injection Hs ]. }
  destruct Hrest as [x ->]. by rewrite prefix_app in Hapi.
Qed.

(** The side condition of [MatchRoute_unique_longest] for an entry of a
    table and a path of plain parts: each other entry is shorter, or
    does not fit the parts. *)
Ltac other_pattern Hid Hin Hne Hm' :=
  cbn in Hin; repeat (destruct Hin as [<-|Hin]); try (exfalso; exact Hin);
  first
    [ exfalso; apply Hne; reflexivity
    | vm_compute; lia
    | exfalso; apply matches_fits in Hm';
      [ cbn in Hm'; rewrite ?andb_false_r in Hm'; discriminate Hm'
      | reflexivity
      | cbn [forallb]; rewrite ?Hid; reflexivity ] ].

Ltac other_entries hs Hid :=
  let p' := fresh "p'" in
  let rt' := fresh "rt'" in
  let Hp' := fresh "Hp'" in
  let Hne := fresh "Hne" in
  let Hm' := fresh "Hm'" in
  let Hin := fresh "Hin" in
  intros p' rt' Hp' Hne Hm';
  destruct (app_GET_table_cases hs p' rt' Hp')
    as [[-> _]|(segs' & h' & bs' & Hin & -> & ->)];
    [vm_compute; lia|];
  other_pattern Hid Hin Hne Hm'.

Ltac other_POST_entries hs Hid :=
  let p' := fresh "p'" in
  let rt' := fresh "rt'" in
  let Hp' := fresh "Hp'" in
  let Hne := fresh "Hne" in
  let Hm' := fresh "Hm'" in
  let Hin := fresh "Hin" in
  intros p' rt' Hp' Hne Hm';
  destruct (app_POST_table_cases hs p' rt' Hp')
    as (segs' & h' & bs' & Hin & -> & ->);
  other_pattern Hid Hin Hne Hm'.

Ltac only_entry :=
  let p' := fresh "p'" in
  let rt' := fresh "rt'" in
  let Hp' := fresh "Hp'" in
  let Hne := fresh "Hne" in
  intros p' rt' Hp' Hne _;
  unfold app_PUT_table, app_DELETE_table in Hp';
  apply lookup_singleton_Some in Hp' as [<- _]; by destruct Hne.

(** The parts of a path of the application fit the segments of its
    pattern when the identifier is a plain part. *)
Ltac fits_parts Hid :=
  unfold doc_segs, history_segs, subscribe_segs, shared_segs, share_segs;
  cbn [fits_all];
  match type of Hid with
  | plain_part ?id = true => change (fits (Named _) id) with (plain_part id)
  end;
  rewrite Hid; reflexivity.

(** X22: the GET routes of the application.  The registrations of [main]
    all succeed, and on the router they build, whatever the order in
    which a loop visits the routes: the list of documents, a document,
    its history, its event stream and a shared document are each
    resolved to their own handler, those under [/api] inside the JWT
    unit, with the document's or the share's identifier bound, for every
    identifier that is not empty and holds no slash; every other path
    that begins with a slash and holds no line end goes to the embedded
    files with the rest of the path as [wildcard]; and any remaining
    path resolves to nothing. *)
Theorem app_GET_resolution (hs : handlers) (o : range_order) (id : string) :
  visits_each_once o ->
  plain_part id = true ->
  exists r : Router W,
    register_each (app_registrations hs) newRouter = Some r /\
    MatchRoute r o http.MethodGet (join_path ["api"; "docs"])
    = (Some (JWTAuth hs (list_docs hs)), Some ∅) /\
    MatchRoute r o http.MethodGet (join_path ["api"; "docs"; id])
    = (Some (JWTAuth hs (get_doc hs)), Some {["id" := id]}) /\
    MatchRoute r o http.MethodGet (join_path ["api"; "docs"; id; "history"])
    = (Some (JWTAuth hs (doc_history hs)), Some {["id" := id]}) /\
    MatchRoute r o http.MethodGet (join_path ["api"; "docs"; id; "subscribe"])
    = (Some (JWTAuth hs (doc_subscribe hs)), Some {["id" := id]}) /\
    MatchRoute r o http.MethodGet (join_path ["share"; id])
    = (Some (shared_doc hs), Some {["shareID" := id]}) /\
    (forall rest, has_byte newline rest = false ->
       off_patterns api_patterns ("/" +:+ rest) ->
       MatchRoute r o http.MethodGet ("/" +:+ rest)
       = (Some (static_handler "/" (embedded hs)), Some {["wildcard" := rest]})) /\
    (forall path, off_patterns api_patterns path ->
       (forall rest, path = "/" +:+ rest -> has_byte newline rest = true) ->
       MatchRoute r o http.MethodGet path = (None, None)).
Proof.
  intros Ho Hid. exists (app_router hs). split; [apply app_registered|].
  set (r := app_router hs).
  assert (Hr : routes r !! http.MethodGet = Some (app_GET_table hs))
    by apply lookup_insert_eq.
  split; [|split; [|split; [|split; [|split; [|split]]]]].
  - destruct (route_on_parts docs_segs (list_docs hs) [JWTAuth hs] ["api"; "docs"])
      as [Hm Hsel]; [reflexivity|constructor|].
    rewrite (MatchRoute_unique_longest r o _ _ "/api/docs" _ _ Ho Hr eq_refl Hm);
      [exact Hsel|]. other_entries hs Hid.
  - destruct (route_on_parts doc_segs (get_doc hs) [JWTAuth hs] ["api"; "docs"; id])
      as [Hm Hsel]; [fits_parts Hid|apply NoDup_singleton|].
    rewrite (MatchRoute_unique_longest r o _ _ "/api/docs/:id" _ _ Ho Hr eq_refl Hm);
      [rewrite Hsel; cbn; by rewrite insert_empty|]. other_entries hs Hid.
  - destruct (route_on_parts history_segs (doc_history hs) [JWTAuth hs]
                ["api"; "docs"; id; "history"])
      as [Hm Hsel]; [fits_parts Hid|apply NoDup_singleton|].
    rewrite (MatchRoute_unique_longest r o _ _ "/api/docs/:id/history" _ _ Ho Hr
               eq_refl Hm);
      [rewrite Hsel; cbn; by rewrite insert_empty|]. other_entries hs Hid.
  - destruct (route_on_parts subscribe_segs (doc_subscribe hs) [JWTAuth hs]
                ["api"; "docs"; id; "subscribe"])
      as [Hm Hsel]; [fits_parts Hid|apply NoDup_singleton|].
    rewrite (MatchRoute_unique_longest r o _ _ "/api/docs/:id/subscribe" _ _ Ho Hr
               eq_refl Hm);
      [rewrite Hsel; cbn; by rewrite insert_empty|]. other_entries hs Hid.
  - destruct (route_on_parts shared_segs (shared_doc hs) [] ["share"; id])
      as [Hm Hsel]; [fits_parts Hid|apply NoDup_singleton|].
    rewrite (MatchRoute_unique_longest r o _ _ "/share/:shareID" _ _ Ho Hr eq_refl Hm);
      [rewrite Hsel; cbn; by rewrite insert_empty|]. other_entries hs Hid.
  - intros rest Hrest Hoff.
    pose proof (FindStringSubmatch_wildcard [] [] rest eq_refl Hrest) as Hms.
    change (join_path [] +:+ "/" +:+ rest) with ("/" +:+ rest) in Hms.
    cbn [param_values app] in Hms.
    assert (Hm : matches_path
                   {| handler := static_handler "/" (embedded hs); pattern := "/*";
                      before := []; after := [];
                      regex := wildcard_regexp []; paramNames := ["wildcard"] |}
                   ("/" +:+ rest)) by (by eexists).
    rewrite (MatchRoute_unique_longest r o _ _ "/*" _ _ Ho Hr eq_refl Hm).
    + unfold selects, route_params. cbn [regex paramNames]. rewrite Hms.
      cbn. by rewrite insert_empty.
    + intros p' rt' Hp' Hne Hm'.
      destruct (app_GET_table_cases hs p' rt' Hp')
        as [[-> _]|(segs' & h' & bs' & Hin & -> & ->)]; [by destruct Hne|].
      apply FindStringSubmatch_segments_inv in Hm' as (parts & Hfits & Hspells).
      by destruct (Hoff segs' parts Hin Hfits).
  - intros path Hoff Hnl.
    destruct (MatchRoute_spec r o http.MethodGet path _ Ho Hr)
      as [[-> _]|(p & rt & Hp & (rt0 & Hp0 & Hm & _) & _)]; [reflexivity|].
    exfalso. rewrite Hp in Hp0. injection Hp0 as <-.
    destruct (app_GET_table_cases hs p rt Hp)
      as [[-> Hre]|(segs' & h' & bs' & Hin & -> & ->)].
    + unfold matches_path in Hm. rewrite Hre in Hm.
      apply FindStringSubmatch_wildcard_inv in Hm as (parts & rest & Hfits & Hrest & ->).
      destruct parts; [|discriminate Hfits].
      specialize (Hnl rest eq_refl). congruence.
    + apply FindStringSubmatch_segments_inv in Hm as (parts & Hfits & Hspells).
      by destruct (Hoff segs' parts Hin Hfits).
Qed.

(** No entry of a table matches a path off its patterns. *)
Lemma MatchRoute_off (r : Router W) (o : range_order) (method path : string)
    (methodRoutes : gmap string (route W)) (patterns : list (list segment)) :
  visits_each_once o ->
  routes r !! method = Some methodRoutes ->
  (forall p rt, methodRoutes !! p = Some rt ->
     exists segs h bs, In segs patterns /\ rt = segments_route segs h bs) ->
  off_patterns patterns path ->
  MatchRoute r o method path = (None, None).
Proof.
  intros Ho Hr Hcases Hoff.
  destruct (MatchRoute_spec r o method path _ Ho Hr)
    as [[-> _]|(p & rt & Hp & (rt0 & Hp0 & Hm & _) & _)]; [reflexivity|].
  exfalso. rewrite Hp in Hp0. injection Hp0 as <-.
  destruct (Hcases p rt Hp) as (segs & h & bs & Hin & ->).
  apply FindStringSubmatch_segments_inv in Hm as (parts & Hfits & Hspells).
  by destruct (Hoff segs parts Hin Hfits).
Qed.

(** X23: the routes of the application that write.  On the router the
    registrations of [main] build, whatever the order in which a loop
    visits the routes: signing up and logging in are resolved to their
    handlers as they are, with no unit before them; creating, sharing,
    updating and deleting a document are resolved to their handlers
    inside the JWT unit, with the document's identifier bound where the
    pattern has one; a POST, PUT or DELETE of any path off these
    patterns resolves to nothing, there being no files for them; and so
    does every request of a method other than GET, POST, PUT and
    DELETE. *)
Theorem app_write_resolution (hs : handlers) (o : range_order) (id : string) :
  visits_each_once o ->
  plain_part id = true ->
  exists r : Router W,
    register_each (app_registrations hs) newRouter = Some r /\
    MatchRoute r o http.MethodPost (join_path ["api"; "signup"])
    = (Some (signup hs), Some ∅) /\
    MatchRoute r o http.MethodPost (join_path ["api"; "login"])
    = (Some (login hs), Some ∅) /\
    MatchRoute r o http.MethodPost (join_path ["api"; "docs"])
    = (Some (JWTAuth hs (create_doc hs)), Some ∅) /\
    MatchRoute r o http.MethodPost (join_path ["api"; "docs"; id; "share"])
    = (Some (JWTAuth hs (share_doc hs)), Some {["id" := id]}) /\
    MatchRoute r o "PUT" (join_path ["api"; "docs"; id])
    = (Some (JWTAuth hs (update_doc hs)), Some {["id" := id]}) /\
    MatchRoute r o "DELETE" (join_path ["api"; "docs"; id])
    = (Some (JWTAuth hs (delete_doc hs)), Some {["id" := id]}) /\
    (forall path, off_patterns post_patterns path ->
       MatchRoute r o http.MethodPost path = (None, None)) /\
    (forall path, off_patterns [doc_segs] path ->
       MatchRoute r o "PUT" path = (None, None) /\
       MatchRoute r o "DELETE" path = (None, None)) /\
    (forall method path,
       method <> http.MethodGet -> method <> http.MethodPost ->
       method <> "PUT" -> method <> "DELETE" ->
       MatchRoute r o method path = (None, None)).
Proof.
  intros Ho Hid. exists (app_router hs). split; [apply app_registered|].
  set (r := app_router hs).
  assert (Hpost : routes r !! http.MethodPost = Some (app_POST_table hs)) by done.
  assert (Hput : routes r !! "PUT" = Some (app_PUT_table hs)) by done.
  assert (Hdelete : routes r !! "DELETE" = Some (app_DELETE_table hs)) by done.
  split; [|split; [|split; [|split; [|split; [|split; [|split; [|split]]]]]]].
  - destruct (route_on_parts signup_segs (signup hs) [] ["api"; "signup"])
      as [Hm Hsel]; [reflexivity|constructor|].
    rewrite (MatchRoute_unique_longest r o _ _ "/api/signup" _ _ Ho Hpost eq_refl Hm);
      [exact Hsel|]. other_POST_entries hs Hid.
  - destruct (route_on_parts login_segs (login hs) [] ["api"; "login"])
      as [Hm Hsel]; [reflexivity|constructor|].
    rewrite (MatchRoute_unique_longest r o _ _ "/api/login" _ _ Ho Hpost eq_refl Hm);
      [exact Hsel|]. other_POST_entries hs Hid.
  - destruct (route_on_parts docs_segs (create_doc hs) [JWTAuth hs] ["api"; "docs"])
      as [Hm Hsel]; [reflexivity|constructor|].
    rewrite (MatchRoute_unique_longest r o _ _ "/api/docs" _ _ Ho Hpost eq_refl Hm);
      [exact Hsel|]. other_POST_entries hs Hid.
  - destruct (route_on_parts share_segs (share_doc hs) [JWTAuth hs]
                ["api"; "docs"; id; "share"])
      as [Hm Hsel]; [fits_parts Hid|apply NoDup_singleton|].
    rewrite (MatchRoute_unique_longest r o _ _ "/api/docs/:id/share" _ _ Ho Hpost
               eq_refl Hm);
      [rewrite Hsel; cbn; by rewrite insert_empty|]. other_POST_entries hs Hid.
  - destruct (route_on_parts doc_segs (update_doc hs) [JWTAuth hs] ["api"; "docs"; id])
      as [Hm Hsel]; [fits_parts Hid|apply NoDup_singleton|].
    rewrite (MatchRoute_unique_longest r o _ _ "/api/docs/:id" _ _ Ho Hput eq_refl Hm);
      [rewrite Hsel; cbn; by rewrite insert_empty|]. only_entry.
  - destruct (route_on_parts doc_segs (delete_doc hs) [JWTAuth hs] ["api"; "docs"; id])
      as [Hm Hsel]; [fits_parts Hid|apply NoDup_singleton|].
    rewrite (MatchRoute_unique_longest r o _ _ "/api/docs/:id" _ _ Ho Hdelete eq_refl Hm);
      [rewrite Hsel; cbn; by rewrite insert_empty|]. only_entry.
  - intros path Hoff.
    apply (MatchRoute_off r o _ path _ post_patterns Ho Hpost); [|exact Hoff].
    intros p rt Hp.
    destruct (app_POST_table_cases hs p rt Hp) as (segs & h & bs & Hin & _ & ->).
    by exists segs, h, bs.
  - intros path Hoff. split.
    + apply (MatchRoute_off r o _ path _ [doc_segs] Ho Hput); [|exact Hoff].
      intros p rt Hp. unfold app_PUT_table, app_DELETE_table in Hp.
      apply lookup_singleton_Some in Hp as [_ <-].
      eexists _, _, _. split; [by left|reflexivity].
    + apply (MatchRoute_off r o _ path _ [doc_segs] Ho Hdelete); [|exact Hoff].
      intros p rt Hp. unfold app_PUT_table, app_DELETE_table in Hp.
      apply lookup_singleton_Some in Hp as [_ <-].
      eexists _, _, _. split; [by left|reflexivity].
  - intros method path Hget Hpost' Hput' Hdelete'.
    unfold MatchRoute.
    assert (Hnone : routes r !! method = None).
    { unfold r, app_router. cbn [routes].
      rewrite !lookup_insert_ne by done. by apply lookup_singleton_ne. }
    by rewrite Hnone.
Qed.

End ApplicationRoutes.

(* ===================================================================== *)
(** * The further properties at the examples *)
(* ===================================================================== *)

(** Fan-out at the manager of the two documents: Alice has room and gets
    the message, Carol follows another document. *)
Lemma Broadcast_fan_out_witness :
  sse.queue_of "doc1" "alice" (sse.Broadcast "doc1" "m0" in_reverse_order two_docs)
  = Some ["hello"; "m0"] /\
  client_of "doc2" "carol" (sse.Broadcast "doc1" "m0" in_reverse_order two_docs)
  = client_of "doc2" "carol" two_docs.
Proof.
  destruct (Broadcast_fan_out "doc1" "m0" in_reverse_order two_docs in_reverse_order_ok)
    as (_ & Hother & Hroom).
  split.
  - apply (Hroom "alice" alice); vm_compute; reflexivity.
  - apply Hother. discriminate.
Defined.

(** One delivery to Alice. *)
Lemma drain_fifo_witness :
  (drain 1 "doc1" "alice" two_docs).1 = [event_frame "hello"] /\
  sse.queue_of "doc1" "alice" (drain 1 "doc1" "alice" two_docs).2 = Some [].
Proof.
  assert (Hcl : client_of "doc1" "alice" two_docs = Some alice)
    by (vm_compute; reflexivity).
  destruct (drain_fifo 1 "doc1" "alice" two_docs alice Hcl) as (Hframes & Hqueue & _).
  split; [exact Hframes|exact Hqueue].
Defined.

(** Dave subscribes, seven messages are published, he reads three. *)
Lemma publish_then_drain_witness :
  (drain 3 "doc1" "dave"
     (Broadcast_all "doc1" seven_posts (sse.AddClient "doc1" "dave" true two_docs))).1
  = [event_frame "m1"; event_frame "m2"; event_frame "m3"] /\
  sse.deliver "doc1" "dave"
    (drain 5 "doc1" "dave"
       (Broadcast_all "doc1" seven_posts (sse.AddClient "doc1" "dave" true two_docs))).2
  = None.
Proof.
  exact (publish_then_drain 3 "doc1" "dave" true seven_posts two_docs seven_posts_ok).
Defined.


(** Erin is the only client of a third document, and leaves. *)
Lemma AddClient_RemoveClient_witness :
  sse.clients (sse.RemoveClient "doc3" "erin" (sse.AddClient "doc3" "erin" true two_docs))
  = sse.clients two_docs.
Proof.
  apply (AddClient_RemoveClient "doc3" "erin" true two_docs).
  - apply run_no_empty_topic, NewSSEManager_no_empty_topic.
  - vm_compute. reflexivity.
Defined.

(** A sweep at instant 100 removes the session that ended at 50 and
    keeps the one that ends at 500. *)
Lemma cleanup_tick_transparent_witness :
  auth.sessions (auth.cleanup_tick (fun _ => 100%Z) in_reverse_order two_sessions) !! "old"
  = None /\
  auth.sessions (auth.cleanup_tick (fun _ => 100%Z) in_reverse_order two_sessions) !! "new"
  = Some {| auth.UserID := "ben"; auth.ExpiresAt := 500 |}.
Proof.
  destruct (cleanup_tick_transparent (fun _ => 100%Z) in_reverse_order two_sessions
              in_reverse_order_ok) as (Hgone & Hkept & _).
  split.
  - apply (Hgone "old" {| auth.UserID := "ann"; auth.ExpiresAt := 50 |});
      [vm_compute; reflexivity|intros j; simpl; lia].
  - apply (Hkept "new" {| auth.UserID := "ben"; auth.ExpiresAt := 500 |});
      [vm_compute; reflexivity|intros j; simpl; lia].
Defined.

(** The metrics of the three sample requests. *)
Lemma record_all_per_path_witness :
  (metrics.record_all sample_requests metrics.NewMetricsManager).2 = true /\
  forall p,
    metrics.GetMetrics (metrics.record_all sample_requests metrics.NewMetricsManager).1 !! p
    = expected_metrics (durations_of p sample_requests).
Proof.
  apply (record_all_per_path sample_requests).
  - repeat (constructor; [simpl; lia|]). constructor.
  - vm_compute. reflexivity.
  - vm_compute. reflexivity.
Defined.

(** The whole chain at the nested engine. *)
Lemma ServeHTTP_full_chain_witness :
  exists p rt,
    ({["/docs/:id" := nested_route]} : gmap string (route http.wire)) !! p = Some rt /\
    longest_match {["/docs/:id" := nested_route]} "/docs/7" p /\
    ServeHTTP nested_engine in_stored_order http.new_wire (get "/docs/7") []
    = report nested_engine
        (applyMiddleware (handler rt) (middleware nested_engine ++ before rt ++ after rt)
           (SetPathParams (route_params rt "/docs/7")
              (newContext http.new_wire (get "/docs/7") []))).
Proof.
  apply (ServeHTTP_full_chain nested_engine in_stored_order http.new_wire
           (get "/docs/7") [] {["/docs/:id" := nested_route]}).
  - apply in_stored_order_ok.
  - reflexivity.
  - exists "/docs/:id", nested_route. split; [reflexivity|]. vm_compute. eauto.
Defined.

(** A route of the group under [/api]. *)
Lemma group_route_chain_witness :
  exists rt,
    routes api_router !! http.MethodGet = Some {["/api" +:+ "/docs/:id" := rt]} /\
    ServeHTTP {| router := api_router; middleware := [G_unit];
                 errorHandler := quiet_errorHandler |}
      in_stored_order http.new_wire (get "/api/docs/7") []
    = report {| router := api_router; middleware := [G_unit];
                errorHandler := quiet_errorHandler |}
        (applyMiddleware (say "H") ([G_unit] ++ [G_unit] ++ [B_unit] ++ [A_unit])
           (SetPathParams (route_params rt "/api/docs/7")
              (newContext http.new_wire (get "/api/docs/7") []))).
Proof.
  apply (group_route_chain api_group "/docs/:id" (say "H") [B_unit] [A_unit] [G_unit]
           quiet_errorHandler api_router in_stored_order http.new_wire
           "/api/docs/7" []).
  - apply in_stored_order_ok.
  - apply (Handler_single
             (After [A_unit] (Before [B_unit] (Group_GET api_group "/docs/:id" (say "H"))))
             "^/api/docs/([^/]+)/?$" ["id"] (compiled_for "/api/docs/:id"));
      vm_compute; reflexivity.
  - vm_compute. discriminate.
Defined.

(** The second before-unit of the route answers: the handler and the
    third unit do not run. *)
Lemma short_circuit_witness :
  ServeHTTP blocked_engine in_stored_order http.new_wire (get "/docs/7") []
  = report blocked_engine
      (applyMiddleware (say "blocked") (middleware blocked_engine ++ [B_unit])
         (SetPathParams (route_params blocked_route "/docs/7")
            (newContext http.new_wire (get "/docs/7") []))).
Proof.
  apply (short_circuit blocked_engine in_stored_order http.new_wire [] http.MethodGet
           "/docs/:id" "/docs/7" blocked_route [B_unit] [A_unit] (say "blocked")).
  - apply in_stored_order_ok.
  - reflexivity.
  - vm_compute. eauto.
  - reflexivity.
Defined.

(** Registering [/docs/:id] a second time. *)
Lemma Handler_replaces_and_frames_witness :
  Handler docs_again_builder docs_param_router = Handler docs_again_builder newRouter /\
  (forall o method requestPath,
     method <> http.MethodGet ->
     MatchRoute docs_param_router o method requestPath
     = MatchRoute newRouter o method requestPath).
Proof.
  assert (Hfirst : Handler docs_param_builder newRouter = Some docs_param_router).
  { apply (Handler_single docs_param_builder "^/docs/([^/]+)/?$" ["id"]
             (compiled_for "/docs/:id")); vm_compute; reflexivity. }
  destruct (Handler_replaces_and_frames docs_param_builder docs_again_builder
              newRouter docs_param_router Hfirst) as [Hreplaced Hframe].
  split; [by apply Hreplaced|exact Hframe].
Defined.

(** The parameter of [/docs/:id] on the path [/docs/7]. *)
Lemma Param_reads_capture_witness :
  Param "id"
    (SetPathParams (route_params docs_param "/docs/7")
       (newContext http.new_wire (get "/docs/7") []))
  = "7".
Proof.
  assert (Hnd : NoDup (paramNames docs_param))
    by (vm_compute; apply NoDup_singleton).
  assert (Hms : regexp.FindStringSubmatch (regex docs_param) "/docs/7"
                = Some ["/docs/7"; "7"]) by (vm_compute; reflexivity).
  exact (Param_reads_capture docs_param "/docs/7" ["/docs/7"; "7"]
           (newContext http.new_wire (get "/docs/7") []) "id" Hnd Hms).
Defined.

(** The pattern [/users/:id]. *)
Lemma Handler_segments_witness :
  exists rt : route http.wire,
    Handler (AddRoute http.MethodGet "/users/:id" (say "user")) newRouter
    = Some {| routes :=
                <[http.MethodGet :=
                    <["/users/:id" := rt]> (default ∅ (routes newRouter !! http.MethodGet))]>
                  (routes newRouter) |} /\
    handler rt = say "user" /\ before rt = [] /\ after rt = [] /\
    paramNames rt = ["id"] /\
    (forall path parts, fits_all users_segments parts = true -> spells path parts ->
       regexp.FindStringSubmatch (regex rt) path
       = Some (path :: param_values users_segments parts)) /\
    (forall path, matches_path rt path ->
       exists parts, fits_all users_segments parts = true /\ spells path parts).
Proof.
  apply (Handler_segments users_segments
           (AddRoute http.MethodGet "/users/:id" (say "user")) newRouter);
    reflexivity.
Defined.

(** Resolution against [/users/:id]. *)
Lemma MatchRoute_segments_witness :
  exists r : Router http.wire,
    Handler (AddRoute http.MethodGet (pattern_of users_segments) (say "user")) newRouter
    = Some r /\
    forall path,
      (forall parts, fits_all users_segments parts = true -> spells path parts ->
         MatchRoute r in_reverse_order http.MethodGet path
         = (Some (say "user"),
            Some (list_to_map (zip (param_names users_segments)
                                 (param_values users_segments parts))))) /\
      ((forall parts, fits_all users_segments parts = true -> ~ spells path parts) ->
       MatchRoute r in_reverse_order http.MethodGet path = (None, None)).
Proof.
  apply (MatchRoute_segments users_segments http.MethodGet (say "user") in_reverse_order).
  - apply in_reverse_order_ok.
  - reflexivity.
  - reflexivity.
  - apply NoDup_singleton.
Defined.

(** The pattern [/files/*]. *)
Lemma Handler_wildcard_witness :
  exists rt : route http.wire,
    Handler (AddRoute http.MethodGet "/files/*" (say "wildcard")) newRouter
    = Some {| routes :=
                <[http.MethodGet :=
                    <["/files/*" := rt]> (default ∅ (routes newRouter !! http.MethodGet))]>
                  (routes newRouter) |} /\
    handler rt = say "wildcard" /\ before rt = [] /\ after rt = [] /\
    paramNames rt = ["wildcard"] /\
    (forall parts rest, fits_all [Static "files"] parts = true ->
       has_byte newline rest = false ->
       regexp.FindStringSubmatch (regex rt) (join_path parts +:+ "/" +:+ rest)
       = Some ((join_path parts +:+ "/" +:+ rest)
                 :: param_values [Static "files"] parts ++ [rest])) /\
    (forall path, matches_path rt path ->
       exists parts rest,
         fits_all [Static "files"] parts = true /\ has_byte newline rest = false /\
         path = join_path parts +:+ "/" +:+ rest).
Proof.
  apply (Handler_wildcard [Static "files"]
           (AddRoute http.MethodGet "/files/*" (say "wildcard")) newRouter);
    reflexivity.
Defined.

(** Files mounted under [/static]. *)
Lemma StaticFS_mount_witness :
  exists r : Router http.wire,
    Handler (StaticFS "/static" plain_file_server) newRouter = Some r /\
    (forall rest, has_byte newline rest = false ->
       MatchRoute r in_stored_order http.MethodGet
         (pattern_of [Static "static"] +:+ "/" +:+ rest)
       = (Some (static_handler (pattern_of [Static "static"] +:+ "/") plain_file_server),
          Some {["wildcard" := rest]}) /\
       forall c,
         http.URL_Path (Request c) = pattern_of [Static "static"] +:+ "/" +:+ rest ->
         static_handler (pattern_of [Static "static"] +:+ "/") plain_file_server c
         = (None, plain_file_server (set_URL_Path rest c))) /\
    (forall path, fst (MatchRoute r in_stored_order http.MethodGet path) <> None ->
       exists rest, has_byte newline rest = false /\
                    path = pattern_of [Static "static"] +:+ "/" +:+ rest).
Proof.
  apply (StaticFS_mount [Static "static"] "/static" plain_file_server in_stored_order).
  - apply in_stored_order_ok.
  - reflexivity.
  - reflexivity.
  - reflexivity.
  - left. reflexivity.
Defined.

(** The application's routes with the document [7]: a GET of the sign-up
    path, which is registered for POST only, is served as a file, and a
    path without its leading slash is not served. *)
Lemma app_GET_resolution_witness :
  exists r : Router http.wire,
    register_each (app_registrations named_handlers) newRouter = Some r /\
    MatchRoute r in_reverse_order http.MethodGet "/api/docs"
    = (Some (G_unit (say "list")), Some ∅) /\
    MatchRoute r in_reverse_order http.MethodGet "/api/docs/7"
    = (Some (G_unit (say "get")), Some {["id" := "7"]}) /\
    MatchRoute r in_reverse_order http.MethodGet "/api/docs/7/history"
    = (Some (G_unit (say "history")), Some {["id" := "7"]}) /\
    MatchRoute r in_reverse_order http.MethodGet "/api/docs/7/subscribe"
    = (Some (G_unit (say "subscribe")), Some {["id" := "7"]}) /\
    MatchRoute r in_reverse_order http.MethodGet "/share/7"
    = (Some (say "shared"), Some {["shareID" := "7"]}) /\
    MatchRoute r in_reverse_order http.MethodGet "/api/signup"
    = (Some (static_handler "/" plain_file_server),
       Some {["wildcard" := "api/signup"]}) /\
    MatchRoute r in_reverse_order http.MethodGet "index.html" = (None, None).
Proof.
  destruct (app_GET_resolution named_handlers in_reverse_order "7"
              in_reverse_order_ok eq_refl)
    as (r & Hreg & Hdocs & Hdoc & Hhistory & Hsubscribe & Hshared & Hfile & Hnone).
  exists r.
  refine (conj Hreg (conj Hdocs (conj Hdoc (conj Hhistory (conj Hsubscribe
            (conj Hshared (conj _ _))))))).
  - apply (Hfile "api/signup"); [reflexivity|].
    apply off_patterns_outside; reflexivity.
  - apply Hnone; [apply off_patterns_no_root; reflexivity|].
    intros rest Hrest. discriminate Hrest.
Defined.

(** The application's writing routes with the document [7]: a POST off
    the patterns and a request of another method find nothing. *)
Lemma app_write_resolution_witness :
  exists r : Router http.wire,
    register_each (app_registrations named_handlers) newRouter = Some r /\
    MatchRoute r in_stored_order http.MethodPost "/api/signup"
    = (Some (say "signup"), Some ∅) /\
    MatchRoute r in_stored_order http.MethodPost "/api/login"
    = (Some (say "login"), Some ∅) /\
    MatchRoute r in_stored_order http.MethodPost "/api/docs"
    = (Some (G_unit (say "create")), Some ∅) /\
    MatchRoute r in_stored_order http.MethodPost "/api/docs/7/share"
    = (Some (G_unit (say "share")), Some {["id" := "7"]}) /\
    MatchRoute r in_stored_order "PUT" "/api/docs/7"
    = (Some (G_unit (say "update")), Some {["id" := "7"]}) /\
    MatchRoute r in_stored_order "DELETE" "/api/docs/7"
    = (Some (G_unit (say "delete")), Some {["id" := "7"]}) /\
    MatchRoute r in_stored_order http.MethodPost "/index.html" = (None, None) /\
    MatchRoute r in_stored_order "OPTIONS" "/api/docs" = (None, None).
Proof.
  destruct (app_write_resolution named_handlers in_stored_order "7"
              in_stored_order_ok eq_refl)
    as (r & Hreg & Hsignup & Hlogin & Hcreate & Hshare & Hupdate & Hdelete
          & Hpost & _ & Hmethod).
  exists r.
  refine (conj Hreg (conj Hsignup (conj Hlogin (conj Hcreate (conj Hshare
            (conj Hupdate (conj Hdelete (conj _ _)))))))).
  - apply Hpost. apply (off_post_patterns_outside "index.html"). reflexivity.
  - apply Hmethod; discriminate.
Defined.
